(** * FAME Smart Flasher: framing codec, protocol codec, firmware model and
      flashing orchestrator, embedded from the C++ sources and verified.

    Bytes are modelled as [Z] (the value of a [uint8_t]); a [QByteArray] is a
    [list Z]; a [QString] is a [string].  The layout of the file is:
    the embedding of the sources (one module per translation unit), followed
    by the lemmas and theorems about it. *)

From Stdlib Require Import String Ascii DecimalString HexadecimalString.
From Stdlib Require Import ZArith List Bool Lia ZifyBool QArith Sorted.
Import ListNotations.
Open Scope Z_scope.

(* ================================================================== *)
(** * Part I.  The embedding                                           *)
(* ================================================================== *)

(** ** [QByteArray] helpers used throughout the sources *)

Definition QByteArray := list Z.

(** [QByteArray::isEmpty] *)
Definition isEmpty {A} (a : list A) : bool :=
  match a with [] => true | _ :: _ => false end.

(** [QByteArray::mid(pos, len)] for [0 <= pos] and [0 <= len]. *)
Definition mid (a : QByteArray) (pos len : nat) : QByteArray :=
  firstn len (skipn pos a).

(** [QByteArray::size], an [int] in the sources. *)
Definition size (a : QByteArray) : Z := Z.of_nat (length a).

(** [data[i]] read as a [uint8_t]. *)
Definition at_ (a : QByteArray) (i : nat) : Z := nth i a 0.

(** ** protocol/SLIPCodec.{h,cpp} *)

Module SLIPCodec.

Definition FRAME_END : Z := 0xC0.
Definition FRAME_ESCAPE : Z := 0xDB.
Definition ESCAPED_END : Z := 0xDC.
Definition ESCAPED_ESCAPE : Z := 0xDD.

(** Body of the [for] loop of [encode]: the [switch] appends to
    [encoded]. *)
Fixpoint encodeLoop (data encoded : QByteArray) : QByteArray :=
  match data with
  | [] => encoded
  | byte :: rest =>
      if byte =? FRAME_END then
        encodeLoop rest (encoded ++ [FRAME_ESCAPE; ESCAPED_END])
      else if byte =? FRAME_ESCAPE then
        encodeLoop rest (encoded ++ [FRAME_ESCAPE; ESCAPED_ESCAPE])
      else
        encodeLoop rest (encoded ++ [byte])
  end.

Definition encode (data : QByteArray) : QByteArray :=
  encodeLoop data [FRAME_END] ++ [FRAME_END].

(** The [for] loop of the one-shot [decode], with its three locals.  The
    [return decoded] inside the loop ends the recursion; falling off the
    end of the input returns whatever has been accumulated. *)
Fixpoint decodeLoop (slipPacket decoded : QByteArray)
         (inEscape started : bool) : QByteArray :=
  match slipPacket with
  | [] => if isEmpty decoded then [] else decoded
  | byte :: rest =>
      if byte =? FRAME_END then
        if started && negb (isEmpty decoded) then decoded
        else decodeLoop rest [] inEscape true
      else if negb started then
        decodeLoop rest decoded inEscape started
      else if inEscape then
        let decoded' :=
          if byte =? ESCAPED_END then decoded ++ [FRAME_END]
          else if byte =? ESCAPED_ESCAPE then decoded ++ [FRAME_ESCAPE]
          else decoded ++ [byte] in
        decodeLoop rest decoded' false started
      else if byte =? FRAME_ESCAPE then
        decodeLoop rest decoded true started
      else
        decodeLoop rest (decoded ++ [byte]) inEscape started
  end.

Definition decode (slipPacket : QByteArray) : QByteArray :=
  decodeLoop slipPacket [] false false.

(** Specification vocabulary: the escaped image of one byte, as the
    [switch] of [encode] emits it. *)
Definition escapeByte (b : Z) : QByteArray :=
  if b =? FRAME_END then [FRAME_ESCAPE; ESCAPED_END]
  else if b =? FRAME_ESCAPE then [FRAME_ESCAPE; ESCAPED_ESCAPE]
  else [b].

(** Specification vocabulary: the lenient un-escaping of the bytes of a
    frame body.  [inEsc] tells whether the previous byte was an
    unconsumed [FRAME_ESCAPE]; a byte after an escape is substituted when
    it is one of the two escape codes and kept verbatim otherwise. *)
Definition substEscaped (b : Z) : Z :=
  if b =? ESCAPED_END then FRAME_END
  else if b =? ESCAPED_ESCAPE then FRAME_ESCAPE
  else b.

Fixpoint unescapeFrom (inEsc : bool) (body : QByteArray) : QByteArray :=
  match body with
  | [] => []
  | b :: rest =>
      if inEsc then substEscaped b :: unescapeFrom false rest
      else if b =? FRAME_ESCAPE then unescapeFrom true rest
      else b :: unescapeFrom false rest
  end.

Definition unescape (body : QByteArray) : QByteArray :=
  unescapeFrom false body.

(** Whether [body] ends in the middle of an escape sequence. *)
Fixpoint pendingEscape (inEsc : bool) (body : QByteArray) : bool :=
  match body with
  | [] => inEsc
  | b :: rest =>
      if inEsc then pendingEscape false rest
      else pendingEscape (b =? FRAME_ESCAPE) rest
  end.

(** A byte sequence that contains no frame delimiter. *)
Definition NoEnd (l : QByteArray) : Prop :=
  Forall (fun b => b <> FRAME_END) l.

End SLIPCodec.

(** The streaming decoder, [class SLIPDecoder]. *)
Module SLIPDecoder.
Import SLIPCodec.

Record t := mk
  { m_buffer : QByteArray;
    m_inEscape : bool;
    m_packetStarted : bool }.

(** State after [reset()], which is also the freshly constructed one. *)
Definition reset : t :=
  {| m_buffer := []; m_inEscape := false; m_packetStarted := false |}.

(** [processByte] returns the completed packet, or the empty array when
    none was completed, together with the updated decoder. *)
Definition processByte (d : t) (byte : Z) : QByteArray * t :=
  if byte =? FRAME_END then
    if m_packetStarted d && negb (isEmpty (m_buffer d)) then
      (m_buffer d, reset)
    else
      ([], {| m_buffer := []; m_inEscape := m_inEscape d;
              m_packetStarted := true |})
  else if byte =? FRAME_ESCAPE then
    if negb (m_packetStarted d) then ([], d)
    else ([], {| m_buffer := m_buffer d; m_inEscape := true;
                 m_packetStarted := m_packetStarted d |})
  else
    if negb (m_packetStarted d) then ([], d)
    else if m_inEscape d then
      let buffer' :=
        if byte =? ESCAPED_END then m_buffer d ++ [FRAME_END]
        else if byte =? ESCAPED_ESCAPE then m_buffer d ++ [FRAME_ESCAPE]
        else m_buffer d ++ [byte] in
      ([], {| m_buffer := buffer'; m_inEscape := false;
              m_packetStarted := m_packetStarted d |})
    else
      ([], {| m_buffer := m_buffer d ++ [byte];
              m_inEscape := m_inEscape d;
              m_packetStarted := m_packetStarted d |}).

(** [process]: feed every byte, collect the non-empty results. *)
Fixpoint processLoop (d : t) (data : QByteArray)
         (packets : list QByteArray) : list QByteArray * t :=
  match data with
  | [] => (packets, d)
  | byte :: rest =>
      let '(packet, d') := processByte d byte in
      if negb (isEmpty packet) then processLoop d' rest (packets ++ [packet])
      else processLoop d' rest packets
  end.

Definition process (d : t) (data : QByteArray) : list QByteArray * t :=
  processLoop d data [].

End SLIPDecoder.

(** ** protocol/ESP32Protocol.{h,cpp} *)

(** Wrap-around of the fixed-width unsigned types. *)
Definition wrap8 (v : Z) : Z := v mod 2 ^ 8.
Definition wrap16 (v : Z) : Z := v mod 2 ^ 16.
Definition wrap32 (v : Z) : Z := v mod 2 ^ 32.

(** Wrap-around of the signed 32-bit [int]. *)
Definition wrapInt (v : Z) : Z := (v + 2 ^ 31) mod 2 ^ 32 - 2 ^ 31.

Definition INT_MAX : Z := 2 ^ 31 - 1.

(** The bytes of a [QByteArray], seen through [static_cast<uint8_t>]. *)
Definition isByte (b : Z) : Prop := 0 <= b < 256.

(** [enum class ESP32Command : uint8_t] *)
Inductive ESP32Command :=
| Sync | FlashBegin | FlashData | FlashEnd
| ChangeBaudRate | ReadReg | WriteReg | SpiAttach.

Definition commandCode (c : ESP32Command) : Z :=
  match c with
  | Sync => 0x08 | FlashBegin => 0x02 | FlashData => 0x03 | FlashEnd => 0x04
  | ChangeBaudRate => 0x0F | ReadReg => 0x0A | WriteReg => 0x09
  | SpiAttach => 0x0D
  end.

Module ESP32C3Registers.
Definition RTC_CNTL_BASE : Z := 0x60008000.
Definition RTC_WDT_CONFIG0 : Z := RTC_CNTL_BASE + 0x0090.
Definition RTC_WDT_WPROTECT : Z := RTC_CNTL_BASE + 0x00A8.
Definition RTC_WDT_WKEY : Z := 0x50D83AA1.
Definition SWD_CONF : Z := RTC_CNTL_BASE + 0x00AC.
Definition SWD_WPROTECT : Z := RTC_CNTL_BASE + 0x00B0.
Definition SWD_WKEY : Z := 0x8F1D312A.
Definition WDT_EN_BIT : Z := wrap32 (Z.shiftl 1 31).
Definition SWD_AUTO_FEED_EN_BIT : Z := wrap32 (Z.shiftl 1 31).
End ESP32C3Registers.

Module ESP32Protocol.

Definition CHECKSUM_SEED : Z := 0xEF.
Definition FLASH_BLOCK_SIZE : Z := 1024.

Definition appendLE16 (data : QByteArray) (value : Z) : QByteArray :=
  data ++ [Z.land value 0xFF; Z.land (Z.shiftr value 8) 0xFF].

Definition appendLE32 (data : QByteArray) (value : Z) : QByteArray :=
  data ++ [Z.land value 0xFF;
           Z.land (Z.shiftr value 8) 0xFF;
           Z.land (Z.shiftr value 16) 0xFF;
           Z.land (Z.shiftr value 24) 0xFF].

Definition readLE16 (data : QByteArray) (offset : nat) : Z :=
  wrap16 (Z.lor (at_ data offset) (Z.shiftl (at_ data (offset + 1)) 8)).

Definition readLE32 (data : QByteArray) (offset : nat) : Z :=
  wrap32
    (Z.lor (Z.lor (Z.lor (at_ data offset)
                         (Z.shiftl (at_ data (offset + 1)) 8))
                  (Z.shiftl (at_ data (offset + 2)) 16))
           (Z.shiftl (at_ data (offset + 3)) 24)).

Definition buildPacket (command : ESP32Command) (payload : QByteArray)
           (checksum : Z) : QByteArray :=
  let packet := [0x00] in
  let packet := packet ++ [commandCode command] in
  let packet := appendLE16 packet (wrap16 (size payload)) in
  let packet := appendLE32 packet checksum in
  packet ++ payload.

Fixpoint checksumLoop (data : QByteArray) (checksum : Z) : Z :=
  match data with
  | [] => checksum
  | b :: rest => checksumLoop rest (wrap8 (Z.lxor checksum b))
  end.

Definition calculateChecksum (data : QByteArray) : Z :=
  checksumLoop data CHECKSUM_SEED.

Definition buildSyncCommand : QByteArray :=
  buildPacket Sync ([0x07; 0x07; 0x12; 0x20] ++ repeat 0x55 32) 0.

Definition buildSpiAttachCommand (config : Z) : QByteArray :=
  buildPacket SpiAttach (appendLE32 (appendLE32 [] config) 0) 0.

Definition buildFlashBeginCommand (size_ numBlocks blockSize offset : Z)
           (encrypted : bool) : QByteArray :=
  let payload := appendLE32 [] size_ in
  let payload := appendLE32 payload numBlocks in
  let payload := appendLE32 payload blockSize in
  let payload := appendLE32 payload offset in
  let payload := appendLE32 payload (if encrypted then 1 else 0) in
  buildPacket FlashBegin payload 0.

Definition buildFlashDataCommand (blockData : QByteArray)
           (sequenceNumber : Z) : QByteArray :=
  let payload := appendLE32 [] (wrap32 (size blockData)) in
  let payload := appendLE32 payload sequenceNumber in
  let payload := payload ++ repeat 0 8 in
  let payload := payload ++ blockData in
  let checksum := calculateChecksum blockData in
  buildPacket FlashData payload checksum.

Definition buildFlashEndCommand (reboot : bool) : QByteArray :=
  let flag := if reboot then 0 else 1 in
  buildPacket FlashEnd (appendLE32 [] flag) 0.

Definition buildChangeBaudCommand (newBaud oldBaud : Z) : QByteArray :=
  buildPacket ChangeBaudRate (appendLE32 (appendLE32 [] newBaud) oldBaud) 0.

Definition buildReadRegCommand (address : Z) : QByteArray :=
  buildPacket ReadReg (appendLE32 [] address) 0.

Definition buildWriteRegCommand (address value mask delayUs : Z)
  : QByteArray :=
  let payload := appendLE32 [] address in
  let payload := appendLE32 payload value in
  let payload := appendLE32 payload mask in
  let payload := appendLE32 payload delayUs in
  buildPacket WriteReg payload 0.

End ESP32Protocol.

(** [struct ESP32Response] *)
Module ESP32Response.
Import ESP32Protocol.

Record t := mk
  { direction : Z;
    command : Z;
    size_ : Z;
    value : Z;
    data : QByteArray;
    status : Z;
    error : Z }.

Definition isSuccess (r : t) : bool := (status r =? 0) && (error r =? 0).

(** [ESP32Response::parse]; [None] is [std::nullopt]. *)
Definition parse (packet : QByteArray) : option t :=
  if size packet <? 8 then None
  else
    let direction := at_ packet 0 in
    if negb (direction =? 0x01) then None
    else
      let command := at_ packet 1 in
      let size_ := readLE16 packet 2 in
      let value := readLE32 packet 4 in
      let dataEndIndex := Z.min (8 + size_) (size packet) in
      let data :=
        if size packet >? 8 then mid packet 8 (Z.to_nat (dataEndIndex - 8))
        else [] in
      let status := if size data >=? 1 then at_ data 0 else 0 in
      let error := if size data >=? 2 then at_ data 1 else 0 in
      Some (mk direction command size_ value data status error).

End ESP32Response.

(** ** [QString] helpers

    A [QString] is modelled as a [string] of 8-bit characters.  The three
    library functions below belong to Qt, not to the repository; they are
    modelled after their documentation, restricted to ASCII. *)

Module QString.
Open Scope string_scope.

(** [QString::startsWith(sub)], case sensitive. *)
Fixpoint startsWith (s sub : string) {struct sub} : bool :=
  match sub with
  | EmptyString => true
  | String a sub' =>
      match s with
      | EmptyString => false
      | String b s' => Ascii.eqb a b && startsWith s' sub'
      end
  end.

(** [QString::contains(sub)], case sensitive: [sub] occurs at some
    position of [s]. *)
Fixpoint contains (s sub : string) : bool :=
  startsWith s sub ||
  match s with
  | EmptyString => false
  | String _ rest => contains rest sub
  end.

(** Whether the character [c] occurs in [s]. *)
Fixpoint occurs (c : ascii) (s : string) : bool :=
  match s with
  | EmptyString => false
  | String b rest => Ascii.eqb c b || occurs c rest
  end.

(** [QString::toLower] on ASCII letters. *)
Definition lowerChar (c : ascii) : ascii :=
  let n := nat_of_ascii c in
  if ((65 <=? n) && (n <=? 90))%nat then ascii_of_nat (n + 32) else c.

Fixpoint toLower (s : string) : string :=
  match s with
  | EmptyString => EmptyString
  | String c rest => String (lowerChar c) (toLower rest)
  end.

(** [QFileInfo(path).fileName()]: what follows the last ['/'] of the
    path, the whole path when it has none.  [acc] is the candidate name
    read so far. *)
Fixpoint fileNameFrom (path acc : string) : string :=
  match path with
  | EmptyString => acc
  | String c rest =>
      if Ascii.eqb c "/" then fileNameFrom rest EmptyString
      else fileNameFrom rest (acc ++ String c EmptyString)
  end.

Definition fileName (path : string) : string :=
  fileNameFrom path EmptyString.

End QString.

(** ** models/FirmwareFile.{h,cpp} *)

Module FirmwareImage.
Record t := mk
  { filePath : string;
    data : QByteArray;
    offset : Z }.

(** [isValid]: at least 8 bytes, first byte the ESP magic 0xE9. *)
Definition isValid (image : t) : bool :=
  if size (data image) <? 8 then false
  else at_ (data image) 0 =? 0xE9.

(** [int size() const] *)
Definition size (image : t) : Z := size (data image).
End FirmwareImage.

Module FirmwareFile.
Record t := mk { m_images : list FirmwareImage.t }.

Definition images (fw : t) : list FirmwareImage.t := m_images fw.

(** The names that mark a merged binary, in the order the constructor
    tests them. *)
Definition mergedMarkers : list string :=
  ["merged"; "factory"; "combined"; "full"]%string.

(** [FirmwareFile::FirmwareFile(const QString&, const QByteArray&)] *)
Definition fromFile (filePath : string) (data : QByteArray) : t :=
  let fileName := QString.toLower (QString.fileName filePath) in
  let isMergedBinary :=
    QString.contains fileName "merged" ||
    QString.contains fileName "factory" ||
    QString.contains fileName "combined" ||
    QString.contains fileName "full" in
  let offset := if isMergedBinary then 0x0000 else 0x10000 in
  mk [FirmwareImage.mk filePath data offset].

(** [totalSize]: the [int] sum of the image sizes. *)
Definition totalSize (fw : t) : Z :=
  fold_left (fun total image => wrapInt (total + FirmwareImage.size image))
            (m_images fw) 0.

End FirmwareFile.

(** ** models/FlashingState.h *)

Module FlashingState.

Inductive FlashingStateType :=
| Idle | Connecting | Syncing | ChangingBaudRate | Erasing | Flashing
| Verifying | Restarting | Complete | Error.

(** [FlashingErrorType]; [NoError] is the enumerator [None]. *)
Inductive FlashingErrorType :=
| NoError | PortNotFound | ConnectionFailed | SyncFailed
| BaudChangeTimeout | FlashBeginFailed | FlashDataFailed | FlashEndFailed
| ChecksumMismatch | Timeout | InvalidFirmware | PortDisconnected
| Cancelled.

(** [progress] is a [double] in the sources; it is modelled by the exact
    rational the expression denotes. *)
Record t := mk
  { type : FlashingStateType;
    progress : Q;
    errorType : FlashingErrorType;
    errorMessage : string;
    errorData : Z }.

Definition ofType (ty : FlashingStateType) : t :=
  mk ty 0%Q NoError EmptyString 0.

Definition idle := ofType Idle.
Definition connecting := ofType Connecting.
Definition syncing := ofType Syncing.
Definition changingBaudRate := ofType ChangingBaudRate.
Definition erasing := ofType Erasing.
Definition flashing (progress : Q) : t :=
  mk Flashing progress NoError EmptyString 0.
Definition verifying := ofType Verifying.
Definition restarting := ofType Restarting.
Definition complete := ofType Complete.
Definition error (ty : FlashingErrorType) (message : string) (data : Z) : t :=
  mk Error 0%Q ty message data.

Definition isActive (st : t) : bool :=
  match type st with
  | Idle | Complete | Error => false
  | _ => true
  end.

End FlashingState.

(** ** models/SerialPort.h *)

Module SerialPort.
Record t := mk
  { path : string;
    vendorId : Z;
    productId : Z }.

Definition isESP32C3 (port : t) : bool :=
  (vendorId port =? 0x303A) && (productId port =? 0x1001).
End SerialPort.

Inductive BaudRate := Baud115200 | Baud230400 | Baud460800 | Baud921600.

Definition baudRateValue (rate : BaudRate) : Z :=
  match rate with
  | Baud115200 => 115200 | Baud230400 => 230400
  | Baud460800 => 460800 | Baud921600 => 921600
  end.

Definition isBaud115200 (rate : BaudRate) : bool :=
  match rate with Baud115200 => true | _ => false end.

(** ** serial/SerialConnection.h: [class SerialError] *)

Module SerialError.
Inductive Type_ :=
| CannotOpen | WriteFailed | ReadFailed | Timeout
| InvalidConfiguration | NotConnected.

Definition isTimeout (ty : Type_) : bool :=
  match ty with Timeout => true | _ => false end.
End SerialError.

(** [QString::arg] on an integer: its decimal text. *)
Definition decimal (v : Z) : string :=
  DecimalString.NilZero.string_of_int (Z.to_int v).

(** [QString::arg(v, 8, 16, QChar('0'))]: lower-case hexadecimal, padded on
    the left with zeros to eight characters. *)
Fixpoint zeros (n : nat) : string :=
  match n with O => EmptyString | S n' => String "0" (zeros n') end.

Definition hex8 (v : Z) : string :=
  let digits :=
    HexadecimalString.NilZero.string_of_uint (N.to_hex_uint (Z.to_N v)) in
  (zeros (8 - String.length digits) ++ digits)%string.

(** ** services/FlashingService.{h,cpp}

    The worker runs against a device and a user that the program does not
    control.  They are gathered in a [World]: what each [open], [write] and
    [read] of the serial port returns, and when the other thread's
    [cancel()] lands.  The worker itself is a computation in a state and
    exception monad whose state holds the members of the service and of its
    connection, and the trace of everything the worker did. *)

Module FlashingService.
Import SLIPCodec ESP32Protocol.

Definition SYNC_RETRIES : Z := 20.
Definition RESPONSE_TIMEOUT : Z := 5000.   (* 5.0 s, in milliseconds *)
Definition BLOCK_DELAY_MS : Z := 5.
Definition SYNC_RETRY_DELAY_MS : Z := 50.

(** The exceptions of the sources, all derived from [std::exception]. *)
Inductive Exn :=
| RuntimeError (what : string)
| SerialErr (type : SerialError.Type_) (errorCode : Z).

(** One [m_connection->read(0.1)]: the bytes read (none on a timeout, and
    none when [::read] answers [EAGAIN] or [EWOULDBLOCK]), or the [errno]
    with which [select] fails, or [::read] fails otherwise. *)
Inductive ReadOutcome :=
| ReadData (bytes : QByteArray)
| ReadErrno (errno : Z).

(** The places where [m_isCancelled] is read. *)
Inductive PollSite := ImageLoop | BlockLoop | WaitLoop | Handler.

(** What the worker does, in order.  [AWrite bytes ok] is a call of
    [write] on the open port, [ok] telling whether all the bytes went out;
    [APoll site value] is a read of [m_isCancelled]. *)
Inductive Action :=
| AOpen (ok : bool)
| AClose
| AWrite (bytes : QByteArray) (ok : bool)
| AFlush
| ASetDTR (value : bool)
| ASetRTS (value : bool)
| ASetBaudRate (rate : BaudRate)
| ASleep (ms : Z)
| AEmit (state : FlashingState.t)
| AFinished (success : bool)
| APoll (site : PollSite) (value : bool).

Record World := mkWorld
  { (** [cancel()] lands just before the read of [m_isCancelled] with this
        index (reads are counted from 0); [None]: it is never called. *)
    cancelAt : option nat;
    (** The k-th [open]: [None] on success, the [errno] otherwise. *)
    openResult : nat -> option Z;
    (** The k-th call of [write] (calls are counted from 0), when its
        buffer is not empty: [None] when all the bytes go out, after as
        many short writes and retries as it takes; otherwise the [errno]
        that [::write] ends up answering.
        On [EAGAIN] and [EWOULDBLOCK] the call sleeps and tries again,
        with no deadline and no look at [m_isCancelled]: a port that
        answers so for ever keeps the call from returning.  Any other
        [errno] is thrown. *)
    writeResult : nat -> option Z;
    (** Whether [tcsetattr] accepts the new line speed. *)
    setBaudOk : bool;
    (** The k-th [waitForResponse], called with the given timeout in ms:
        the outcomes of the reads that fit before its deadline. *)
    reads : nat -> Z -> list ReadOutcome;
    (** The C library's [strerror]. *)
    strerror : Z -> string;
    (** Whether the handler of [runFlashing] finds [m_isCancelled] reset:
        [flash()] was called again after [cleanup()] had cleared
        [m_isFlashing], and [cancel()] has not been called since. *)
    reflashed : bool }.

Record St := mkSt
  { fd_open : bool;                      (* m_fd >= 0 *)
    m_isFlashing : bool;
    m_slipDecoder : SLIPDecoder.t;
    nPolls : nat;                        (* reads of m_isCancelled so far *)
    nOpens : nat;
    nWrites : nat;
    nWaits : nat;
    trace : list Action }.

(** How a call ends: it returns, it throws, or it never returns. *)
Inductive Res (A : Type) :=
| Ok (a : A)
| Throw (e : Exn)
| Hang.
Arguments Ok {A} a.
Arguments Throw {A} e.
Arguments Hang {A}.

Definition M (A : Type) : Type := St -> Res A * St.

Definition ret {A} (a : A) : M A := fun s => (Ok a, s).

Definition bind {A B} (m : M A) (k : A -> M B) : M B :=
  fun s => match m s with
           | (Ok a, s') => k a s'
           | (Throw e, s') => (Throw e, s')
           | (Hang, s') => (Hang, s')
           end.

Definition throw {A} (e : Exn) : M A := fun s => (Throw e, s).

(** [try { m } catch (...) { h }]; a call that never returns is not
    caught. *)
Definition tryCatch {A} (m : M A) (h : Exn -> M A) : M A :=
  fun s => match m s with
           | (Ok a, s') => (Ok a, s')
           | (Throw e, s') => h e s'
           | (Hang, s') => (Hang, s')
           end.

(** [m] did not return, and neither does what is sequenced after it:
    the same exception, or no return at all, at another type. *)
Inductive stopped {A B} : Res A -> Res B -> Prop :=
| stopped_throw (e : Exn) : stopped (Throw e) (Throw e)
| stopped_hang : stopped Hang Hang.

(** [m] did not throw, so that a handler around it does not run. *)
Inductive uncaught {A} : Res A -> Res A -> Prop :=
| uncaught_ok (a : A) : uncaught (Ok a) (Ok a)
| uncaught_hang : uncaught Hang Hang.

(** The [errno] values on which [SerialConnection::write] retries. *)
Definition EAGAIN : Z := 11.
Definition EWOULDBLOCK : Z := 11.

Definition retried (errno : Z) : bool :=
  (errno =? EAGAIN) || (errno =? EWOULDBLOCK).

Declare Scope monad_scope.
Delimit Scope monad_scope with monad.
Notation "x <- m ;; k" := (bind m (fun x => k))
  (at level 61, m at next level, right associativity) : monad_scope.
Notation "m ;; k" := (bind m (fun _ => k))
  (at level 61, right associativity) : monad_scope.
Open Scope monad_scope.

(** The state the worker starts from: [flash()] has cleared
    [m_isCancelled] and set [m_isFlashing]; [runFlashing] has made a new,
    closed connection. *)
Definition initial : St :=
  {| fd_open := false; m_isFlashing := true;
     m_slipDecoder := SLIPDecoder.reset;
     nPolls := 0; nOpens := 0; nWrites := 0; nWaits := 0; trace := [] |}.

Definition log (a : Action) : M unit :=
  fun s => (Ok tt,
            {| fd_open := fd_open s; m_isFlashing := m_isFlashing s;
               m_slipDecoder := m_slipDecoder s;
               nPolls := nPolls s; nOpens := nOpens s;
               nWrites := nWrites s; nWaits := nWaits s;
               trace := trace s ++ [a] |}).

Definition setFd (b : bool) : M unit :=
  fun s => (Ok tt,
            {| fd_open := b; m_isFlashing := m_isFlashing s;
               m_slipDecoder := m_slipDecoder s;
               nPolls := nPolls s; nOpens := nOpens s;
               nWrites := nWrites s; nWaits := nWaits s;
               trace := trace s |}).

Definition setIsFlashing (b : bool) : M unit :=
  fun s => (Ok tt,
            {| fd_open := fd_open s; m_isFlashing := b;
               m_slipDecoder := m_slipDecoder s;
               nPolls := nPolls s; nOpens := nOpens s;
               nWrites := nWrites s; nWaits := nWaits s;
               trace := trace s |}).

Definition setDecoder (d : SLIPDecoder.t) : M unit :=
  fun s => (Ok tt,
            {| fd_open := fd_open s; m_isFlashing := m_isFlashing s;
               m_slipDecoder := d;
               nPolls := nPolls s; nOpens := nOpens s;
               nWrites := nWrites s; nWaits := nWaits s;
               trace := trace s |}).

Definition emit (state : FlashingState.t) : M unit := log (AEmit state).
Definition emitFinished (success : bool) : M unit := log (AFinished success).
Definition sleepMs (ms : Z) : M unit := log (ASleep ms).

Section Worker.
Variable w : World.

(** [SerialError::errorDescription], the [what()] of a [SerialError]. *)
Definition errorDescription (type : SerialError.Type_) (errorCode : Z)
  : string :=
  match type with
  | SerialError.CannotOpen =>
      ("Cannot open port: " ++ strerror w errorCode)%string
  | SerialError.WriteFailed =>
      ("Write failed: " ++ strerror w errorCode)%string
  | SerialError.ReadFailed =>
      ("Read failed: " ++ strerror w errorCode)%string
  | SerialError.Timeout => "Operation timed out"%string
  | SerialError.InvalidConfiguration =>
      "Invalid serial configuration"%string
  | SerialError.NotConnected => "Not connected"%string
  end.

Definition what (e : Exn) : string :=
  match e with
  | RuntimeError msg => msg
  | SerialErr type errorCode => errorDescription type errorCode
  end.

(** The value of [m_isCancelled] at its [n]-th read, for the reads made
    while [m_isFlashing] is set: [cancel()] only sets the flag and
    [flash()], which clears it, returns at once while [m_isFlashing] is
    set, so that these reads are monotone. *)
Definition flagAt (n : nat) : bool :=
  match cancelAt w with
  | Some c => (c <=? n)%nat
  | None => false
  end.

(** One read of the atomic [m_isCancelled]. *)
Definition isCancelled (site : PollSite) : M bool :=
  fun s =>
    let value := flagAt (nPolls s) in
    (Ok value,
     {| fd_open := fd_open s; m_isFlashing := m_isFlashing s;
        m_slipDecoder := m_slipDecoder s;
        nPolls := S (nPolls s); nOpens := nOpens s;
        nWrites := nWrites s; nWaits := nWaits s;
        trace := trace s ++ [APoll site value] |}).

(** The value of [m_isCancelled] at its [n]-th read, when that read comes
    after [cleanup()] has cleared [m_isFlashing]: from then on [flash()]
    is accepted again and resets the flag. *)
Definition flagAfterCleanup (n : nat) : bool :=
  flagAt n && negb (reflashed w).

(** The read of [m_isCancelled] in the handler of [runFlashing], which
    comes after [cleanup()]. *)
Definition isCancelledAfterCleanup : M bool :=
  fun s =>
    let value := flagAfterCleanup (nPolls s) in
    (Ok value,
     {| fd_open := fd_open s; m_isFlashing := m_isFlashing s;
        m_slipDecoder := m_slipDecoder s;
        nPolls := S (nPolls s); nOpens := nOpens s;
        nWrites := nWrites s; nWaits := nWaits s;
        trace := trace s ++ [APoll Handler value] |}).

(** [if (m_isCancelled) throw std::runtime_error("Cancelled");] *)
Definition throwIfCancelled (site : PollSite) : M unit :=
  cancelled <- isCancelled site ;;
  if cancelled then throw (RuntimeError "Cancelled") else ret tt.

(** *** [SerialConnection] *)

Definition requireConnected : M unit :=
  fun s => if fd_open s then (Ok tt, s)
           else (Throw (SerialErr SerialError.NotConnected 0), s).

Definition connOpen : M unit :=
  fun s =>
    let s' (ok : bool) :=
      {| fd_open := ok; m_isFlashing := m_isFlashing s;
         m_slipDecoder := m_slipDecoder s;
         nPolls := nPolls s; nOpens := S (nOpens s);
         nWrites := nWrites s; nWaits := nWaits s;
         trace := trace s ++ [AOpen ok] |} in
    match openResult w (nOpens s) with
    | None => (Ok tt, s' true)
    | Some errno => (Throw (SerialErr SerialError.CannotOpen errno),
                     s' false)
    end.

Definition connClose : M unit :=
  fun s => if fd_open s then (setFd false ;; log AClose) s
           else (Ok tt, s).

(** [SerialConnection::write]: the loop [while (totalWritten < count)]
    around [::write].  It is not entered for an empty buffer. *)
Definition connWrite (data : QByteArray) : M unit :=
  requireConnected ;;
  fun s =>
    let s' (ok : bool) :=
      {| fd_open := fd_open s; m_isFlashing := m_isFlashing s;
         m_slipDecoder := m_slipDecoder s;
         nPolls := nPolls s; nOpens := nOpens s;
         nWrites := S (nWrites s); nWaits := nWaits s;
         trace := trace s ++ [AWrite data ok] |} in
    match data with
    | [] => (Ok tt, s' true)
    | _ :: _ =>
        match writeResult w (nWrites s) with
        | None => (Ok tt, s' true)
        | Some errno =>
            if retried errno then (Hang, s' false)
            else (Throw (SerialErr SerialError.WriteFailed errno), s' false)
        end
    end.

Definition connRead (outcome : ReadOutcome) : M QByteArray :=
  requireConnected ;;
  match outcome with
  | ReadData bytes => ret bytes
  | ReadErrno errno => throw (SerialErr SerialError.ReadFailed errno)
  end.

Definition connFlush : M unit :=
  fun s => if fd_open s then log AFlush s else (Ok tt, s).

Definition setBaudRate (rate : BaudRate) : M unit :=
  requireConnected ;;
  if setBaudOk w then log (ASetBaudRate rate)
  else throw (SerialErr SerialError.InvalidConfiguration 0).

Definition setDTR (value : bool) : M unit :=
  requireConnected ;; log (ASetDTR value).

Definition setRTS (value : bool) : M unit :=
  requireConnected ;; log (ASetRTS value).

Definition setDTRRTS (dtr rts : bool) : M unit :=
  requireConnected ;; log (ASetDTR dtr) ;; log (ASetRTS rts).

Definition usbJtagSerialReset : M unit :=
  setRTS false ;; setDTR false ;; sleepMs 100 ;;
  setDTR true ;; setRTS false ;; sleepMs 100 ;;
  setRTS true ;; setDTR false ;; setRTS true ;; sleepMs 100 ;;
  setDTR false ;; setRTS false ;;
  sleepMs 50.

Definition classicReset : M unit :=
  setDTRRTS false true ;; sleepMs 100 ;;
  setDTRRTS true false ;; sleepMs 50 ;;
  setDTR false ;; sleepMs 50.

Definition enterBootloaderMode (isUSBJTAGSerial : bool) : M unit :=
  (if isUSBJTAGSerial then usbJtagSerialReset else classicReset) ;;
  connFlush.

Definition hardReset : M unit :=
  setDTR false ;; sleepMs 50 ;;
  setRTS true ;; sleepMs 100 ;;
  setRTS false ;; sleepMs 100.

(** *** [FlashingService] *)

(** The range-[for] of [waitForResponse] over the decoded packets: the
    first one that parses and carries the awaited opcode. *)
Fixpoint findResponse (command : ESP32Command) (packets : list QByteArray)
  : option ESP32Response.t :=
  match packets with
  | [] => None
  | packet :: rest =>
      match ESP32Response.parse packet with
      | Some response =>
          if ESP32Response.command response =? commandCode command
          then Some response
          else findResponse command rest
      | None => findResponse command rest
      end
  end.

(** [m_slipDecoder.process(data)] on the member decoder. *)
Definition decoderProcess (data : QByteArray) : M (list QByteArray) :=
  fun s =>
    let '(packets, d) := SLIPDecoder.process (m_slipDecoder s) data in
    (bind (setDecoder d) (fun _ => ret packets)) s.

(** The [while (now < deadline)] loop of [waitForResponse]: one
    iteration per read that fits before the deadline; when they are used
    up the deadline has passed. *)
Fixpoint waitLoop (command : ESP32Command) (outcomes : list ReadOutcome)
  : M ESP32Response.t :=
  match outcomes with
  | [] =>
      throw (RuntimeError ("Timeout waiting for "
                           ++ decimal (commandCode command)
                           ++ " response")%string)
  | outcome :: later =>
      throwIfCancelled WaitLoop ;;
      found <- tryCatch
                 (data <- connRead outcome ;;
                  packets <- decoderProcess data ;;
                  ret (findResponse command packets))
                 (fun e =>
                    match e with
                    | SerialErr type _ =>
                        if SerialError.isTimeout type then ret None
                        else throw e
                    | _ => throw e
                    end) ;;
      match found with
      | Some response => ret response
      | None => waitLoop command later
      end
  end.

(** The deadline of this call, as the reads the world lets it make. *)
Definition nextWait (timeoutMs : Z) : M (list ReadOutcome) :=
  fun s =>
    (Ok (reads w (nWaits s) timeoutMs),
     {| fd_open := fd_open s; m_isFlashing := m_isFlashing s;
        m_slipDecoder := m_slipDecoder s;
        nPolls := nPolls s; nOpens := nOpens s;
        nWrites := nWrites s; nWaits := S (nWaits s);
        trace := trace s |}).

Definition waitForResponse (command : ESP32Command) (timeoutMs : Z)
  : M ESP32Response.t :=
  outcomes <- nextWait timeoutMs ;;
  setDecoder SLIPDecoder.reset ;;
  waitLoop command outcomes.

(** The drain loop of [performSync]. *)
Fixpoint drainLoop (remaining : nat) : M unit :=
  match remaining with
  | O => ret tt
  | S remaining' =>
      tryCatch (waitForResponse Sync 100 ;; ret tt) (fun _ => ret tt) ;;
      drainLoop remaining'
  end.

Definition performSync : M unit :=
  let syncCommand := buildSyncCommand in
  let slipEncoded := encode syncCommand in
  connWrite slipEncoded ;;
  response <- waitForResponse Sync 1000 ;;
  if negb (ESP32Response.isSuccess response)
  then throw (RuntimeError "Sync failed")
  else drainLoop 7 ;; connFlush.

(** The [for] loop of [syncWithRetry]; [true] from the [try] block is
    its [return]. *)
Fixpoint syncLoop (remaining : nat) (attempt : Z) : M unit :=
  match remaining with
  | O => ret tt
  | S remaining' =>
      done <- tryCatch
                (performSync ;; ret true)
                (fun _ =>
                   if attempt =? SYNC_RETRIES
                   then throw (RuntimeError
                                 "Failed to sync with bootloader")
                   else sleepMs SYNC_RETRY_DELAY_MS ;; ret false) ;;
      if done then ret tt else syncLoop remaining' (attempt + 1)
  end.

Definition syncWithRetry : M unit :=
  syncLoop (Z.to_nat SYNC_RETRIES) 1.

Definition changeBaudRate (rate : BaudRate) : M unit :=
  let command :=
    buildChangeBaudCommand (wrap32 (baudRateValue rate)) 115200 in
  let encoded := encode command in
  connWrite encoded ;;
  sleepMs 50 ;;
  setBaudRate rate ;;
  sleepMs 50 ;;
  performSync.

Definition spiAttach : M unit :=
  let command := buildSpiAttachCommand 0 in
  let encoded := encode command in
  connWrite encoded ;;
  response <- waitForResponse SpiAttach 3000 ;;
  if negb (ESP32Response.isSuccess response)
  then throw (RuntimeError
                ("SPI attach failed: status="
                 ++ decimal (ESP32Response.status response)
                 ++ ", error="
                 ++ decimal (ESP32Response.error response))%string)
  else ret tt.

Definition readReg (address : Z) : M Z :=
  let command := buildReadRegCommand address in
  let encoded := encode command in
  connWrite encoded ;;
  response <- waitForResponse ReadReg 1000 ;;
  if negb (ESP32Response.isSuccess response)
  then throw (RuntimeError ("READ_REG failed at 0x" ++ hex8 address)%string)
  else ret (ESP32Response.value response).

Definition writeReg (address value : Z) : M unit :=
  let command := buildWriteRegCommand address value 0xFFFFFFFF 0 in
  let encoded := encode command in
  connWrite encoded ;;
  response <- waitForResponse WriteReg 1000 ;;
  if negb (ESP32Response.isSuccess response)
  then throw (RuntimeError
                ("WRITE_REG failed at 0x" ++ hex8 address)%string)
  else ret tt.

Definition disableWatchdogs : M unit :=
  writeReg ESP32C3Registers.RTC_WDT_WPROTECT ESP32C3Registers.RTC_WDT_WKEY ;;
  wdtConfig <- readReg ESP32C3Registers.RTC_WDT_CONFIG0 ;;
  let newWdtConfig :=
    Z.land wdtConfig (wrap32 (Z.lnot ESP32C3Registers.WDT_EN_BIT)) in
  writeReg ESP32C3Registers.RTC_WDT_CONFIG0 newWdtConfig ;;
  writeReg ESP32C3Registers.RTC_WDT_WPROTECT 0 ;;
  writeReg ESP32C3Registers.SWD_WPROTECT ESP32C3Registers.SWD_WKEY ;;
  swdConfig <- readReg ESP32C3Registers.SWD_CONF ;;
  let newSwdConfig :=
    Z.lor swdConfig ESP32C3Registers.SWD_AUTO_FEED_EN_BIT in
  writeReg ESP32C3Registers.SWD_CONF newSwdConfig ;;
  writeReg ESP32C3Registers.SWD_WPROTECT 0.

Definition flashBegin (size_ numBlocks blockSize offset : Z) : M unit :=
  let command :=
    buildFlashBeginCommand size_ numBlocks blockSize offset false in
  let encoded := encode command in
  connWrite encoded ;;
  response <- waitForResponse FlashBegin 30000 ;;
  if negb (ESP32Response.isSuccess response)
  then throw (RuntimeError
                ("Flash begin failed: status="
                 ++ decimal (ESP32Response.status response))%string)
  else ret tt.

(** [QString("Flash data failed at block %1: status=%2")
      .arg(sequenceNumber).arg(response.status)] *)
Definition flashDataFailedMessage (sequenceNumber status : Z) : string :=
  ("Flash data failed at block " ++ decimal sequenceNumber
   ++ ": status=" ++ decimal status)%string.

Definition flashData (block : QByteArray) (sequenceNumber : Z) : M unit :=
  let command := buildFlashDataCommand block (wrap32 sequenceNumber) in
  let encoded := encode command in
  connWrite encoded ;;
  response <- waitForResponse FlashData RESPONSE_TIMEOUT ;;
  if negb (ESP32Response.isSuccess response)
  then throw (RuntimeError
                (flashDataFailedMessage sequenceNumber
                                        (ESP32Response.status response)))
  else ret tt.

Definition flashEnd (reboot isUSBJTAGSerial : bool) : M unit :=
  let command := buildFlashEndCommand reboot in
  let encoded := encode command in
  connWrite encoded ;;
  tryCatch
    (response <- waitForResponse FlashEnd 2000 ;;
     if negb (ESP32Response.isSuccess response) && negb reboot
     then throw (RuntimeError "Flash end failed")
     else ret tt)
    (fun e => if negb reboot then throw e else ret tt) ;;
  if reboot && isUSBJTAGSerial then hardReset else ret tt.

(** The [cleanup] lambda of [runFlashing]. *)
Definition cleanup : M unit :=
  connClose ;; setIsFlashing false.

(** The reopen loop after a failed first sync; the result is [opened]. *)
Fixpoint reopenLoop (remaining : nat) (attempt : Z) : M bool :=
  match remaining with
  | O => ret false
  | S remaining' =>
      opened <- tryCatch
                  (connOpen ;; ret true)
                  (fun _ =>
                     (if attempt <? 5 then sleepMs 500 else ret tt) ;;
                     ret false) ;;
      if opened then ret true
      else reopenLoop remaining' (attempt + 1)
  end.

(** Steps 1 and 2 of [runFlashing] and both sync attempts.  In the
    sources [syncSucceeded] is set between [syncWithRetry] and
    [disableWatchdogs] inside one [try] block, so an exception of
    [disableWatchdogs] is swallowed with the flag already set; the two
    nested [tryCatch] below say the same. *)
Definition connectAndSync (port : SerialPort.t) : M unit :=
  emit FlashingState.connecting ;;
  connOpen ;;
  let isUSBJTAGSerial := SerialPort.isESP32C3 port in
  enterBootloaderMode isUSBJTAGSerial ;;
  sleepMs 500 ;;
  connFlush ;;
  syncSucceeded <-
    tryCatch
      (emit FlashingState.syncing ;;
       syncWithRetry ;;
       tryCatch
         (if isUSBJTAGSerial then disableWatchdogs else ret tt)
         (fun _ => ret tt) ;;
       ret true)
      (fun _ => ret false) ;;
  if syncSucceeded then ret tt
  else
    connClose ;;
    sleepMs 2000 ;;
    opened <- reopenLoop 5 1 ;;
    if negb opened
    then throw (RuntimeError "Could not reopen port after reset")
    else
      connFlush ;;
      emit FlashingState.syncing ;;
      syncWithRetry ;;
      if isUSBJTAGSerial then disableWatchdogs else ret tt.

(** The data of block [blockNum], padded with 0xFF to the block size. *)
Definition blockDataOf (image : FirmwareImage.t) (blockNum : Z)
  : QByteArray :=
  let blockSize := FLASH_BLOCK_SIZE in
  let start := wrapInt (blockNum * blockSize) in
  let end_ := Z.min (wrapInt (start + blockSize))
                    (FirmwareImage.size image) in
  let blockData :=
    mid (FirmwareImage.data image) (Z.to_nat start)
        (Z.to_nat (end_ - start)) in
  if size blockData <? blockSize
  then blockData ++ repeat 0xFF (Z.to_nat (blockSize - size blockData))
  else blockData.

(** [overallProgress] of block [blockNum]. *)
Definition overallProgressOf (image : FirmwareImage.t)
           (numBlocks bytesFlashed totalBytes blockNum : Z) : Q :=
  let imageProgress :=
    (inject_Z (wrapInt (blockNum + 1)) / inject_Z numBlocks)%Q in
  ((inject_Z bytesFlashed
    + imageProgress * inject_Z (FirmwareImage.size image))
   / inject_Z totalBytes)%Q.

(** The inner [for] loop over the blocks; [remaining] counts the
    iterations left, [numBlocks - blockNum]. *)
Fixpoint blockLoop (image : FirmwareImage.t)
         (numBlocks bytesFlashed totalBytes : Z)
         (remaining : nat) (blockNum : Z) : M unit :=
  match remaining with
  | O => ret tt
  | S remaining' =>
      throwIfCancelled BlockLoop ;;
      let blockData := blockDataOf image blockNum in
      let overallProgress :=
        overallProgressOf image numBlocks bytesFlashed totalBytes
                          blockNum in
      emit (FlashingState.flashing overallProgress) ;;
      flashData blockData blockNum ;;
      sleepMs BLOCK_DELAY_MS ;;
      blockLoop image numBlocks bytesFlashed totalBytes
                remaining' (wrapInt (blockNum + 1))
  end.

Definition numBlocksOf (image : FirmwareImage.t) : Z :=
  let blockSize := FLASH_BLOCK_SIZE in
  Z.quot (wrapInt (wrapInt (FirmwareImage.size image + blockSize) - 1))
         blockSize.

(** The body of the outer [for] loop, for one image. *)
Definition flashImage (image : FirmwareImage.t)
           (bytesFlashed totalBytes : Z) : M unit :=
  throwIfCancelled ImageLoop ;;
  let blockSize := FLASH_BLOCK_SIZE in
  let numBlocks := numBlocksOf image in
  emit FlashingState.erasing ;;
  flashBegin (wrap32 (FirmwareImage.size image)) (wrap32 numBlocks)
             (wrap32 blockSize) (FirmwareImage.offset image) ;;
  blockLoop image numBlocks bytesFlashed totalBytes
            (Z.to_nat numBlocks) 0.

(** The outer [for] loop over the images, with [bytesFlashed]. *)
Fixpoint imagesLoop (images : list FirmwareImage.t)
         (bytesFlashed totalBytes : Z) : M unit :=
  match images with
  | [] => ret tt
  | image :: rest =>
      flashImage image bytesFlashed totalBytes ;;
      imagesLoop rest (wrapInt (bytesFlashed + FirmwareImage.size image))
                 totalBytes
  end.

(** Step 6 of [runFlashing]. *)
Definition flashImages (firmware : FirmwareFile.t) : M unit :=
  let totalBytes := FirmwareFile.totalSize firmware in
  imagesLoop (FirmwareFile.images firmware) 0 totalBytes.

(** The [try] block of [runFlashing] up to and including the emission
    of [Restarting]. *)
Definition beforeFlashEnd (firmware : FirmwareFile.t)
           (port : SerialPort.t) (baudRate : BaudRate) : M unit :=
  connectAndSync port ;;
  (if negb (isBaud115200 baudRate)
   then emit FlashingState.changingBaudRate ;; changeBaudRate baudRate
   else ret tt) ;;
  spiAttach ;;
  flashImages firmware ;;
  emit FlashingState.verifying ;;
  sleepMs 100 ;;
  emit FlashingState.restarting.

(** The rest of the [try] block. *)
Definition fromFlashEnd (port : SerialPort.t) : M unit :=
  flashEnd true (SerialPort.isESP32C3 port) ;;
  sleepMs 1000 ;;
  emit FlashingState.complete ;;
  cleanup ;;
  emitFinished true.

(** The [catch (const std::exception& e)] of [runFlashing]. *)
Definition handler (e : Exn) : M unit :=
  cleanup ;;
  let errorMsg := what e in
  cancelled <- isCancelledAfterCleanup ;;
  (if cancelled || QString.contains errorMsg "Cancelled" then
     emit (FlashingState.error FlashingState.Cancelled EmptyString 0)
   else if QString.contains errorMsg "sync" then
     emit (FlashingState.error FlashingState.SyncFailed errorMsg
                               SYNC_RETRIES)
   else if QString.contains errorMsg "Cannot open"
           || QString.contains errorMsg "reopen" then
     emit (FlashingState.error FlashingState.ConnectionFailed errorMsg 0)
   else
     emit (FlashingState.error FlashingState.ConnectionFailed errorMsg 0)) ;;
  emitFinished false.

Definition runFlashingM (firmware : FirmwareFile.t) (port : SerialPort.t)
           (baudRate : BaudRate) : M unit :=
  tryCatch
    (beforeFlashEnd firmware port baudRate ;; fromFlashEnd port)
    handler.

(** [runFlashing]: the state the worker leaves behind. *)
Definition runFlashing (firmware : FirmwareFile.t) (port : SerialPort.t)
           (baudRate : BaudRate) : St :=
  snd (runFlashingM firmware port baudRate initial).

End Worker.

End FlashingService.

(** ** Vocabulary for statements about a run *)

Module TraceSpec.
Import FlashingService.

(** The opcode of the command packet carried by a written frame. *)
Definition opcodeOfFrame (bytes : QByteArray) : Z :=
  at_ (SLIPCodec.decode bytes) 1.

(** An attempt to write a [FLASH_END] frame, completed or not. *)
Definition isFlashEndWrite (a : Action) : bool :=
  match a with
  | AWrite bytes _ => opcodeOfFrame bytes =? commandCode FlashEnd
  | _ => false
  end.

Definition notFlashEnd (a : Action) : Prop := isFlashEndWrite a = false.

Definition NoFlashEnd (t : list Action) : Prop := Forall notFlashEnd t.

(** The frames written in full, oldest first. *)
Definition writesOf (t : list Action) : list QByteArray :=
  flat_map (fun a => match a with AWrite bytes true => [bytes] | _ => [] end)
           t.

Definition progressOfAction (a : Action) : list Q :=
  match a with
  | AEmit st =>
      match FlashingState.type st with
      | FlashingState.Flashing => [FlashingState.progress st]
      | _ => []
      end
  | _ => []
  end.

(** The progress values of the [Flashing] events, oldest first. *)
Definition progressValues (t : list Action) : list Q :=
  flat_map progressOfAction t.

(** The states emitted, oldest first, and the last of them. *)
Definition emitsOf (t : list Action) : list FlashingState.t :=
  flat_map (fun a => match a with AEmit st => [st] | _ => [] end) t.

Definition lastEmit (t : list Action) : option FlashingState.t :=
  last (map Some (emitsOf t)) None.

Definition isPollTrue (a : Action) : bool :=
  match a with APoll _ true => true | _ => false end.

(** Some read of [m_isCancelled] made so far has returned [true]. *)
Definition observed (w : World) (s : St) : Prop :=
  exists c, cancelAt w = Some c /\ (c < nPolls s)%nat.

(** Actions that are neither a write nor a [Flashing] event nor a read of
    the flag. *)
Definition quiet (a : Action) : bool :=
  match a with
  | AWrite _ _ => false
  | APoll _ _ => false
  | AEmit st =>
      match FlashingState.type st with
      | FlashingState.Flashing => false
      | _ => true
      end
  | _ => true
  end.

(** [s'] is reached from [s] by appending actions that satisfy [Q], and
    every read of the flag that returned [true] on the way is accounted
    for in [s']. *)
Definition step (w : World) (Q : Action -> Prop) (s s' : St) : Prop :=
  (nPolls s <= nPolls s')%nat /\
  exists t, trace s' = trace s ++ t /\
            Forall Q t /\
            (Exists (fun a => isPollTrue a = true) t -> observed w s').

Definition sound (w : World) (Q : Action -> Prop) {A} (m : M A) : Prop :=
  forall s r s', m s = (r, s') -> step w Q s s'.

(** A normal return of [m] does not hide an observation of the flag. *)
Definition keeps (w : World) {A} (m : M A) : Prop :=
  forall s a s', m s = (Ok a, s') -> ~ observed w s -> ~ observed w s'.



Definition notWrite (a : Action) : Prop :=
  match a with AWrite _ _ => False | _ => True end.

(** When [m] returns normally it has written exactly the frames [l], in
    full and in this order. *)
Definition writesExactly {A} (l : list QByteArray) (m : M A) : Prop :=
  forall s a s', m s = (Ok a, s') ->
    writesOf (trace s') = writesOf (trace s) ++ l.

(** The frame that carries block [n] of [image]. *)
Definition dataFrame (image : FirmwareImage.t) (n : nat) : QByteArray :=
  SLIPCodec.encode
    (ESP32Protocol.buildFlashDataCommand (blockDataOf image (Z.of_nat n))
                                         (Z.of_nat n)).

(** The progress formula of the specification, on mathematical integers:
    [(bytesFlashed + ((blockNum + 1) / numBlocks) * size) / totalSize]. *)
Definition progressAt (bf sz nb tot k : Z) : Q :=
  ((inject_Z bf + (inject_Z (k + 1) / inject_Z nb) * inject_Z sz)
   / inject_Z tot)%Q.

(** The progress values of the blocks of one image, in order. *)
Definition imageProgress (image : FirmwareImage.t) (bf tot : Z) : list Q :=
  map (fun k => overallProgressOf image (numBlocksOf image) bf tot
                                  (Z.of_nat k))
      (seq 0 (Z.to_nat (numBlocksOf image))).

(** The progress values of a whole bundle, in order. *)
Fixpoint expectedProgress (images : list FirmwareImage.t) (bf tot : Z)
  : list Q :=
  match images with
  | [] => []
  | image :: rest =>
      imageProgress image bf tot
      ++ expectedProgress rest (wrapInt (bf + FirmwareImage.size image)) tot
  end.

(** The sum of the sizes of the images, without wrap-around. *)
Fixpoint sumSizes (images : list FirmwareImage.t) : Z :=
  match images with
  | [] => 0
  | image :: rest => FirmwareImage.size image + sumSizes rest
  end.

Definition notFlashing (a : Action) : Prop := progressOfAction a = [].

(** [m] emits, as [Flashing] events, a prefix of [l], and the whole of
    [l] when it returns normally. *)
Definition emitsProgress {A} (l : list Q) (m : M A) : Prop :=
  forall s r s', m s = (r, s') ->
    exists l', progressValues (trace s') = progressValues (trace s) ++ l' /\
               (exists rest, l = l' ++ rest) /\
               (forall a, r = Ok a -> l' = l).

(** [m] does not read the flag. *)
Definition still {A} (m : M A) : Prop :=
  forall s r s', m s = (r, s') -> nPolls s' = nPolls s.


(** Every [write] goes through in the end: none meets a port that
    answers [EAGAIN] or [EWOULDBLOCK] for ever. *)
Definition drains (w : World) : Prop :=
  forall k errno, writeResult w k = Some errno -> retried errno = false.

(** [t] ends with a [write] that the port never accepts. *)
Definition endsStalled (w : World) (t : list Action) : Prop :=
  exists t0 bytes k errno,
    t = t0 ++ [AWrite bytes false] /\
    writeResult w k = Some errno /\ retried errno = true.

(** The worker sits in a [write] that does not return: the port is open
    and that write is the last thing it did. *)
Definition stalled (w : World) (s : St) : Prop :=
  fd_open s = true /\ endsStalled w (trace s).

(** An action other than the report of [Complete]. *)
Definition notComplete (a : Action) : Prop :=
  match a with
  | AEmit st => FlashingState.type st <> FlashingState.Complete
  | _ => True
  end.

(** [m] belongs to a run that is under way: it leaves [m_isFlashing]
    alone, does not report [Complete] and, when it does not return, is
    stuck in a [write]. *)
Definition steady (w : World) {A} (m : M A) : Prop :=
  forall s r s', m s = (r, s') ->
    m_isFlashing s' = m_isFlashing s /\
    exists t, trace s' = trace s ++ t /\ Forall notComplete t /\
              (r = Hang -> fd_open s' = true /\ endsStalled w t).

End TraceSpec.

(** ** Concrete devices and runs *)

Module Scenarios.
Import FlashingService.

(** The frame of a loader response to [command] with the given status and
    error bytes. *)
Definition response (command : ESP32Command) (status error : Z)
  : QByteArray :=
  SLIPCodec.encode
    [0x01; commandCode command; 0x02; 0x00; 0; 0; 0; 0; status; error].

Definition answers (command : ESP32Command) (status : Z)
  : list ReadOutcome :=
  [ReadData (response command status 0)].

(** A world whose port always opens and accepts every write, and whose
    k-th [waitForResponse] sees the reads [script[k]]. *)
Definition scripted (cancel : option nat)
           (script : list (list ReadOutcome)) : World :=
  {| cancelAt := cancel;
     openResult := fun _ => None;
     writeResult := fun _ => None;
     setBaudOk := true;
     reads := fun k _ => nth k script [];
     strerror := fun _ => "I/O error"%string;
     reflashed := false |}.

(** A USB-UART bridge (classic reset, no watchdog stage). *)
Definition classicPort : SerialPort.t :=
  SerialPort.mk "/dev/ttyUSB0" 0x10C4 0xEA60.

(** One sync answer, seven silent drains, then SPI attach. *)
Definition preamble : list (list ReadOutcome) :=
  [answers Sync 0] ++ repeat [] 7 ++ [answers SpiAttach 0].

(** A 3-byte image: one block. *)
Definition smallFirmware : FirmwareFile.t :=
  FirmwareFile.mk [FirmwareImage.mk "firmware.bin" [0xE9; 0x01; 0x02] 0x10000].

(** Everything succeeds; the loader reboots without answering
    [FLASH_END], so that wait polls once on an empty read. *)
Definition smallScript : list (list ReadOutcome) :=
  preamble ++ [answers FlashBegin 0; answers FlashData 0; [ReadData []]].



(** A 4096-byte image: four blocks. *)
Definition fourBlockFirmware : FirmwareFile.t :=
  FirmwareFile.mk
    [FirmwareImage.mk "firmware.bin" (0xE9 :: repeat 0x00 4095) 0x10000].

(** The loader accepts blocks 0, 1, 2 and answers status 1 to block 3. *)
Definition block3Fails : World :=
  scripted None
    (preamble ++ [answers FlashBegin 0; answers FlashData 0;
                  answers FlashData 0; answers FlashData 0;
                  answers FlashData 1]).

(** A 1500-byte image: two blocks, the second padded. *)
Definition twoBlockImage : FirmwareImage.t :=
  FirmwareImage.mk "firmware.bin" (0xE9 :: repeat 0x5A 1499) 0x10000.

(** The loader accepts [FLASH_BEGIN] and two blocks. *)
Definition twoBlocksAccepted : World :=
  scripted None
    [answers FlashBegin 0; answers FlashData 0; answers FlashData 0].

(** A bundle of two images: 1500 bytes at 0x0000 (two blocks) and 3 bytes
    at 0x10000 (one block); the loader accepts everything and reboots
    without answering [FLASH_END]. *)
Definition bundle : FirmwareFile.t :=
  FirmwareFile.mk
    [FirmwareImage.mk "bootloader.bin" (0xE9 :: repeat 0x5A 1499) 0x0000;
     FirmwareImage.mk "firmware.bin" [0xE9; 0x01; 0x02] 0x10000].

Definition bundleAccepted : World :=
  scripted None
    (preamble ++ [answers FlashBegin 0; answers FlashData 0;
                  answers FlashData 0; answers FlashBegin 0;
                  answers FlashData 0; [ReadData []]]).

(** A world like [scripted], but whose port takes [k] writes and then
    answers [EAGAIN] to every attempt. *)
Definition clogged (k : nat) (cancel : option nat)
           (script : list (list ReadOutcome)) : World :=
  {| cancelAt := cancel;
     openResult := fun _ => None;
     writeResult := fun n => if (n <? k)%nat then None else Some EAGAIN;
     setBaudOk := true;
     reads := fun n _ => nth n script [];
     strerror := fun _ => "I/O error"%string;
     reflashed := false |}.

(** The port takes the sync, [SPI_ATTACH] and [FLASH_BEGIN] frames and
    clogs on the first block. *)
Definition cloggedOnFirstBlock : World := clogged 3 None smallScript.

(** [cancel()] lands while the first sync answer is awaited; the port
    took the first sync frame and clogs on the second. *)
Definition cloggedAfterCancel : World :=
  clogged 1 (Some 0%nat) [[ReadData []]].

(** [cancel()] lands while the first sync answer is awaited, and every
    wait makes one read, without data; [flash()] is called again once
    [cleanup()] has run. *)
Definition restartedAfterCancel : World :=
  {| cancelAt := Some 0%nat;
     openResult := fun _ => None;
     writeResult := fun _ => None;
     setBaudOk := true;
     reads := fun _ _ => [ReadData []];
     strerror := fun _ => "I/O error"%string;
     reflashed := true |}.

(** A state with an open port, as the image loop finds it. *)
Definition connected : St :=
  {| fd_open := true; m_isFlashing := true;
     m_slipDecoder := SLIPDecoder.reset;
     nPolls := 0; nOpens := 1; nWrites := 0; nWaits := 0; trace := [] |}.

End Scenarios.

(** ** Vocabulary for statements about the two decoders *)

Module FramingSpec.
Import SLIPCodec.

(** Whether the scan of [p], up to the end of its first non-empty frame,
    meets a [FRAME_ESCAPE] while an escape is pending inside a started
    frame.  [filled] tells whether the frame under way has content. *)
Fixpoint doubledEscape (p : QByteArray) (inEscape started filled : bool)
  : bool :=
  match p with
  | [] => false
  | byte :: rest =>
      if byte =? FRAME_END then
        if started && filled then false
        else doubledEscape rest inEscape true false
      else if negb started then doubledEscape rest inEscape started filled
      else if byte =? FRAME_ESCAPE then
        inEscape || doubledEscape rest true started filled
      else doubledEscape rest false started true
  end.

End FramingSpec.

(** ** Vocabulary for statements about packets *)

Module PacketSpec.
Import ESP32Protocol.

(** A command packet as the loader expects it: bytes only, the request
    direction, the opcode of [command], and a size field that is the
    number of bytes that follow the 8-byte header. *)
Definition wellFormedRequest (command : ESP32Command) (packet : QByteArray)
  : Prop :=
  Forall isByte packet /\
  at_ packet 0 = 0x00 /\
  at_ packet 1 = commandCode command /\
  readLE16 packet 2 = size packet - 8.

End PacketSpec.

(** ** models/FirmwareFile.{h,cpp}: loading and describing a package *)

Module FirmwarePackage.
Local Open Scope string_scope.
Local Open Scope Z_scope.

(** [QString::lastIndexOf(c)]: the index of the last [c], -1 when there
    is none.  [i] is the index of the first character of [s], [found] the
    last match seen so far. *)
Fixpoint lastIndexOfFrom (c : ascii) (s : string) (i found : Z) : Z :=
  match s with
  | EmptyString => found
  | String b rest =>
      lastIndexOfFrom c rest (i + 1) (if Ascii.eqb b c then i else found)
  end.

Definition lastIndexOf (c : ascii) (s : string) : Z :=
  lastIndexOfFrom c s 0 (-1).

(** [QString::mid(pos)]: what follows the first [pos] characters. *)
Fixpoint midFrom (s : string) (pos : nat) : string :=
  match pos, s with
  | O, _ => s
  | S pos', EmptyString => EmptyString
  | S pos', String _ rest => midFrom rest pos'
  end.

(** [FirmwareImage::fileName] *)
Definition imageFileName (image : FirmwareImage.t) : string :=
  let filePath := FirmwareImage.filePath image in
  let lastSlash := lastIndexOf "/" filePath in
  if lastSlash >=? 0 then midFrom filePath (Z.to_nat (lastSlash + 1))
  else filePath.

(** [std::sort] with the comparator [a.offset < b.offset].  The library
    leaves the order of images with equal offsets open; the insertion
    sort below keeps them in their order of arrival: an image goes
    before the first image whose offset is not smaller than its own, and
    the images are inserted from the last to the first.  The lists that
    [fromPlatformIOBuild] sorts have distinct offsets. *)
Fixpoint insertByOffset (image : FirmwareImage.t)
         (sorted : list FirmwareImage.t) : list FirmwareImage.t :=
  match sorted with
  | [] => [image]
  | x :: rest =>
      if FirmwareImage.offset image <=? FirmwareImage.offset x
      then image :: x :: rest
      else x :: insertByOffset image rest
  end.

Definition sortByOffset (images : list FirmwareImage.t)
  : list FirmwareImage.t :=
  fold_right insertByOffset [] images.

(** [FirmwareFile::FirmwareFile(const std::vector<FirmwareImage>&)] *)
Definition fromImages (images : list FirmwareImage.t) : FirmwareFile.t :=
  FirmwareFile.mk (sortByOffset images).

(** What the loader asks of the file system: [QFileInfo(path).isDir()],
    [QDir(dir).filePath(name)], and the content of a file that exists and
    opens for reading ([None] otherwise). *)
Record FileSystem := mkFileSystem
  { isDir : string -> bool;
    filePathIn : string -> string -> string;
    readAll : string -> option QByteArray }.

(** [FirmwareLoadError::Type] *)
Inductive FirmwareLoadErrorType :=
| NoFilesFound | MissingFirmware | InvalidFile.

(** A loaded package, or the [FirmwareLoadError] thrown instead. *)
Inductive Loaded :=
| Package (firmware : FirmwareFile.t)
| FirmwareLoadError (type : FirmwareLoadErrorType) (message : string).

(** The table [fileOffsets] of [fromPlatformIOBuild]. *)
Definition fileOffsets : list (string * Z) :=
  [("bootloader.bin", 0x0000); ("partitions.bin", 0x8000);
   ("firmware.bin", 0x10000)].

(** The [for] loop of [fromPlatformIOBuild] over [fileOffsets]. *)
Fixpoint collectImages (fs : FileSystem) (dirPath : string)
         (table : list (string * Z)) (images : list FirmwareImage.t)
  : list FirmwareImage.t :=
  match table with
  | [] => images
  | (name, offset) :: rest =>
      let filePath := filePathIn fs dirPath name in
      match readAll fs filePath with
      | Some data =>
          collectImages fs dirPath rest
                        (images ++ [FirmwareImage.mk filePath data offset])
      | None => collectImages fs dirPath rest images
      end
  end.

Definition fromPlatformIOBuild (fs : FileSystem) (dirPath : string)
  : Loaded :=
  let images := collectImages fs dirPath fileOffsets [] in
  if isEmpty images then
    FirmwareLoadError NoFilesFound "No firmware files found in directory"
  else
    let hasFirmware :=
      existsb (fun img => FirmwareImage.offset img =? 0x10000) images in
    if negb hasFirmware then
      FirmwareLoadError MissingFirmware "Missing firmware.bin"
    else Package (fromImages images).

Definition loadFromFile (fs : FileSystem) (filePath : string) : Loaded :=
  if isDir fs filePath then fromPlatformIOBuild fs filePath
  else
    match readAll fs filePath with
    | None => FirmwareLoadError InvalidFile ("Cannot open file: " ++ filePath)
    | Some data => Package (FirmwareFile.fromFile filePath data)
    end.

(** The [for] loop of [FirmwareFile::data]. *)
Fixpoint appData (images : list FirmwareImage.t) : option QByteArray :=
  match images with
  | [] => None
  | image :: rest =>
      if FirmwareImage.offset image =? 0x10000
      then Some (FirmwareImage.data image)
      else appData rest
  end.

Definition data (fw : FirmwareFile.t) : QByteArray :=
  match appData (FirmwareFile.m_images fw) with
  | Some d => d
  | None =>
      match FirmwareFile.m_images fw with
      | [] => []
      | image :: _ => FirmwareImage.data image
      end
  end.

Definition fileName (fw : FirmwareFile.t) : string :=
  if 1 <? Z.of_nat (length (FirmwareFile.m_images fw)) then
    decimal (Z.of_nat (length (FirmwareFile.m_images fw))) ++ " files"
  else
    match FirmwareFile.m_images fw with
    | [] => "No firmware"
    | image :: _ => imageFileName image
    end.

Definition isValid (fw : FirmwareFile.t) : bool :=
  if isEmpty (FirmwareFile.m_images fw) then false
  else forallb FirmwareImage.isValid (FirmwareFile.m_images fw).

(** The [for] loop of [isComplete] with its three flags. *)
Fixpoint isCompleteLoop (images : list FirmwareImage.t)
         (hasBootloader hasPartitions hasApp : bool) : bool :=
  match images with
  | [] => hasBootloader && hasPartitions && hasApp
  | image :: rest =>
      let hasBootloader :=
        if FirmwareImage.offset image =? 0x0000 then true
        else hasBootloader in
      let hasPartitions :=
        if FirmwareImage.offset image =? 0x8000 then true
        else hasPartitions in
      let hasApp :=
        if FirmwareImage.offset image =? 0x10000 then true else hasApp in
      isCompleteLoop rest hasBootloader hasPartitions hasApp
  end.

Definition isComplete (fw : FirmwareFile.t) : bool :=
  isCompleteLoop (FirmwareFile.m_images fw) false false false.

(** [bool isEmpty() const] of the package. *)
Definition isEmpty (fw : FirmwareFile.t) : bool :=
  match FirmwareFile.m_images fw with [] => true | _ :: _ => false end.

End FirmwarePackage.

(** A disk with a build directory that holds a bootloader and an
    application but no partition table, and a merged binary beside it. *)
Module Disk.
Import FirmwarePackage.
Local Open Scope string_scope.

Definition files : list (string * QByteArray) :=
  [("build/bootloader.bin", [0xE9; 0x03; 0x02; 0x2F; 0; 0; 0; 0; 0xEE]);
   ("build/firmware.bin", [0xE9; 0x05; 0x02; 0x2F; 0; 0; 0; 0]);
   ("out/board_merged.bin", [0xE9; 0x03; 0x02; 0x2F; 0; 0; 0; 0]);
   ("out/notes.txt", [0x68; 0x69])].

Fixpoint lookup (table : list (string * QByteArray)) (path : string)
  : option QByteArray :=
  match table with
  | [] => None
  | (name, content) :: rest =>
      if String.eqb name path then Some content else lookup rest path
  end.

Definition disk : FileSystem :=
  {| isDir := fun path => String.eqb path "build";
     filePathIn := fun dir name => dir ++ "/" ++ name;
     readAll := lookup files |}.

End Disk.

(** ** Vocabulary for statements about what a computation may do *)

Module RunSpec.
Import FlashingService.

(** [m] appends only actions that satisfy [Q] to the trace. *)
Definition appends (Q : Action -> Prop) {A} (m : M A) : Prop :=
  forall s r s', m s = (r, s') ->
    exists t, trace s' = trace s ++ t /\ Forall Q t.

(** [m] moreover leaves the port and the [m_isFlashing] flag as they
    are. *)
Definition acts (Q : Action -> Prop) {A} (m : M A) : Prop :=
  forall s r s', m s = (r, s') ->
    fd_open s' = fd_open s /\ m_isFlashing s' = m_isFlashing s /\
    exists t, trace s' = trace s ++ t /\ Forall Q t.

Definition isWrite (a : Action) : bool :=
  match a with AWrite _ _ => true | _ => false end.

(** The bytes that the reads of one wait deliver before the first read
    that fails. *)
Fixpoint received (outcomes : list ReadOutcome) : QByteArray :=
  match outcomes with
  | ReadData bytes :: later => bytes ++ received later
  | _ => []
  end.

(** The loader's answer to [command] in the reads of one wait: the first
    frame of the bytes received that parses as a response to it. *)
Definition answer (command : ESP32Command) (outcomes : list ReadOutcome)
  : option ESP32Response.t :=
  findResponse command
    (fst (SLIPDecoder.process SLIPDecoder.reset (received outcomes))).

Definition isSleep (a : Action) : bool :=
  match a with ASleep _ => true | _ => false end.

Definition isFinished (a : Action) : bool :=
  match a with AFinished _ => true | _ => false end.

Definition isEmit (a : Action) : bool :=
  match a with AEmit _ => true | _ => false end.

(** The levels of the DTR and RTS lines after the actions [t], from the
    levels [l]. *)
Definition lineStep (l : bool * bool) (a : Action) : bool * bool :=
  match a with
  | ASetDTR v => (v, snd l)
  | ASetRTS v => (fst l, v)
  | _ => l
  end.

Definition linesAfter (t : list Action) (l : bool * bool) : bool * bool :=
  fold_left lineStep t l.

(** The time slept during the actions [t], in milliseconds. *)
Definition sleepTotal (t : list Action) : Z :=
  fold_left (fun total a => match a with ASleep ms => total + ms | _ => total end)
            t 0.

(** The error states the handler of [runFlashing] can report. *)
Definition reportedError (st : FlashingState.t) : Prop :=
  st = FlashingState.error FlashingState.Cancelled EmptyString 0 \/
  exists message,
    st = FlashingState.error FlashingState.SyncFailed message SYNC_RETRIES \/
    st = FlashingState.error FlashingState.ConnectionFailed message 0.

(** A frame that carries a command packet with the opcode of [command]. *)
Definition carries (command : ESP32Command) (bytes : QByteArray) : Prop :=
  exists payload checksum,
    bytes = SLIPCodec.encode
              (ESP32Protocol.buildPacket command payload checksum).

(** The frames that flash one image: [FLASH_BEGIN] with the geometry of
    the image, then its blocks in order. *)
Definition imageFrames (image : FirmwareImage.t) : list QByteArray :=
  SLIPCodec.encode
    (ESP32Protocol.buildFlashBeginCommand
       (wrap32 (FirmwareImage.size image))
       (wrap32 (numBlocksOf image))
       (wrap32 ESP32Protocol.FLASH_BLOCK_SIZE)
       (FirmwareImage.offset image) false)
  :: map (TraceSpec.dataFrame image) (seq 0 (Z.to_nat (numBlocksOf image))).

(** A frame of the preparation stage: sync, watchdog registers, line
    speed. *)
Definition setupFrame (bytes : QByteArray) : Prop :=
  exists command,
    (command = Sync \/ command = ReadReg \/ command = WriteReg \/
     command = ChangeBaudRate) /\
    carries command bytes.

(** What may happen between the first and the last state of a run: no
    finished signal and no state that is not an active one. *)
Definition underWay (a : Action) : Prop :=
  match a with
  | AFinished _ => False
  | AEmit st => FlashingState.isActive st = true
  | _ => True
  end.

(** The commands a run may send to [port] at [baudRate]. *)
Definition mayBeSent (port : SerialPort.t) (baudRate : BaudRate)
           (command : ESP32Command) : bool :=
  match command with
  | ReadReg | WriteReg => SerialPort.isESP32C3 port
  | ChangeBaudRate => negb (isBaud115200 baudRate)
  | _ => true
  end.

(** Every write carries a command that may be sent, and the line speed
    is changed only to the rate asked for, when it is not 115200. *)
Definition wireDiscipline (port : SerialPort.t) (baudRate : BaudRate)
           (a : Action) : Prop :=
  match a with
  | AWrite bytes _ =>
      exists command,
        mayBeSent port baudRate command = true /\ carries command bytes
  | ASetBaudRate rate => rate = baudRate /\ isBaud115200 baudRate = false
  | _ => True
  end.

End RunSpec.

(** ** More devices *)

Module Devices.
Import FlashingService.

(** The answer to [FLASH_DATA] arrives after two bytes of noise and in two
    reads that cut the frame in the middle. *)
Definition pieces : list QByteArray :=
  [[0x00; 0x41] ++ firstn 5 (Scenarios.response FlashData 0 0);
   skipn 5 (Scenarios.response FlashData 0 0)].

Definition piecewise : World :=
  {| cancelAt := None;
     openResult := fun _ => None;
     writeResult := fun _ => None;
     setBaudOk := true;
     reads := fun _ _ => map ReadData pieces;
     strerror := fun _ => "I/O error"%string;
     reflashed := false |}.

(** The frame of a successful response that carries [value]. *)
Definition valueResponse (command : ESP32Command) (value : Z) : QByteArray :=
  SLIPCodec.encode
    (ESP32Protocol.appendLE32 [0x01; commandCode command; 0x02; 0x00] value
     ++ [0; 0]).

(** A loader that accepts every register write and reports the
    watchdog configurations 0x80000123 and 0x00000044. *)
Definition watchdogs : World :=
  Scenarios.scripted None
    [Scenarios.answers WriteReg 0;
     [ReadData (valueResponse ReadReg 0x80000123)];
     Scenarios.answers WriteReg 0; Scenarios.answers WriteReg 0;
     Scenarios.answers WriteReg 0;
     [ReadData (valueResponse ReadReg 0x00000044)];
     Scenarios.answers WriteReg 0; Scenarios.answers WriteReg 0].

End Devices.

(** ** Vocabulary for statements about the use of the port *)

Module PortSpec.
Import FlashingService.

(** The actions that need an open port. *)
Definition usesPort (a : Action) : bool :=
  match a with
  | AWrite _ _ | AFlush | ASetDTR _ | ASetRTS _ | ASetBaudRate _ => true
  | _ => false
  end.

(** Replaying one action on a port that is open or closed: [None] when
    the action opens an open port, or closes or uses a closed one. *)
Definition portStep (port : option bool) (a : Action) : option bool :=
  match port with
  | None => None
  | Some open =>
      match a with
      | AOpen ok => if open then None else Some ok
      | AClose => if open then Some false else None
      | _ => if usesPort a then (if open then Some open else None)
             else Some open
      end
  end.

(** Replaying a trace on a port that starts closed. *)
Definition portAfter (t : list Action) : option bool :=
  fold_left portStep t (Some false).

(** The trace accounts for the port: replaying it is free of misuse and
    ends with the port as the state has it. *)
Definition accounted (s : St) : Prop :=
  portAfter (trace s) = Some (fd_open s).

(** [m] keeps the account and leaves the port as it is. *)
Definition tidy {A} (m : M A) : Prop :=
  forall s r s', accounted s -> m s = (r, s') ->
    accounted s' /\ fd_open s' = fd_open s.

(** [m] keeps the account whatever it does to the port. *)
Definition accounts {A} (m : M A) : Prop :=
  forall s r s', accounted s -> m s = (r, s') -> accounted s'.

End PortSpec.

(* ================================================================== *)
(** * Part II.  Lemmas and theorems                                    *)
(* ================================================================== *)

Section SlipFacts.
Import SLIPCodec.

Lemma encodeLoop_flat_map data : forall encoded,
  encodeLoop data encoded = encoded ++ flat_map escapeByte data.
Proof.
  induction data as [|b data IH]; intros encoded; simpl.
  - now rewrite app_nil_r.
  - unfold escapeByte at 1.
    destruct (b =? FRAME_END); [|destruct (b =? FRAME_ESCAPE)];
      rewrite IH, <- app_assoc; reflexivity.
Qed.

Lemma encode_shape data :
  encode data = FRAME_END :: flat_map escapeByte data ++ [FRAME_END].
Proof. unfold encode. now rewrite encodeLoop_flat_map. Qed.

(** Inside a started frame and outside an escape, the one-shot loop eats the
    escaped image of [x] and ends up with [x] appended to what it had. *)
Lemma decodeLoop_escaped x : forall decoded tail,
  decodeLoop (flat_map escapeByte x ++ tail) decoded false true
  = decodeLoop tail (decoded ++ x) false true.
Proof.
  induction x as [|b x IH]; intros decoded tail; simpl.
  - now rewrite app_nil_r.
  - unfold escapeByte at 1.
    destruct (b =? FRAME_END) eqn:E1.
    + apply Z.eqb_eq in E1; subst b. simpl.
      rewrite IH, <- app_assoc. reflexivity.
    + destruct (b =? FRAME_ESCAPE) eqn:E2.
      * apply Z.eqb_eq in E2; subst b. simpl.
        rewrite IH, <- app_assoc. reflexivity.
      * simpl. rewrite E1, E2. rewrite IH, <- app_assoc. reflexivity.
Qed.

Lemma decode_encode x : decode (encode x) = x.
Proof.
  rewrite encode_shape. unfold decode.
  cbn [decodeLoop]. rewrite Z.eqb_refl. cbn [andb].
  rewrite decodeLoop_escaped. cbn [app decodeLoop].
  rewrite Z.eqb_refl. destruct x; reflexivity.
Qed.

Lemma isEmpty_app_cons {A} (l : list A) a r : isEmpty (l ++ a :: r) = false.
Proof. destruct l; reflexivity. Qed.

Lemma isEmpty_false {A} (l : list A) : l <> [] -> isEmpty l = false.
Proof. destruct l; [congruence | reflexivity]. Qed.

End SlipFacts.

Section SlipTheorems.
Import SLIPCodec.

(** C3. One-shot round trip: [decode (encode x) = x] for every byte
    sequence [x], and the three edge-case encodings
    [encode [] = [C0; C0]], [encode [C0] = [C0; DB; DC; C0]],
    [encode [DB] = [C0; DB; DD; C0]]. *)
Theorem C3_oneshot_roundtrip :
  (forall x : QByteArray, decode (encode x) = x) /\
  encode [] = [0xC0; 0xC0] /\
  encode [0xC0] = [0xC0; 0xDB; 0xDC; 0xC0] /\
  encode [0xDB] = [0xC0; 0xDB; 0xDD; 0xC0].
Proof.
  split; [exact decode_encode | repeat split; reflexivity].
Qed.

End SlipTheorems.

Section SlipStreaming.
Import SLIPCodec SLIPDecoder.

(** The streaming decoder, inside a started frame and outside an escape,
    consumes the escaped image of [x] without completing a packet. *)
Lemma processLoop_escaped x : forall buffer tail packets,
  processLoop (mk buffer false true) (flat_map escapeByte x ++ tail) packets
  = processLoop (mk (buffer ++ x) false true) tail packets.
Proof.
  induction x as [|b x IH]; intros buffer tail packets.
  - simpl. now rewrite app_nil_r.
  - cbn [flat_map]. unfold escapeByte at 1.
    destruct (b =? FRAME_END) eqn:E1.
    + apply Z.eqb_eq in E1; subst b. simpl.
      rewrite IH, <- app_assoc. reflexivity.
    + destruct (b =? FRAME_ESCAPE) eqn:E2.
      * apply Z.eqb_eq in E2; subst b. simpl.
        rewrite IH, <- app_assoc. reflexivity.
      * simpl. unfold processByte. rewrite E1, E2. simpl.
        rewrite IH, <- app_assoc. reflexivity.
Qed.

(** C2 (amended). Feeding [encode x] byte by byte into a freshly reset
    streaming decoder yields exactly one frame, equal to [x], for every
    NON-EMPTY byte sequence [x]; the decoder is back in its reset state
    afterwards. *)
Theorem C2_streaming_roundtrip_nonempty :
  forall x : QByteArray, x <> [] ->
    process reset (encode x) = ([x], reset).
Proof.
  intros x Hx. rewrite encode_shape. unfold process.
  cbn [processLoop]. unfold processByte at 1. cbn.
  rewrite processLoop_escaped. cbn [app processLoop].
  unfold processByte. cbn. rewrite (isEmpty_false x Hx). cbn.
  rewrite (isEmpty_false x Hx). reflexivity.
Qed.

Lemma C2_streaming_roundtrip_nonempty_witness :
  [0xC0; 0x01] <> [] /\
  process reset (encode [0xC0; 0x01]) = ([[0xC0; 0x01]], reset).
Proof.
  split; [discriminate|].
  apply (C2_streaming_roundtrip_nonempty [0xC0; 0x01]). discriminate.
Defined.

(** C2, as stated, fails on the empty sequence: [encode []] is two
    delimiters, which the streaming decoder collapses into a frame start
    without yielding any frame. *)
Lemma C2_empty_sequence_yields_no_frame :
  fst (process reset (encode [])) = [] /\
  fst (process reset (encode [])) <> [ [] ].
Proof. split; [reflexivity | discriminate]. Qed.

End SlipStreaming.

Section SlipOneShot.
Import SLIPCodec.

(** Bytes met before the first delimiter are skipped. *)
Lemma decodeLoop_junk junk : NoEnd junk -> forall tail decoded inEscape,
  decodeLoop (junk ++ tail) decoded inEscape false
  = decodeLoop tail decoded inEscape false.
Proof.
  induction 1 as [|b junk Hb _ IH]; intros tail decoded inEscape.
  - reflexivity.
  - simpl. apply Z.eqb_neq in Hb. rewrite Hb. apply IH.
Qed.

(** Inside a started frame, a delimiter-free body is un-escaped leniently
    and appended to what was accumulated. *)
Lemma decodeLoop_body body : NoEnd body -> forall tail decoded inEscape,
  decodeLoop (body ++ tail) decoded inEscape true
  = decodeLoop tail (decoded ++ unescapeFrom inEscape body)
               (pendingEscape inEscape body) true.
Proof.
  induction 1 as [|b body Hb _ IH]; intros tail decoded inEscape.
  - simpl. now rewrite app_nil_r.
  - simpl. apply Z.eqb_neq in Hb. rewrite Hb.
    destruct inEscape.
    + unfold substEscaped.
      destruct (b =? ESCAPED_END); [|destruct (b =? ESCAPED_ESCAPE)];
        rewrite IH, <- app_assoc; reflexivity.
    + destruct (b =? FRAME_ESCAPE).
      * apply IH.
      * rewrite IH, <- app_assoc. reflexivity.
Qed.

Lemma decodeLoop_nil_result decoded e s :
  decodeLoop [] decoded e s = decoded.
Proof. destruct decoded; reflexivity. Qed.

Lemma unescapeFrom_no_escape body :
  Forall (fun b => b <> FRAME_ESCAPE) body -> unescapeFrom false body = body.
Proof.
  induction 1 as [|b body Hb _ IH]; simpl; [reflexivity|].
  apply Z.eqb_neq in Hb. rewrite Hb, IH. reflexivity.
Qed.

(** C10. The one-shot decoder (1) returns the first complete frame and
    ignores every byte after its closing delimiter, (2) on an input whose
    frame is opened but never closed returns the bytes accumulated so far
    (the lenient un-escaping of the body; the body itself when it holds no
    escape byte), and (3) decodes an input without any delimiter to the
    empty sequence.  [junk], [body] and [input] are delimiter-free. *)
Theorem C10_oneshot_first_frame_and_unterminated :
  forall junk body rest input : QByteArray,
    NoEnd junk -> NoEnd body -> NoEnd input ->
    (unescape body <> [] ->
       decode (junk ++ FRAME_END :: body ++ FRAME_END :: rest)
       = unescape body) /\
    (forall x, x <> [] -> decode (junk ++ encode x ++ rest) = x) /\
    decode (junk ++ FRAME_END :: body) = unescape body /\
    (Forall (fun b => b <> FRAME_ESCAPE) body ->
       decode (junk ++ FRAME_END :: body) = body) /\
    decode input = [].
Proof.
  intros junk body rest input Hj Hb Hi. unfold decode.
  assert (Hopen : forall tail,
             decodeLoop (junk ++ FRAME_END :: tail) [] false false
             = decodeLoop tail [] false true).
  { intros tail. rewrite decodeLoop_junk by assumption.
    cbn [decodeLoop]. rewrite Z.eqb_refl. reflexivity. }
  repeat split.
  - intros Hne. rewrite Hopen, decodeLoop_body by assumption.
    cbn [app decodeLoop]. rewrite Z.eqb_refl.
    fold (unescape body). rewrite (isEmpty_false _ Hne). reflexivity.
  - intros x Hx. rewrite encode_shape. cbn [app].
    rewrite Hopen, <- app_assoc, decodeLoop_escaped.
    cbn [app decodeLoop]. rewrite Z.eqb_refl, (isEmpty_false _ Hx).
    reflexivity.
  - rewrite Hopen. rewrite <- (app_nil_r body) at 1.
    rewrite decodeLoop_body by assumption.
    apply decodeLoop_nil_result.
  - intros Hesc. rewrite Hopen. rewrite <- (app_nil_r body) at 1.
    rewrite decodeLoop_body by assumption.
    rewrite decodeLoop_nil_result. cbn [app].
    now apply unescapeFrom_no_escape.
  - rewrite <- (app_nil_r input), decodeLoop_junk by assumption.
    reflexivity.
Qed.

Lemma C10_oneshot_first_frame_and_unterminated_witness :
  decode ([0x11] ++ FRAME_END :: [0x01; 0xDB; 0xDC] ++ FRAME_END :: [0x07; 0xC0])
    = [0x01; 0xC0] /\
  decode ([0x11] ++ FRAME_END :: [0x01; 0xDB; 0xDC]) = [0x01; 0xC0] /\
  decode [0x01; 0x02] = [].
Proof.
  assert (Hj : NoEnd [0x11]) by (repeat constructor; discriminate).
  assert (Hb : NoEnd [0x01; 0xDB; 0xDC]) by (repeat constructor; discriminate).
  assert (Hi : NoEnd [0x01; 0x02]) by (repeat constructor; discriminate).
  destruct (C10_oneshot_first_frame_and_unterminated
              [0x11] [0x01; 0xDB; 0xDC] [0x07; 0xC0] [0x01; 0x02] Hj Hb Hi)
    as (H1 & _ & H3 & _ & H5).
  split; [apply H1; discriminate | split; [exact H3 | exact H5]].
Defined.

End SlipOneShot.

Section ProtocolFacts.
Import ESP32Protocol ESP32Response.

(** An in-range low part and a shifted high part do not overlap, so the
    bitwise or of the sources is the little-endian sum. *)
Lemma land_low_shiftl lo hi k :
  0 <= k -> 0 <= lo < 2 ^ k -> Z.land lo (Z.shiftl hi k) = 0.
Proof.
  intros Hk Hlo. apply Z.bits_inj'; intros n Hn.
  rewrite Z.land_spec, Z.bits_0.
  destruct (Z.lt_ge_cases n k) as [Hlt|Hge].
  - rewrite (Z.shiftl_spec_low hi k n Hlt). apply andb_false_r.
  - destruct (Z.eq_dec lo 0) as [->|Hnz]; [now rewrite Z.bits_0|].
    rewrite Z.bits_above_log2; [reflexivity | lia |].
    apply Z.log2_lt_pow2; [lia|].
    apply Z.lt_le_trans with (2 ^ k); [lia | apply Z.pow_le_mono_r; lia].
Qed.

Lemma lor_shiftl_add lo hi k :
  0 <= k -> 0 <= lo < 2 ^ k -> Z.lor lo (Z.shiftl hi k) = lo + hi * 2 ^ k.
Proof.
  intros Hk Hlo.
  pose proof (land_low_shiftl lo hi k Hk Hlo) as Hd.
  rewrite <- Z.lxor_lor by exact Hd.
  rewrite <- Z.add_nocarry_lxor by exact Hd.
  now rewrite Z.shiftl_mul_pow2.
Qed.

Lemma isByte_nth packet i : Forall isByte packet -> isByte (nth i packet 0).
Proof.
  intros H. destruct (Nat.lt_ge_cases i (length packet)) as [Hlt|Hge].
  - rewrite Forall_forall in H. apply H, nth_In, Hlt.
  - rewrite nth_overflow by assumption. unfold isByte; lia.
Qed.

Lemma readLE16_value packet off :
  Forall isByte packet ->
  readLE16 packet off = nth off packet 0 + 256 * nth (off + 1) packet 0.
Proof.
  intros H. unfold readLE16, at_, wrap16.
  pose proof (isByte_nth packet off H) as H0.
  pose proof (isByte_nth packet (off + 1) H) as H1.
  unfold isByte in *.
  rewrite lor_shiftl_add by lia.
  rewrite Z.mod_small; lia.
Qed.

Lemma readLE32_value packet off :
  Forall isByte packet ->
  readLE32 packet off
  = nth off packet 0 + 2 ^ 8 * nth (off + 1) packet 0
    + 2 ^ 16 * nth (off + 2) packet 0 + 2 ^ 24 * nth (off + 3) packet 0.
Proof.
  intros H. unfold readLE32, at_, wrap32.
  pose proof (isByte_nth packet off H) as H0.
  pose proof (isByte_nth packet (off + 1) H) as H1.
  pose proof (isByte_nth packet (off + 2) H) as H2.
  pose proof (isByte_nth packet (off + 3) H) as H3.
  unfold isByte in *.
  rewrite (lor_shiftl_add _ _ 8) by lia.
  rewrite (lor_shiftl_add _ _ 16) by lia.
  rewrite (lor_shiftl_add _ _ 24) by lia.
  rewrite Z.mod_small; lia.
Qed.

End ProtocolFacts.

Section ResponseParsing.
Import ESP32Protocol ESP32Response.

Lemma firstn_min_length {A} (l : list A) n :
  firstn (Nat.min n (length l)) l = firstn n l.
Proof.
  destruct (Nat.le_ge_cases n (length l)) as [H|H].
  - now rewrite Nat.min_l.
  - rewrite Nat.min_r by assumption.
    now rewrite firstn_all, firstn_all2.
Qed.

(** The data section that [parse] cuts out is the declared number of bytes
    after the header, truncated to what the frame holds. *)
Lemma parse_data_section packet sz :
  0 <= sz -> (8 <= length packet)%nat ->
  (if size packet >? 8
   then mid packet 8 (Z.to_nat (Z.min (8 + sz) (size packet) - 8))
   else [])
  = firstn (Z.to_nat sz) (skipn 8 packet).
Proof.
  intros Hsz Hlen. unfold size, mid.
  destruct (Z.of_nat (length packet) >? 8) eqn:E.
  - rewrite <- (firstn_min_length (skipn 8 packet) (Z.to_nat sz)).
    f_equal. rewrite length_skipn. lia.
  - assert (length packet = 8%nat) by lia.
    rewrite skipn_all2 by lia. now rewrite firstn_nil.
Qed.

Lemma status_default (d : QByteArray) :
  (if size d >=? 1 then at_ d 0 else 0) = nth 0 d 0.
Proof.
  destruct d as [|a d]; [reflexivity|].
  unfold size, at_. cbn [length nth].
  destruct (Z.of_nat (S (length d)) >=? 1) eqn:E; [reflexivity | lia].
Qed.

Lemma error_default (d : QByteArray) :
  (if size d >=? 2 then at_ d 1 else 0) = nth 1 d 0.
Proof.
  destruct d as [|a [|b d]]; try reflexivity.
  unfold size, at_. cbn [length nth].
  destruct (Z.of_nat (S (S (length d))) >=? 2) eqn:E; [reflexivity | lia].
Qed.

Lemma isSuccess_iff r :
  isSuccess r = true <-> status r = 0 /\ error r = 0.
Proof.
  unfold isSuccess. rewrite andb_true_iff, !Z.eqb_eq. reflexivity.
Qed.

(** C4. A frame of at least 8 bytes starting with 0x01 parses; the opcode
    is byte 1, the size the little-endian value of bytes 2-3, the value the
    little-endian value of bytes 4-7, the data the declared bytes after the
    header (truncated to the frame), status and error the first and second
    data byte, and [isSuccess] holds iff both are 0.  The frame
    [01 08 04 00 AA BB CC DD 00 00] parses as opcode 8, size 4, value
    0xDDCCBBAA, success; with data[1] = 05 it has error 5 and is not a
    success.  A frame whose first byte is not 0x01 does not parse. *)
Theorem C4_response_parse :
  forall packet : QByteArray,
    Forall isByte packet ->
    ((8 <= length packet)%nat -> nth 0 packet 0 = 0x01 ->
     exists r,
       parse packet = Some r /\
       command r = nth 1 packet 0 /\
       size_ r = nth 2 packet 0 + 256 * nth 3 packet 0 /\
       value r = nth 4 packet 0 + 2 ^ 8 * nth 5 packet 0
                 + 2 ^ 16 * nth 6 packet 0 + 2 ^ 24 * nth 7 packet 0 /\
       data r = firstn (Z.to_nat (size_ r)) (skipn 8 packet) /\
       status r = nth 0 (data r) 0 /\
       error r = nth 1 (data r) 0 /\
       (isSuccess r = true <-> status r = 0 /\ error r = 0)) /\
    (nth 0 packet 0 <> 0x01 -> parse packet = None) /\
    (exists r,
       parse [0x01; 0x08; 0x04; 0x00; 0xAA; 0xBB; 0xCC; 0xDD; 0x00; 0x00]
       = Some r /\
       command r = 0x08 /\ size_ r = 4 /\ value r = 0xDDCCBBAA /\
       status r = 0 /\ error r = 0 /\ isSuccess r = true) /\
    (exists r,
       parse [0x01; 0x08; 0x04; 0x00; 0xAA; 0xBB; 0xCC; 0xDD; 0x00; 0x05]
       = Some r /\
       error r = 5 /\ isSuccess r = false).
Proof.
  intros packet Hb. split; [|split; [|split]].
  - intros Hlen Hdir. unfold parse.
    assert (Hs : (size packet <? 8) = false) by (unfold size; lia).
    rewrite Hs. unfold at_ at 1. rewrite Hdir. cbn [Z.eqb Pos.eqb negb].
    eexists. split; [reflexivity|]. cbn [command size_ value data status error].
    pose proof (readLE16_value packet 2 Hb) as H16.
    pose proof (readLE32_value packet 4 Hb) as H32.
    cbn [Nat.add] in H16, H32.
    assert (Hsz : 0 <= readLE16 packet 2).
    { unfold readLE16, wrap16. apply Z.mod_pos_bound. lia. }
    rewrite parse_data_section by assumption.
    rewrite status_default, error_default.
    repeat match goal with |- _ /\ _ => split end;
      try assumption; try reflexivity.
    apply isSuccess_iff.
  - intros Hdir. unfold parse.
    destruct (size packet <? 8); [reflexivity|].
    unfold at_ at 1. apply Z.eqb_neq in Hdir. rewrite Hdir. reflexivity.
  - eexists. split; [reflexivity|]. repeat split.
  - eexists. split; [reflexivity|]. repeat split.
Qed.

Lemma C4_response_parse_witness :
  exists r,
    parse [0x01; 0x0A; 0x02; 0x00; 0x78; 0x56; 0x34; 0x12; 0x01; 0x07]
    = Some r /\
    command r = 0x0A /\ size_ r = 2 /\ value r = 0x12345678 /\
    status r = 1 /\ error r = 7.
Proof.
  assert (Hb : Forall isByte
             [0x01; 0x0A; 0x02; 0x00; 0x78; 0x56; 0x34; 0x12; 0x01; 0x07])
    by (repeat constructor; unfold isByte; lia).
  destruct (C4_response_parse _ Hb) as [H _].
  destruct H as (r & Hp & Hc & Hs & Hv & Hd & Hst & Her & _);
    [simpl; lia | reflexivity |].
  exists r. rewrite Hst, Her, Hd, Hs.
  repeat split; assumption || reflexivity.
Defined.

(** C9. A frame of exactly 8 bytes that starts with 0x01 parses, whatever
    size it declares; having no data bytes, its status and error default to
    0 and [isSuccess] is true. *)
Theorem C9_header_only_frame_is_success :
  forall packet : QByteArray,
    length packet = 8%nat -> nth 0 packet 0 = 0x01 ->
    exists r,
      parse packet = Some r /\
      data r = [] /\ status r = 0 /\ error r = 0 /\ isSuccess r = true.
Proof.
  intros packet Hlen Hdir. unfold parse.
  assert (Hs : (size packet <? 8) = false) by (unfold size; lia).
  assert (Hg : (size packet >? 8) = false) by (unfold size; lia).
  rewrite Hs, Hg. unfold at_ at 1. rewrite Hdir. cbn [Z.eqb Pos.eqb negb].
  eexists. split; [reflexivity|]. repeat split.
Qed.

Lemma C9_header_only_frame_is_success_witness :
  exists r,
    parse [0x01; 0x03; 0x04; 0x00; 0x00; 0x00; 0x00; 0x00] = Some r /\
    data r = [] /\ status r = 0 /\ error r = 0 /\ isSuccess r = true.
Proof.
  apply (C9_header_only_frame_is_success
           [0x01; 0x03; 0x04; 0x00; 0x00; 0x00; 0x00; 0x00]);
    reflexivity.
Defined.

End ResponseParsing.

Section OffsetInference.
Import FirmwareFile.
Open Scope string_scope.

Lemma startsWith_app sub : forall s,
  QString.startsWith s sub = true <-> exists post, s = sub ++ post.
Proof.
  induction sub as [|c sub IH]; intros s; simpl.
  - split; [intros _; now exists s | reflexivity].
  - destruct s as [|d s].
    + split; [discriminate | intros [post H]; discriminate].
    + destruct (Ascii.eqb_spec c d) as [->|Hcd]; cbn [andb].
      * rewrite IH. split; intros [post H]; exists post; congruence.
      * split; [discriminate | intros [post H]; congruence].
Qed.

(** [contains] decides the occurrence of [sub] as a contiguous part. *)
Lemma contains_spec sub : forall s,
  QString.contains s sub = true <-> exists pre post, s = pre ++ sub ++ post.
Proof.
  induction s as [|c s IH]; cbn [QString.contains];
    rewrite orb_true_iff, startsWith_app.
  - split.
    + intros [[post H]|H]; [|discriminate]. now exists "", post.
    + intros (pre & post & H). left.
      destruct pre; [now exists post|discriminate].
  - rewrite IH. split.
    + intros [[post H]|(pre & post & H)].
      * now exists "", post.
      * exists (String c pre), post. simpl. now rewrite H.
    + intros (pre & post & H). destruct pre as [|d pre].
      * left. now exists post.
      * right. exists pre, post. simpl in H. congruence.
Qed.

(** C6. The single-file constructor makes a one-image bundle holding the
    path and payload, whose offset is 0x0000 iff the lower-cased file name
    contains one of "merged", "factory", "combined", "full", and 0x10000
    otherwise; "firmware.bin" gives 0x10000, and "FACTORY.BIN",
    "esp32-merged.bin", "factory-something.bin" give 0x0000. *)
Theorem C6_single_file_offset :
  (forall (filePath : string) (data : QByteArray),
     exists image,
       images (fromFile filePath data) = [image] /\
       FirmwareImage.filePath image = filePath /\
       FirmwareImage.data image = data /\
       let name := QString.toLower (QString.fileName filePath) in
       let marked := exists marker pre post,
                       In marker mergedMarkers /\
                       name = pre ++ marker ++ post in
       (marked -> FirmwareImage.offset image = 0x0000) /\
       (~ marked -> FirmwareImage.offset image = 0x10000) /\
       (FirmwareImage.offset image = 0x0000 -> marked)) /\
  (forall data,
     map FirmwareImage.offset (images (fromFile "firmware.bin" data))
       = [0x10000%Z] /\
     map FirmwareImage.offset (images (fromFile "FACTORY.BIN" data))
       = [0x0000%Z] /\
     map FirmwareImage.offset (images (fromFile "esp32-merged.bin" data))
       = [0x0000%Z] /\
     map FirmwareImage.offset
         (images (fromFile "factory-something.bin" data))
       = [0x0000%Z]).
Proof.
  split; [|intros data; repeat split; reflexivity].
  intros filePath data. unfold fromFile, images. cbn [m_images].
  eexists. split; [reflexivity|]. cbn [FirmwareImage.filePath
    FirmwareImage.data FirmwareImage.offset].
  split; [reflexivity|]. split; [reflexivity|].
  set (name := QString.toLower (QString.fileName filePath)).
  cbv zeta.
  assert (Hiff :
    (QString.contains name "merged" || QString.contains name "factory"
     || QString.contains name "combined" || QString.contains name "full")
    = true
    <-> exists marker pre post,
          In marker mergedMarkers /\ name = pre ++ marker ++ post).
  { rewrite !orb_true_iff, !contains_spec. unfold mergedMarkers. split.
    - intros [[[H|H]|H]|H]; destruct H as (pre & post & H);
        eexists _, pre, post; (split; [|exact H]); simpl; tauto.
    - intros (marker & pre & post & Hin & H). simpl in Hin.
      destruct Hin as [<-|[<-|[<-|[<-|[]]]]]; eauto 8. }
  destruct (QString.contains name "merged" || QString.contains name "factory"
            || QString.contains name "combined"
            || QString.contains name "full").
  - repeat split; intros; try reflexivity.
    + exfalso. apply H. now apply Hiff.
    + now apply Hiff.
  - repeat split; intros; try reflexivity.
    + apply Hiff in H. discriminate.
    + discriminate.
Qed.

End OffsetInference.

(** ** The opcode of the frames the orchestrator writes *)

Section WrittenFrames.
Import SLIPCodec ESP32Protocol TraceSpec.

Lemma opcode_encode_buildPacket command payload checksum :
  opcodeOfFrame (encode (buildPacket command payload checksum))
  = commandCode command.
Proof. unfold opcodeOfFrame. rewrite decode_encode. reflexivity. Qed.

End WrittenFrames.

(** Every command builder ends in [buildPacket]; [opcode_encode] exposes
    it. *)
Ltac opcode_encode_tac :=
  unfold ESP32Protocol.buildSyncCommand, ESP32Protocol.buildSpiAttachCommand,
    ESP32Protocol.buildFlashBeginCommand, ESP32Protocol.buildFlashDataCommand,
    ESP32Protocol.buildFlashEndCommand, ESP32Protocol.buildChangeBaudCommand,
    ESP32Protocol.buildReadRegCommand, ESP32Protocol.buildWriteRegCommand;
  cbv zeta; rewrite opcode_encode_buildPacket.

(** ** The orchestrator: monad laws and trace discipline *)

Section MonadFacts.
Import FlashingService.

Lemma bind_inv {A B} (m : M A) (k : A -> M B) s r s' :
  bind m k s = (r, s') ->
  (exists a s1, m s = (Ok a, s1) /\ k a s1 = (r, s')) \/
  (exists r0, m s = (r0, s') /\ stopped r0 r).
Proof.
  unfold bind. destruct (m s) as [[a|e|] s1]; intros H.
  - left. now exists a, s1.
  - right. inversion H; subst. exists (Throw e). split; [reflexivity|constructor].
  - right. inversion H; subst. exists Hang. split; [reflexivity|constructor].
Qed.

Lemma bind_ok_inv {A B} (m : M A) (k : A -> M B) s b s' :
  bind m k s = (Ok b, s') ->
  exists a s1, m s = (Ok a, s1) /\ k a s1 = (Ok b, s').
Proof.
  intros H. apply bind_inv in H as [H|(r0 & _ & H)];
    [assumption | inversion H].
Qed.

Lemma tryCatch_inv {A} (m : M A) (h : Exn -> M A) s r s' :
  tryCatch m h s = (r, s') ->
  (exists r0, m s = (r0, s') /\ uncaught r0 r) \/
  (exists e s1, m s = (Throw e, s1) /\ h e s1 = (r, s')).
Proof.
  unfold tryCatch. destruct (m s) as [[a|e|] s1]; intros H.
  - left. inversion H; subst. exists (Ok a). split; [reflexivity|constructor].
  - right. now exists e, s1.
  - left. inversion H; subst. exists Hang. split; [reflexivity|constructor].
Qed.

Lemma stopped_not_ok {A B} (r0 : Res A) (b : B) : ~ stopped r0 (Ok b).
Proof. intros H; inversion H. Qed.

Lemma stopped_throw_inv {A B} (r0 : Res A) (e : Exn) :
  stopped r0 (Throw (A := B) e) -> r0 = Throw e.
Proof. intros H; inversion H; reflexivity. Qed.

Lemma stopped_hang_inv {A B} (r0 : Res A) :
  stopped r0 (Hang (A := B)) -> r0 = Hang.
Proof. intros H; inversion H; reflexivity. Qed.

End MonadFacts.

(** The outcomes of the loop of [SerialConnection::write], from the
    equation [H] of its body. *)
Ltac write_cases H :=
  match type of H with
  | context [match ?data with [] => _ | _ :: _ => _ end] =>
      destruct data as [|? ?];
      [| match type of H with
         | context [FlashingService.writeResult ?w ?k] =>
             let errno := fresh "errno" in
             destruct (FlashingService.writeResult w k) as [errno|];
             [destruct (FlashingService.retried errno)|]
         end];
      inversion H; subst
  end.

(** [H1] shows a call that returned, which [Hst] has as one that did
    not. *)
Ltac returned H1 Hst := solve [inversion H1; subst; inversion Hst].

Create HintDb sound.

Section TraceDiscipline.
Import FlashingService TraceSpec.
Variable w : World.

Lemma observed_mono s s' :
  (nPolls s <= nPolls s')%nat -> observed w s -> observed w s'.
Proof. intros Hle (c & Hc & Hlt). exists c. split; [assumption | lia]. Qed.

Section Sound.
Variable Q : Action -> Prop.

Lemma step_refl s : step w Q s s.
Proof.
  split; [lia|]. exists []. rewrite app_nil_r.
  repeat split; [constructor|]. intros H; inversion H.
Qed.

Lemma step_trans s1 s2 s3 :
  step w Q s1 s2 -> step w Q s2 s3 -> step w Q s1 s3.
Proof.
  intros [Hle1 (t1 & Ht1 & HQ1 & Hp1)] [Hle2 (t2 & Ht2 & HQ2 & Hp2)].
  split; [lia|]. exists (t1 ++ t2).
  rewrite Ht2, Ht1, app_assoc. repeat split.
  - apply Forall_app; now split.
  - intros H. apply Exists_app in H as [H|H].
    + apply observed_mono with s2; auto.
    + auto.
Qed.

Lemma sound_ret {A} (a : A) : sound w Q (ret a).
Proof. intros s r s' H. inversion H; subst. apply step_refl. Qed.

Lemma sound_throw {A} e : sound w Q (@throw A e).
Proof. intros s r s' H. inversion H; subst. apply step_refl. Qed.

Lemma sound_bind {A B} (m : M A) (k : A -> M B) :
  sound w Q m -> (forall a, sound w Q (k a)) -> sound w Q (bind m k).
Proof.
  intros Hm Hk s r s' H.
  apply bind_inv in H as [(a & s1 & H1 & H2)|(e & H1 & _)].
  - eapply step_trans; [eapply Hm | eapply Hk]; eassumption.
  - eapply Hm; eassumption.
Qed.

Lemma sound_tryCatch {A} (m : M A) (h : Exn -> M A) :
  sound w Q m -> (forall e, sound w Q (h e)) -> sound w Q (tryCatch m h).
Proof.
  intros Hm Hh s r s' H.
  apply tryCatch_inv in H as [(a & H1 & _)|(e & s1 & H1 & H2)].
  - eapply Hm; eassumption.
  - eapply step_trans; [eapply Hm | eapply Hh]; eassumption.
Qed.

(** A state change that appends one action which is not a read of the
    flag and leaves the count of reads alone. *)
Lemma step_append s s' a :
  nPolls s' = nPolls s -> trace s' = trace s ++ [a] ->
  Q a -> isPollTrue a = false -> step w Q s s'.
Proof.
  intros Hn Ht Hq Hp. split; [lia|]. exists [a].
  repeat split; [assumption | now constructor |].
  intros H. inversion H as [? ? Hx|? ? Hx]; subst;
    [congruence | inversion Hx].
Qed.

Lemma step_same s s' :
  nPolls s' = nPolls s -> trace s' = trace s -> step w Q s s'.
Proof.
  intros Hn Ht. split; [lia|]. exists []. rewrite app_nil_r.
  repeat split; [assumption | constructor |].
  intros H; inversion H.
Qed.

Lemma sound_log a : Q a -> isPollTrue a = false -> sound w Q (log a).
Proof.
  intros Hq Hp s r s' H. inversion H; subst.
  now apply step_append with a.
Qed.

Lemma sound_setFd b : sound w Q (setFd b).
Proof. intros s r s' H. inversion H; subst. now apply step_same. Qed.

Lemma sound_setIsFlashing b : sound w Q (setIsFlashing b).
Proof. intros s r s' H. inversion H; subst. now apply step_same. Qed.

Lemma sound_setDecoder d : sound w Q (setDecoder d).
Proof. intros s r s' H. inversion H; subst. now apply step_same. Qed.

Lemma sound_requireConnected : sound w Q requireConnected.
Proof.
  intros s r s' H. unfold requireConnected in H.
  destruct (fd_open s); inversion H; subst; apply step_refl.
Qed.

Lemma sound_nextWait t : sound w Q (nextWait w t).
Proof. intros s r s' H. inversion H; subst. now apply step_same. Qed.

Lemma sound_isCancelled site :
  (forall b, Q (APoll site b)) -> sound w Q (isCancelled w site).
Proof.
  intros Hq s r s' H. unfold isCancelled in H. inversion H; subst; clear H.
  split; [cbn; lia|]. eexists [_]. cbn [trace nPolls].
  repeat split; [now constructor|].
  intros H. inversion H as [? ? Hx|? ? Hx]; subst; [|inversion Hx].
  cbn in Hx. unfold observed. cbn [nPolls]. unfold flagAt in Hx.
  destruct (cancelAt w) as [c|]; [|discriminate].
  exists c. split; [reflexivity|].
  destruct (c <=? nPolls s)%nat eqn:E; [|discriminate].
  apply Nat.leb_le in E. lia.
Qed.

(** From here on [Q] admits every quiet action, every read of the flag
    and every write that is not a [FLASH_END]. *)
Hypothesis Q_quiet : forall a, quiet a = true -> Q a.
Hypothesis Q_poll : forall site b, Q (APoll site b).
Hypothesis Q_write :
  forall bytes ok, isFlashEndWrite (AWrite bytes ok) = false ->
                   Q (AWrite bytes ok).

Lemma quiet_not_poll a : quiet a = true -> isPollTrue a = false.
Proof. destruct a; try reflexivity. discriminate. Qed.

Lemma sound_quiet a : quiet a = true -> sound w Q (log a).
Proof. intros H. apply sound_log; auto using quiet_not_poll. Qed.

Lemma sound_emit st :
  quiet (AEmit st) = true -> sound w Q (emit st).
Proof. apply sound_quiet. Qed.

Lemma sound_sleepMs ms : sound w Q (sleepMs ms).
Proof. now apply sound_quiet. Qed.

Lemma sound_emitFinished b : sound w Q (emitFinished b).
Proof. now apply sound_quiet. Qed.

Lemma sound_connOpen : sound w Q (connOpen w).
Proof.
  intros s r s' H. unfold connOpen in H.
  destruct (openResult w (nOpens s)); inversion H; subst;
    eapply step_append; try reflexivity; now apply Q_quiet.
Qed.

Lemma sound_connWrite_gen data :
  (forall ok, Q (AWrite data ok)) -> sound w Q (connWrite w data).
Proof.
  intros Hq. apply sound_bind; [apply sound_requireConnected|].
  intros _ s r s' H.
  write_cases H; eapply step_append; try reflexivity; apply Hq.
Qed.

Lemma sound_connWrite data :
  opcodeOfFrame data <> commandCode FlashEnd ->
  sound w Q (connWrite w data).
Proof.
  intros Hop. apply sound_connWrite_gen. intros ok. apply Q_write.
  cbn. now apply Z.eqb_neq.
Qed.

Local Hint Resolve sound_ret sound_throw sound_setFd sound_setIsFlashing
  sound_setDecoder sound_requireConnected sound_nextWait
  sound_sleepMs sound_emitFinished sound_connOpen : sound.
Local Hint Extern 1 (sound _ _ (isCancelled _ _)) =>
  apply sound_isCancelled; intros; apply Q_poll : sound.
Local Hint Extern 1 (sound _ _ (log _)) =>
  apply sound_quiet; reflexivity : sound.
Local Hint Extern 1 (sound _ _ (emit _)) =>
  apply sound_emit; reflexivity : sound.
Local Hint Extern 1 (sound _ _ (connWrite _ _)) =>
  apply sound_connWrite; opcode_encode_tac; discriminate : sound.

Ltac sound_step :=
  match goal with
  | |- sound _ _ (bind _ _) => apply sound_bind; [|intros]
  | |- sound _ _ (tryCatch _ _) => apply sound_tryCatch; [|intros]
  | |- sound _ _ (if ?b then _ else _) => destruct b
  | |- sound _ _ (match ?x with _ => _ end) => destruct x
  | |- sound _ _ (let _ := _ in _) => cbv zeta
  end.

Ltac sound_auto := repeat sound_step; auto with sound.

Lemma sound_connClose : sound w Q connClose.
Proof.
  intros s r s' H. unfold connClose in H.
  destruct (fd_open s).
  - revert H. generalize s r s'.
    change (sound w Q (bind (setFd false) (fun _ => log AClose))).
    sound_auto.
  - inversion H; subst. apply step_refl.
Qed.

Lemma sound_connFlush : sound w Q connFlush.
Proof.
  intros s r s' H. unfold connFlush in H.
  destruct (fd_open s).
  - revert H. apply sound_quiet. reflexivity.
  - inversion H; subst. apply step_refl.
Qed.

Lemma sound_connRead o : sound w Q (connRead o).
Proof. unfold connRead. sound_auto. Qed.

Lemma sound_decoderProcess data : sound w Q (decoderProcess data).
Proof.
  intros s r s' H. unfold decoderProcess in H.
  destruct (SLIPDecoder.process (m_slipDecoder s) data) as [packets d].
  revert H. generalize s r s'.
  change (sound w Q (bind (setDecoder d) (fun _ => ret packets))).
  sound_auto.
Qed.

Local Hint Resolve sound_connClose sound_connFlush sound_connRead
  sound_decoderProcess : sound.

Lemma sound_throwIfCancelled site : sound w Q (throwIfCancelled w site).
Proof. unfold throwIfCancelled. sound_auto. Qed.

Local Hint Resolve sound_throwIfCancelled : sound.

Lemma sound_waitLoop command outcomes :
  sound w Q (waitLoop w command outcomes).
Proof.
  induction outcomes as [|o later IH]; cbn [waitLoop]; sound_auto.
Qed.

Local Hint Resolve sound_waitLoop : sound.

Lemma sound_waitForResponse command t :
  sound w Q (waitForResponse w command t).
Proof. unfold waitForResponse. sound_auto. Qed.

Local Hint Resolve sound_waitForResponse : sound.

Lemma sound_setBaudRate rate : sound w Q (setBaudRate w rate).
Proof. unfold setBaudRate. sound_auto. Qed.

Lemma sound_setDTR v : sound w Q (setDTR v).
Proof. unfold setDTR. sound_auto. Qed.

Lemma sound_setRTS v : sound w Q (setRTS v).
Proof. unfold setRTS. sound_auto. Qed.

Lemma sound_setDTRRTS d r : sound w Q (setDTRRTS d r).
Proof. unfold setDTRRTS. sound_auto. Qed.

Local Hint Resolve sound_setBaudRate sound_setDTR sound_setRTS
  sound_setDTRRTS : sound.

Lemma sound_enterBootloaderMode usb :
  sound w Q (enterBootloaderMode usb).
Proof.
  unfold enterBootloaderMode, usbJtagSerialReset, classicReset.
  sound_auto.
Qed.

Lemma sound_hardReset : sound w Q hardReset.
Proof. unfold hardReset. sound_auto. Qed.

Lemma sound_drainLoop n : sound w Q (drainLoop w n).
Proof. induction n as [|n IH]; cbn [drainLoop]; sound_auto. Qed.

Local Hint Resolve sound_enterBootloaderMode sound_hardReset
  sound_drainLoop : sound.

Lemma sound_performSync : sound w Q (performSync w).
Proof. unfold performSync. sound_auto. Qed.

Local Hint Resolve sound_performSync : sound.

Lemma sound_syncLoop n : forall attempt, sound w Q (syncLoop w n attempt).
Proof. induction n as [|n IH]; intros; cbn [syncLoop]; sound_auto. Qed.

Lemma sound_syncWithRetry : sound w Q (syncWithRetry w).
Proof. apply sound_syncLoop. Qed.

Lemma sound_changeBaudRate rate : sound w Q (changeBaudRate w rate).
Proof. unfold changeBaudRate. sound_auto. Qed.

Lemma sound_spiAttach : sound w Q (spiAttach w).
Proof. unfold spiAttach. sound_auto. Qed.

Lemma sound_readReg a : sound w Q (readReg w a).
Proof. unfold readReg. sound_auto. Qed.

Lemma sound_writeReg a v : sound w Q (writeReg w a v).
Proof. unfold writeReg. sound_auto. Qed.

Local Hint Resolve sound_syncWithRetry sound_changeBaudRate
  sound_spiAttach sound_readReg sound_writeReg : sound.

Lemma sound_disableWatchdogs : sound w Q (disableWatchdogs w).
Proof. unfold disableWatchdogs. sound_auto. Qed.

Lemma sound_flashBegin a b c d : sound w Q (flashBegin w a b c d).
Proof. unfold flashBegin. sound_auto. Qed.

Lemma sound_flashData block n : sound w Q (flashData w block n).
Proof. unfold flashData. sound_auto. Qed.

Lemma sound_reopenLoop n : forall attempt,
  sound w Q (reopenLoop w n attempt).
Proof. induction n as [|n IH]; intros; cbn [reopenLoop]; sound_auto. Qed.

Local Hint Resolve sound_disableWatchdogs sound_flashBegin
  sound_flashData sound_reopenLoop : sound.

Lemma sound_connectAndSync port : sound w Q (connectAndSync w port).
Proof. unfold connectAndSync. sound_auto. Qed.

Lemma sound_cleanup : sound w Q cleanup.
Proof. unfold cleanup. sound_auto. Qed.

(** The rest of the run after the [FLASH_END] frame has been handed to
    the port. *)
Lemma sound_flashEnd reboot usb :
  (forall ok,
     Q (AWrite (SLIPCodec.encode (ESP32Protocol.buildFlashEndCommand reboot))
               ok)) ->
  sound w Q (flashEnd w reboot usb).
Proof.
  intros Hq. unfold flashEnd. cbv zeta.
  apply sound_bind; [now apply sound_connWrite_gen|]. intros _.
  sound_auto.
Qed.

Lemma sound_fromFlashEnd port :
  (forall ok,
     Q (AWrite (SLIPCodec.encode (ESP32Protocol.buildFlashEndCommand true))
               ok)) ->
  sound w Q (fromFlashEnd w port).
Proof.
  intros Hq. unfold fromFlashEnd.
  apply sound_bind; [now apply sound_flashEnd|]. intros _.
  sound_auto. apply sound_cleanup.
Qed.




(** The loops that stream the images, for a [Q] that also admits the
    [Flashing] events. *)
Section Streaming.
Hypothesis Q_flashing : forall p, Q (AEmit (FlashingState.flashing p)).

Local Hint Extern 1 (sound _ _ (emit (FlashingState.flashing _))) =>
  apply sound_log; [apply Q_flashing | reflexivity] : sound.

Lemma sound_blockLoop image nb bf tot n : forall blockNum,
  sound w Q (blockLoop w image nb bf tot n blockNum).
Proof.
  induction n as [|n IH]; intros; cbn [blockLoop]; sound_auto.
Qed.

Local Hint Resolve sound_blockLoop : sound.

Lemma sound_flashImage image bf tot :
  sound w Q (flashImage w image bf tot).
Proof. unfold flashImage. sound_auto. Qed.

Local Hint Resolve sound_flashImage : sound.

Lemma sound_imagesLoop images : forall bf tot,
  sound w Q (imagesLoop w images bf tot).
Proof.
  induction images as [|image rest IH]; intros; cbn [imagesLoop];
    sound_auto.
Qed.

Lemma sound_flashImages fw : sound w Q (flashImages w fw).
Proof. apply sound_imagesLoop. Qed.

Local Hint Resolve sound_flashImages sound_connectAndSync : sound.


End Streaming.

End Sound.

(** *** Computations that do not read the flag *)



Lemma still_bind {A B} (m : M A) (k : A -> M B) :
  still m -> (forall a, still (k a)) -> still (bind m k).
Proof.
  intros Hm Hk s r s' H.
  apply bind_inv in H as [(a & s1 & H1 & H2)|(e & H1 & _)].
  - rewrite (Hk _ _ _ _ H2). eapply Hm; eassumption.
  - eapply Hm; eassumption.
Qed.



Lemma still_setDecoder d : still (setDecoder d).
Proof. intros s r s' H. now inversion H. Qed.

Lemma still_nextWait t : still (nextWait w t).
Proof. intros s r s' H. now inversion H. Qed.

Lemma still_requireConnected : still requireConnected.
Proof.
  intros s r s' H. unfold requireConnected in H.
  destruct (fd_open s); now inversion H.
Qed.

Lemma still_connWrite data : still (connWrite w data).
Proof.
  apply still_bind; [apply still_requireConnected|].
  intros _ s r s' H. write_cases H; reflexivity.
Qed.



(** *** Observations of the flag are not lost *)

Lemma still_keeps {A} (m : M A) : still m -> keeps w m.
Proof.
  intros Hm s a s' H Hn (c & Hc & Hlt). apply Hn. exists c.
  rewrite (Hm _ _ _ H) in Hlt. now split.
Qed.









Lemma keeps_connWrite data : keeps w (connWrite w data).
Proof. apply still_keeps, still_connWrite. Qed.













(** *** The two ends of the run *)

(** The exception handler closes the port, reads the flag once, emits one
    [Error] state and reports failure; when the flag reads [true] the
    error is [Cancelled]. *)
Lemma handler_spec e s r s' :
  handler w e s = (r, s') ->
  r = Ok tt /\ fd_open s' = false /\ m_isFlashing s' = false /\
  exists pre st,
    trace s' = trace s ++ pre
               ++ [APoll Handler (flagAfterCleanup w (nPolls s)); AEmit st;
                   AFinished false] /\
    (pre = [] \/ pre = [AClose]) /\
    FlashingState.type st = FlashingState.Error /\
    (flagAfterCleanup w (nPolls s) = true ->
     st = FlashingState.error FlashingState.Cancelled EmptyString 0).
Proof.
  unfold handler, cleanup, connClose, setIsFlashing, setFd,
    isCancelledAfterCleanup, emit, emitFinished, log, bind, ret.
  destruct (fd_open s) eqn:Efd; cbn [fd_open nPolls trace];
    destruct (flagAfterCleanup w (nPolls s)) eqn:Ef; cbn [orb];
    repeat match goal with
           | |- context [if ?b then _ else _] => destruct b
           end;
    intros H; inversion H; subst; clear H;
    cbn [fd_open m_isFlashing trace];
    (split; [reflexivity|]);
    (split; [assumption || reflexivity|]);
    (split; [reflexivity|]);
    rewrite <- ?app_assoc; cbn [app];
    first [ eexists [AClose], _; split; [reflexivity|]
          | eexists [], _; split; [reflexivity|] ];
    (split; [auto|]); (split; [reflexivity|]);
    intros; reflexivity || discriminate.
Qed.

End TraceDiscipline.

(** ** Calls that do not return *)

Create HintDb steady.

Section Stalls.
Import FlashingService TraceSpec.
Variable w : World.

Lemma drains_not_stalled s : drains w -> ~ stalled w s.
Proof.
  intros Hd (_ & t & bytes & k & errno & _ & Hk & Hr).
  rewrite (Hd _ _ Hk) in Hr. discriminate.
Qed.

Lemma endsStalled_app t1 t2 : endsStalled w t2 -> endsStalled w (t1 ++ t2).
Proof.
  intros (t0 & bytes & k & errno & -> & Hk & Hr).
  exists (t1 ++ t0), bytes, k, errno. now rewrite app_assoc.
Qed.

(** A write is not the last action of a list without writes. *)
Lemma endsStalled_writes t :
  endsStalled w t -> ~ Forall (fun a => RunSpec.isWrite a = false) t.
Proof.
  intros (t0 & bytes & k & errno & -> & _) Hall.
  apply Forall_app in Hall as [_ Hall].
  inversion Hall as [|? ? Hx _]; subst. discriminate.
Qed.

(** A call that returns or throws and logs nothing. *)
Lemma steady_same {A} (m : M A) :
  (forall s r s', m s = (r, s') ->
     r <> Hang /\ m_isFlashing s' = m_isFlashing s /\ trace s' = trace s) ->
  steady w m.
Proof.
  intros Hm s r s' H. destruct (Hm _ _ _ H) as (Hr & Hf & Ht).
  split; [exact Hf|]. exists []. rewrite app_nil_r.
  split; [exact Ht|]. split; [constructor | intros ->; now destruct Hr].
Qed.

Lemma steady_ret {A} (a : A) : steady w (ret a).
Proof.
  apply steady_same. intros s r s' H. inversion H; subst.
  repeat split. discriminate.
Qed.

Lemma steady_throw {A} e : steady w (@throw A e).
Proof.
  apply steady_same. intros s r s' H. inversion H; subst.
  repeat split. discriminate.
Qed.

Lemma steady_bind {A B} (m : M A) (k : A -> M B) :
  steady w m -> (forall a, steady w (k a)) -> steady w (bind m k).
Proof.
  intros Hm Hk s r s' H.
  apply bind_inv in H as [(a & s1 & H1 & H2)|(r0 & H1 & Hst)].
  - destruct (Hm _ _ _ H1) as (Hf1 & t1 & Ht1 & HQ1 & _).
    destruct (Hk _ _ _ _ H2) as (Hf2 & t2 & Ht2 & HQ2 & Hh).
    split; [congruence|].
    exists (t1 ++ t2). rewrite Ht2, Ht1, app_assoc.
    split; [reflexivity|]. split; [now apply Forall_app|].
    intros Hr. destruct (Hh Hr) as [Hfd He].
    split; [exact Hfd | now apply endsStalled_app].
  - destruct (Hm _ _ _ H1) as (Hf1 & t1 & Ht1 & HQ1 & Hh).
    split; [exact Hf1|]. exists t1.
    split; [exact Ht1|]. split; [exact HQ1|].
    intros ->. apply Hh. now apply stopped_hang_inv in Hst.
Qed.

Lemma steady_tryCatch {A} (m : M A) (h : Exn -> M A) :
  steady w m -> (forall e, steady w (h e)) -> steady w (tryCatch m h).
Proof.
  intros Hm Hh s r s' H.
  apply tryCatch_inv in H as [(r0 & H1 & Hu)|(e & s1 & H1 & H2)].
  - destruct (Hm _ _ _ H1) as (Hf1 & t1 & Ht1 & HQ1 & Hg).
    split; [exact Hf1|]. exists t1.
    split; [exact Ht1|]. split; [exact HQ1|].
    intros ->. apply Hg. now inversion Hu.
  - destruct (Hm _ _ _ H1) as (Hf1 & t1 & Ht1 & HQ1 & _).
    destruct (Hh _ _ _ _ H2) as (Hf2 & t2 & Ht2 & HQ2 & Hg).
    split; [congruence|].
    exists (t1 ++ t2). rewrite Ht2, Ht1, app_assoc.
    split; [reflexivity|]. split; [now apply Forall_app|].
    intros Hr. destruct (Hg Hr) as [Hfd He].
    split; [exact Hfd | now apply endsStalled_app].
Qed.

Lemma steady_log a : notComplete a -> steady w (log a).
Proof.
  intros Ha s r s' H. inversion H; subst. cbn [m_isFlashing trace].
  split; [reflexivity|]. exists [a]. split; [reflexivity|].
  split; [now constructor | discriminate].
Qed.

Lemma steady_emit st :
  FlashingState.type st <> FlashingState.Complete -> steady w (emit st).
Proof. intros Hst. now apply steady_log. Qed.

Lemma steady_sleepMs ms : steady w (sleepMs ms).
Proof. now apply steady_log. Qed.

Lemma steady_setFd b : steady w (setFd b).
Proof.
  apply steady_same. intros s r s' H. inversion H; subst.
  repeat split. discriminate.
Qed.

Lemma steady_setDecoder d : steady w (setDecoder d).
Proof.
  apply steady_same. intros s r s' H. inversion H; subst.
  repeat split. discriminate.
Qed.

Lemma steady_nextWait t : steady w (nextWait w t).
Proof.
  apply steady_same. intros s r s' H. inversion H; subst.
  repeat split. discriminate.
Qed.

Lemma steady_isCancelled site : steady w (isCancelled w site).
Proof.
  intros s r s' H. inversion H; subst. cbn [m_isFlashing trace].
  split; [reflexivity|]. eexists [_]. split; [reflexivity|].
  split; [now repeat constructor | discriminate].
Qed.

Lemma steady_requireConnected : steady w requireConnected.
Proof.
  apply steady_same. intros s r s' H. unfold requireConnected in H.
  destruct (fd_open s); inversion H; subst; repeat split; discriminate.
Qed.

Lemma steady_connOpen : steady w (connOpen w).
Proof.
  intros s r s' H. unfold connOpen in H.
  destruct (openResult w (nOpens s)); inversion H; subst;
    cbn [m_isFlashing trace];
    (split; [reflexivity|]); eexists [_]; (split; [reflexivity|]);
    (split; [now repeat constructor | discriminate]).
Qed.

(** The one call that may fail to return. *)
Lemma steady_connWrite data : steady w (connWrite w data).
Proof.
  intros s r s'. unfold connWrite, bind, requireConnected.
  destruct (fd_open s) eqn:Efd; intros H.
  2: { inversion H; subst. split; [reflexivity|].
       exists []. rewrite app_nil_r.
       split; [reflexivity|]. split; [constructor | discriminate]. }
  destruct data as [|byte rest];
    [inversion H; subst; cbn [m_isFlashing trace];
     split; [reflexivity|]; eexists [_]; split; [reflexivity|];
     split; [now repeat constructor | discriminate]|].
  destruct (writeResult w (nWrites s)) as [errno|] eqn:Ew;
    [|inversion H; subst; cbn [m_isFlashing trace];
      split; [reflexivity|]; eexists [_]; split; [reflexivity|];
      split; [now repeat constructor | discriminate]].
  destruct (retried errno) eqn:Er; inversion H; subst;
    cbn [m_isFlashing fd_open trace];
    (split; [reflexivity|]); eexists [_]; (split; [reflexivity|]);
    (split; [now repeat constructor|]);
    [intros _ | discriminate].
  split; [exact Efd|]. now exists [], (byte :: rest), (nWrites s), errno.
Qed.

Local Hint Resolve steady_ret steady_throw
  steady_sleepMs steady_setFd steady_setDecoder
  steady_nextWait steady_isCancelled steady_requireConnected
  steady_connOpen steady_connWrite : steady.
Local Hint Extern 1 (steady _ (log _)) =>
  apply steady_log; exact I : steady.
Local Hint Extern 1 (steady _ (emit _)) =>
  apply steady_emit; discriminate : steady.

Ltac steady_step :=
  match goal with
  | |- steady _ (bind _ _) => apply steady_bind; [|intros]
  | |- steady _ (tryCatch _ _) => apply steady_tryCatch; [|intros]
  | |- steady _ (if ?b then _ else _) => destruct b
  | |- steady _ (match ?x with _ => _ end) => destruct x
  | |- steady _ (let _ := _ in _) => cbv zeta
  end.

Ltac steady_auto := repeat steady_step; auto with steady.

Lemma steady_connClose : steady w connClose.
Proof.
  intros s r s' H. unfold connClose in H.
  destruct (fd_open s).
  - revert H. generalize s r s'.
    change (steady w (bind (setFd false) (fun _ => log AClose))).
    steady_auto.
  - revert H. apply (steady_ret tt).
Qed.

Lemma steady_connFlush : steady w connFlush.
Proof.
  intros s r s' H. unfold connFlush in H.
  destruct (fd_open s).
  - revert H. now apply steady_log.
  - revert H. apply (steady_ret tt).
Qed.

Lemma steady_connRead o : steady w (connRead o).
Proof. unfold connRead. steady_auto. Qed.

Lemma steady_decoderProcess data : steady w (decoderProcess data).
Proof.
  intros s r s' H. unfold decoderProcess in H.
  destruct (SLIPDecoder.process (m_slipDecoder s) data) as [packets d].
  revert H. generalize s r s'.
  change (steady w (bind (setDecoder d) (fun _ => ret packets))).
  steady_auto.
Qed.

Local Hint Resolve steady_connClose steady_connFlush steady_connRead
  steady_decoderProcess : steady.

Lemma steady_throwIfCancelled site : steady w (throwIfCancelled w site).
Proof. unfold throwIfCancelled. steady_auto. Qed.

Local Hint Resolve steady_throwIfCancelled : steady.

Lemma steady_waitLoop command outcomes :
  steady w (waitLoop w command outcomes).
Proof.
  induction outcomes as [|o later IH]; cbn [waitLoop]; steady_auto.
Qed.

Local Hint Resolve steady_waitLoop : steady.

Lemma steady_waitForResponse command t :
  steady w (waitForResponse w command t).
Proof. unfold waitForResponse. steady_auto. Qed.

Local Hint Resolve steady_waitForResponse : steady.

Lemma steady_setBaudRate rate : steady w (setBaudRate w rate).
Proof. unfold setBaudRate. steady_auto. Qed.

Lemma steady_setDTR v : steady w (setDTR v).
Proof. unfold setDTR. steady_auto. Qed.

Lemma steady_setRTS v : steady w (setRTS v).
Proof. unfold setRTS. steady_auto. Qed.

Lemma steady_setDTRRTS d r : steady w (setDTRRTS d r).
Proof. unfold setDTRRTS. steady_auto. Qed.

Local Hint Resolve steady_setBaudRate steady_setDTR steady_setRTS
  steady_setDTRRTS : steady.

Lemma steady_enterBootloaderMode usb :
  steady w (enterBootloaderMode usb).
Proof.
  unfold enterBootloaderMode, usbJtagSerialReset, classicReset.
  steady_auto.
Qed.

Lemma steady_hardReset : steady w hardReset.
Proof. unfold hardReset. steady_auto. Qed.

Lemma steady_drainLoop n : steady w (drainLoop w n).
Proof. induction n as [|n IH]; cbn [drainLoop]; steady_auto. Qed.

Local Hint Resolve steady_enterBootloaderMode steady_hardReset
  steady_drainLoop : steady.

Lemma steady_performSync : steady w (performSync w).
Proof. unfold performSync. steady_auto. Qed.

Local Hint Resolve steady_performSync : steady.

Lemma steady_syncLoop n : forall attempt, steady w (syncLoop w n attempt).
Proof. induction n as [|n IH]; intros; cbn [syncLoop]; steady_auto. Qed.

Lemma steady_syncWithRetry : steady w (syncWithRetry w).
Proof. apply steady_syncLoop. Qed.

Lemma steady_changeBaudRate rate : steady w (changeBaudRate w rate).
Proof. unfold changeBaudRate. steady_auto. Qed.

Lemma steady_spiAttach : steady w (spiAttach w).
Proof. unfold spiAttach. steady_auto. Qed.

Lemma steady_readReg a : steady w (readReg w a).
Proof. unfold readReg. steady_auto. Qed.

Lemma steady_writeReg a v : steady w (writeReg w a v).
Proof. unfold writeReg. steady_auto. Qed.

Local Hint Resolve steady_syncWithRetry steady_changeBaudRate
  steady_spiAttach steady_readReg steady_writeReg : steady.

Lemma steady_disableWatchdogs : steady w (disableWatchdogs w).
Proof. unfold disableWatchdogs. steady_auto. Qed.

Lemma steady_flashBegin a b c d : steady w (flashBegin w a b c d).
Proof. unfold flashBegin. steady_auto. Qed.

Lemma steady_flashData block n : steady w (flashData w block n).
Proof. unfold flashData. steady_auto. Qed.

Lemma steady_reopenLoop n : forall attempt,
  steady w (reopenLoop w n attempt).
Proof. induction n as [|n IH]; intros; cbn [reopenLoop]; steady_auto. Qed.

Local Hint Resolve steady_disableWatchdogs steady_flashBegin
  steady_flashData steady_reopenLoop : steady.

Lemma steady_connectAndSync port : steady w (connectAndSync w port).
Proof. unfold connectAndSync. steady_auto. Qed.

Lemma steady_flashEnd reboot usb : steady w (flashEnd w reboot usb).
Proof. unfold flashEnd. steady_auto. Qed.

Local Hint Resolve steady_connectAndSync steady_flashEnd : steady.

Lemma steady_blockLoop image nb bf tot n : forall blockNum,
  steady w (blockLoop w image nb bf tot n blockNum).
Proof.
  induction n as [|n IH]; intros; cbn [blockLoop]; steady_auto.
Qed.

Local Hint Resolve steady_blockLoop : steady.

Lemma steady_flashImage image bf tot :
  steady w (flashImage w image bf tot).
Proof. unfold flashImage. steady_auto. Qed.

Local Hint Resolve steady_flashImage : steady.

Lemma steady_imagesLoop images : forall bf tot,
  steady w (imagesLoop w images bf tot).
Proof.
  induction images as [|image rest IH]; intros; cbn [imagesLoop];
    steady_auto.
Qed.

Lemma steady_flashImages fw : steady w (flashImages w fw).
Proof. apply steady_imagesLoop. Qed.

Local Hint Resolve steady_flashImages : steady.

Lemma steady_beforeFlashEnd fw port baud :
  steady w (beforeFlashEnd w fw port baud).
Proof. unfold beforeFlashEnd. steady_auto. Qed.

(** A call that does not return is stuck in a write. *)
Lemma steady_stalled {A} (m : M A) :
  steady w m -> forall s s', m s = (Hang, s') -> stalled w s'.
Proof.
  intros Hm s s' H. destruct (Hm _ _ _ H) as (_ & t & Ht & _ & Hh).
  destruct (Hh eq_refl) as [Hfd He].
  split; [exact Hfd|]. rewrite Ht. now apply endsStalled_app.
Qed.

(** A call that writes nothing returns or throws. *)
Lemma steady_returns {A} (m : M A) :
  steady w m ->
  RunSpec.acts (fun a => RunSpec.isWrite a = false) m ->
  forall s r s', m s = (r, s') -> r <> Hang.
Proof.
  intros Hm Ha s r s' H ->.
  destruct (Hm _ _ _ H) as (_ & t & Ht & _ & Hh).
  destruct (Hh eq_refl) as [_ He].
  destruct (Ha _ _ _ H) as (_ & _ & t' & Ht' & HQ).
  rewrite Ht in Ht'. apply app_inv_head in Ht'. subst t'.
  exact (endsStalled_writes _ He HQ).
Qed.

(** The last stage either completes, with the port closed and
    [m_isFlashing] cleared by [cleanup], or stops in [flashEnd]. *)
Lemma fromFlashEnd_outcome port s r s' :
  fromFlashEnd w port s = (r, s') ->
  (r = Ok tt /\ fd_open s' = false /\ m_isFlashing s' = false) \/
  ((exists e, r = Throw e) /\ m_isFlashing s' = m_isFlashing s) \/
  (r = Hang /\ stalled w s' /\ m_isFlashing s' = m_isFlashing s).
Proof.
  unfold fromFlashEnd. intros H.
  apply bind_inv in H as [(u & s1 & H1 & H2)|(r0 & H1 & Hst)].
  - left. revert H2.
    unfold sleepMs, emit, cleanup, connClose, setIsFlashing, setFd,
      emitFinished, log, bind.
    cbn [fd_open m_isFlashing trace].
    destruct (fd_open s1); cbn [fd_open m_isFlashing trace];
      intros H; inversion H; subst; cbn [fd_open m_isFlashing];
      repeat split; reflexivity.
  - right. inversion Hst; subst.
    + left. split; [eauto|].
      now destruct (steady_flashEnd _ _ _ _ _ H1).
    + right. split; [reflexivity|].
      split; [exact (steady_stalled _ (steady_flashEnd _ _) _ _ H1)|].
      now destruct (steady_flashEnd _ _ _ _ _ H1).
Qed.

(** The shape of a run: the stages before [FLASH_END], then the last
    stage, and the handler when either throws; when either does not
    return, neither does the run. *)
Lemma runFlashingM_unfold firmware port baudRate :
  runFlashingM w firmware port baudRate initial
  = match beforeFlashEnd w firmware port baudRate initial with
    | (Ok _, s1) =>
        match fromFlashEnd w port s1 with
        | (Ok u, s2) => (Ok u, s2)
        | (Throw e, s2) => handler w e s2
        | (Hang, s2) => (Hang, s2)
        end
    | (Throw e, s1) => handler w e s1
    | (Hang, s1) => (Hang, s1)
    end.
Proof.
  unfold runFlashingM, tryCatch, bind.
  destruct (beforeFlashEnd w firmware port baudRate initial)
    as [[u|e|] s1]; reflexivity.
Qed.

(** A run either returns, with the port closed and [m_isFlashing]
    cleared, or is stuck in a write, with [m_isFlashing] still set. *)
Lemma run_outcome firmware port baudRate :
  let r := fst (runFlashingM w firmware port baudRate initial) in
  let s' := runFlashing w firmware port baudRate in
  (r = Ok tt /\ fd_open s' = false /\ m_isFlashing s' = false) \/
  (r = Hang /\ stalled w s' /\ m_isFlashing s' = true).
Proof.
  cbv zeta. unfold runFlashing. rewrite runFlashingM_unfold.
  destruct (beforeFlashEnd w firmware port baudRate initial)
    as [[u|e|] s1] eqn:E1;
    pose proof (steady_stalled _
                  (steady_beforeFlashEnd firmware port baudRate) initial s1)
      as Hh1;
    destruct (steady_beforeFlashEnd _ _ _ _ _ _ E1) as (Hf1 & _);
    cbn [m_isFlashing initial] in Hf1.
  - destruct (fromFlashEnd w port s1) as [r2 s2] eqn:E2.
    destruct (fromFlashEnd_outcome _ _ _ _ E2)
      as [(-> & Hfd & Hfl)|[((e & ->) & Hfl)|(-> & Hst & Hfl)]].
    + left. cbn [fst snd]. now repeat split.
    + destruct (handler w e s2) as [r3 s3] eqn:E3.
      apply handler_spec in E3 as (-> & Hfd & Hfl3 & _).
      left. cbn [fst snd]. now repeat split.
    + right. cbn [fst snd].
      split; [reflexivity|]. split; [exact Hst | congruence].
  - destruct (handler w e s1) as [r3 s3] eqn:E3.
    apply handler_spec in E3 as (-> & Hfd & Hfl3 & _).
    left. cbn [fst snd]. now repeat split.
  - right. cbn [fst snd].
    split; [reflexivity|]. split; [now apply Hh1 | exact Hf1].
Qed.

(** On a port that takes every write in the end, the run returns. *)
Lemma run_returns firmware port baudRate :
  drains w -> fst (runFlashingM w firmware port baudRate initial) = Ok tt.
Proof.
  intros Hd.
  destruct (run_outcome firmware port baudRate)
    as [(Hr & _)|(_ & Hst & _)]; [exact Hr|].
  now destruct (drains_not_stalled _ Hd Hst).
Qed.

End Stalls.

(** ** Cancellation (C8) *)

Section Cancellation.
Import FlashingService TraceSpec.


Lemma emitsOf_app t1 t2 : emitsOf (t1 ++ t2) = emitsOf t1 ++ emitsOf t2.
Proof. apply flat_map_app. Qed.

Lemma lastEmit_handler t pre b st :
  lastEmit (t ++ pre ++ [APoll Handler b; AEmit st; AFinished false])
  = Some st.
Proof.
  unfold lastEmit. rewrite !emitsOf_app. cbn [emitsOf flat_map app].
  rewrite app_assoc, map_app. cbn [map]. apply last_last.
Qed.

(** The state a run leaves behind: after the stages before [FLASH_END],
    then the last stage, and the handler when either throws. *)
Lemma runFlashing_unfold w firmware port baudRate :
  runFlashing w firmware port baudRate
  = match beforeFlashEnd w firmware port baudRate initial with
    | (Throw e, s1) => snd (handler w e s1)
    | (Hang, s1) => s1
    | (Ok _, s1) =>
        match fromFlashEnd w port s1 with
        | (Ok _, s2) => s2
        | (Throw e, s2) => snd (handler w e s2)
        | (Hang, s2) => s2
        end
    end.
Proof.
  unfold runFlashing, runFlashingM, tryCatch, bind.
  destruct (beforeFlashEnd w firmware port baudRate initial)
    as [[u|e|] s1]; try reflexivity.
  destruct (fromFlashEnd w port s1) as [[u2|e2|] s2]; reflexivity.
Qed.




Lemma NoFlashEnd_forallb t :
  forallb (fun a => negb (isFlashEndWrite a)) t = true -> NoFlashEnd t.
Proof.
  intros H. apply Forall_forall. intros a Ha.
  rewrite forallb_forall in H. specialize (H a Ha).
  unfold notFlashEnd. now destruct (isFlashEndWrite a).
Qed.

Lemma scripted_drains cancel script :
  drains (Scenarios.scripted cancel script).
Proof. intros k errno H. discriminate H. Qed.



(** The two conditions on the end of a cancelled run cannot be dropped.
    When the port clogs after the cancellation has been observed, the
    run never ends: here the second sync frame, written after the first
    wait has seen the flag, is never taken, and the run stays in
    [Syncing] with the port open. *)
Lemma cancelled_run_stuck_in_a_write :
  let outcome :=
    fst (runFlashingM Scenarios.cloggedAfterCancel Scenarios.smallFirmware
           Scenarios.classicPort Baud115200 initial) in
  let final :=
    runFlashing Scenarios.cloggedAfterCancel Scenarios.smallFirmware
                Scenarios.classicPort Baud115200 in
  In (APoll WaitLoop true) (trace final) /\
  NoFlashEnd (trace final) /\
  outcome = Hang /\
  fd_open final = true /\
  lastEmit (trace final) = Some FlashingState.syncing.
Proof.
  cbv zeta. split; [|split; [|split; [|split]]].
  - replace (APoll WaitLoop true)
      with (nth 15 (trace (runFlashing Scenarios.cloggedAfterCancel
                             Scenarios.smallFirmware Scenarios.classicPort
                             Baud115200)) AClose)
      by (vm_compute; reflexivity).
    apply nth_In. vm_compute. lia.
  - apply NoFlashEnd_forallb. vm_compute. reflexivity.
  - vm_compute. reflexivity.
  - vm_compute. reflexivity.
  - vm_compute. reflexivity.
Qed.

(** When [flash()] is called again between [cleanup()] and the handler's
    read of the flag, a cancellation observed while syncing is reported
    as a failure to sync: all forty sync attempts are made, and the run
    ends [SyncFailed]. *)
Lemma cancelled_run_reported_as_sync_failure :
  let outcome :=
    fst (runFlashingM Scenarios.restartedAfterCancel
           Scenarios.smallFirmware Scenarios.classicPort Baud115200
           initial) in
  let final :=
    runFlashing Scenarios.restartedAfterCancel Scenarios.smallFirmware
                Scenarios.classicPort Baud115200 in
  In (APoll WaitLoop true) (trace final) /\
  NoFlashEnd (trace final) /\
  outcome = Ok tt /\
  length (writesOf (trace final)) = 40%nat /\
  lastEmit (trace final)
  = Some (FlashingState.error FlashingState.SyncFailed
            "Failed to sync with bootloader" 20).
Proof.
  cbv zeta. split; [|split; [|split; [|split]]].
  - replace (APoll WaitLoop true)
      with (nth 15 (trace (runFlashing Scenarios.restartedAfterCancel
                             Scenarios.smallFirmware Scenarios.classicPort
                             Baud115200)) AClose)
      by (vm_compute; reflexivity).
    apply nth_In. vm_compute. lia.
  - apply NoFlashEnd_forallb. vm_compute. reflexivity.
  - vm_compute. reflexivity.
  - vm_compute. reflexivity.
  - vm_compute. reflexivity.
Qed.

End Cancellation.

(** ** A refused block (C1) *)

Section BlockFailure.
Import FlashingService TraceSpec.
Open Scope string_scope.

Lemma occurs_app c s1 s2 :
  QString.occurs c (s1 ++ s2) = QString.occurs c s1 || QString.occurs c s2.
Proof.
  induction s1 as [|b s1 IH]; cbn; [reflexivity|].
  now rewrite IH, orb_assoc.
Qed.

(** Every character of a contained string occurs in the container. *)
Lemma contains_occurs s sub c :
  QString.contains s sub = true -> QString.occurs c sub = true ->
  QString.occurs c s = true.
Proof.
  intros Hc Ho. apply contains_spec in Hc as (pre & post & ->).
  rewrite !occurs_app, Ho. now rewrite orb_true_r.
Qed.

Lemma occurs_uint c d :
  QString.occurs c (DecimalString.NilEmpty.string_of_uint d) = true ->
  QString.occurs c "0123456789" = true.
Proof.
  induction d as [|d IH|d IH|d IH|d IH|d IH|d IH|d IH|d IH|d IH|d IH];
    cbn [DecimalString.NilEmpty.string_of_uint QString.occurs];
    try discriminate;
    intros H; apply orb_true_iff in H as [H|H]; auto;
    apply Ascii.eqb_eq in H; subst c; reflexivity.
Qed.

(** The decimal text of an integer is made of digits and a sign. *)
Lemma occurs_decimal c v :
  QString.occurs c (decimal v) = true ->
  QString.occurs c "-0123456789" = true.
Proof.
  unfold decimal, DecimalString.NilZero.string_of_int,
    DecimalString.NilZero.string_of_uint.
  assert (Hd : forall d,
             QString.occurs c
               match d with
               | Decimal.Nil => "0"
               | _ => DecimalString.NilEmpty.string_of_uint d
               end = true ->
             QString.occurs c "-0123456789" = true).
  { intros d H. cbn [QString.occurs]. apply orb_true_iff. right.
    destruct d; try (now apply (occurs_uint c) in H).
    cbn [QString.occurs] in H |- *.
    apply orb_true_iff in H as [H|H]; [now rewrite H | discriminate]. }
  destruct (Z.to_int v) as [d|d]; [apply Hd|].
  cbn [QString.occurs]. intros H. apply orb_true_iff in H as [H|H].
  - now rewrite H.
  - apply Hd in H. cbn [QString.occurs] in H. exact H.
Qed.

(** A letter does not occur in the message of a refused block, unless it
    occurs in its fixed text. *)
Lemma occurs_flashDataFailedMessage c n status :
  QString.occurs c "-0123456789" = false ->
  QString.occurs c "Flash data failed at block : status=" = false ->
  QString.occurs c (flashDataFailedMessage n status) = false.
Proof.
  intros Hdigit Htext. unfold flashDataFailedMessage.
  rewrite !occurs_app.
  assert (Hdec : forall v, QString.occurs c (decimal v) = false).
  { intros v. destruct (QString.occurs c (decimal v)) eqn:E; [|reflexivity].
    apply occurs_decimal in E. congruence. }
  rewrite !Hdec, !orb_false_r.
  change "Flash data failed at block : status="
    with ("Flash data failed at block " ++ ": status=") in Htext.
  rewrite occurs_app in Htext. exact Htext.
Qed.

Lemma flashDataFailedMessage_unmatched n status :
  QString.contains (flashDataFailedMessage n status) "Cancelled" = false /\
  QString.contains (flashDataFailedMessage n status) "sync" = false.
Proof.
  split.
  - destruct (QString.contains _ "Cancelled") eqn:E; [|reflexivity].
    apply (contains_occurs _ _ "C") in E; [|reflexivity].
    rewrite occurs_flashDataFailedMessage in E by reflexivity.
    discriminate.
  - destruct (QString.contains _ "sync") eqn:E; [|reflexivity].
    apply (contains_occurs _ _ "y") in E; [|reflexivity].
    rewrite occurs_flashDataFailedMessage in E by reflexivity.
    discriminate.
Qed.

(** C1. What the code does when the loader refuses a block.
    (1) At the scenario of the specification -- status 1 for block 3 -- the
    run ends with [Error] of kind [ConnectionFailed] and [errorData] 0, the
    port closed.  (2) For every block and index [n], an unsuccessful
    response makes [flashData] throw a runtime error whose message names
    [n] and the status.  (3) For every such exception the handler, when the
    cancellation flag is not set, emits [Error] of kind [ConnectionFailed]
    with [errorData] 0: the kind is never [FlashDataFailed] and the block
    number survives in the message only. *)
Theorem C1_block_failure_reported_as_connection_failed :
  (let final :=
     runFlashing Scenarios.block3Fails Scenarios.fourBlockFirmware
                 Scenarios.classicPort Baud115200 in
   lastEmit (trace final)
   = Some (FlashingState.error FlashingState.ConnectionFailed
             "Flash data failed at block 3: status=1" 0) /\
   fd_open final = false) /\
  (forall (w : World) (block : QByteArray) (n : Z) (s s1 s2 : St)
          (response : ESP32Response.t),
     connWrite w (SLIPCodec.encode
                    (ESP32Protocol.buildFlashDataCommand block (wrap32 n))) s
     = (Ok tt, s1) ->
     waitForResponse w FlashData RESPONSE_TIMEOUT s1 = (Ok response, s2) ->
     ESP32Response.isSuccess response = false ->
     flashData w block n s
     = (Throw (RuntimeError
                 (flashDataFailedMessage n (ESP32Response.status response))),
        s2)) /\
  (forall (w : World) (n status : Z) (s : St),
     flagAt w (nPolls s) = false ->
     lastEmit (trace (snd (handler w
                             (RuntimeError (flashDataFailedMessage n status))
                             s)))
     = Some (FlashingState.error FlashingState.ConnectionFailed
               (flashDataFailedMessage n status) 0)).
Proof.
  split; [cbv zeta; split; vm_compute; reflexivity|]. split.
  - intros w block n s s1 s2 response Hw Hr Hfail.
    unfold flashData, bind. cbv zeta. unfold bind in Hw.
    rewrite Hw, Hr, Hfail. reflexivity.
  - intros w n status s Hflag.
    destruct (flashDataFailedMessage_unmatched n status) as [Hc Hs].
    unfold handler, cleanup, connClose, setIsFlashing, setFd,
      isCancelledAfterCleanup, flagAfterCleanup,
      emit, emitFinished, log, bind, ret.
    destruct (fd_open s); cbn [fd_open nPolls trace what];
      rewrite Hflag, Hc, Hs; cbn [andb orb];
      destruct (QString.contains _ "Cannot open"
                || QString.contains _ "reopen");
      cbn [snd trace]; rewrite <- ?app_assoc; cbn [app].
    + apply (lastEmit_handler _ [AClose]).
    + apply (lastEmit_handler _ [AClose]).
    + apply (lastEmit_handler _ []).
    + apply (lastEmit_handler _ []).
Qed.

Lemma C1_block_failure_reported_as_connection_failed_witness :
  lastEmit (trace (snd (handler Scenarios.block3Fails
                          (RuntimeError (flashDataFailedMessage 3 1))
                          initial)))
  = Some (FlashingState.error FlashingState.ConnectionFailed
            "Flash data failed at block 3: status=1" 0).
Proof.
  destruct C1_block_failure_reported_as_connection_failed as (_ & _ & H).
  apply (H Scenarios.block3Fails 3 1 initial). reflexivity.
Defined.

End BlockFailure.

(** ** Streaming the blocks of an image (C5) *)

Section Chunks.
Context {A : Type}.
Variable B : nat.

(** Cutting a list whose length is a multiple of [B] into consecutive
    pieces of [B] elements and gluing them back gives the list. *)
Lemma concat_chunks : forall N (l : list A),
  length l = (N * B)%nat ->
  concat (map (fun n => firstn B (skipn (n * B) l)) (seq 0 N)) = l.
Proof.
  induction N as [|N IH]; intros l Hlen.
  - destruct l; [reflexivity | discriminate].
  - cbn [seq map concat]. rewrite <- seq_shift, map_map.
    change (0 * B)%nat with 0%nat. cbn [skipn].
    transitivity (firstn B l ++ skipn B l); [|apply firstn_skipn].
    f_equal.
    transitivity
      (concat (map (fun n => firstn B (skipn (n * B) (skipn B l)))
                   (seq 0 N))).
    + f_equal. apply map_ext. intros n.
      rewrite skipn_skipn. do 2 f_equal. lia.
    + apply IH. rewrite length_skipn. lia.
Qed.

Lemma chunk_full (l padding : list A) k :
  (k + B <= length l)%nat ->
  firstn B (skipn k (l ++ padding)) = firstn B (skipn k l).
Proof.
  intros H. rewrite skipn_app, firstn_app, length_skipn.
  replace (B - (length l - k))%nat with 0%nat by lia.
  cbn [firstn]. now rewrite app_nil_r.
Qed.

Lemma chunk_last (l padding : list A) k :
  (k <= length l)%nat -> (length l - k + length padding = B)%nat ->
  firstn B (skipn k (l ++ padding)) = skipn k l ++ padding.
Proof.
  intros Hk H. rewrite skipn_app.
  replace (k - length l)%nat with 0%nat by lia. cbn [skipn].
  apply firstn_all2. rewrite length_app, length_skipn. lia.
Qed.

Lemma length_chunk (l : list A) N n :
  length l = (N * B)%nat -> (n < N)%nat ->
  length (firstn B (skipn (n * B) l)) = B.
Proof.
  intros Hlen Hn. rewrite length_firstn, length_skipn. nia.
Qed.

End Chunks.

Section BlockData.
Import ESP32Protocol FlashingService.

Lemma wrapInt_small v : - 2 ^ 31 <= v <= INT_MAX -> wrapInt v = v.
Proof.
  unfold wrapInt, INT_MAX. intros H. rewrite Z.mod_small; lia.
Qed.

Lemma wrap32_small v : 0 <= v <= INT_MAX -> wrap32 v = v.
Proof. unfold wrap32, INT_MAX. intros H. apply Z.mod_small. lia. Qed.

Variable image : FirmwareImage.t.
Let payload := FirmwareImage.data image.
Let len := length payload.

Hypothesis nonempty : payload <> [].
Hypothesis fits : FirmwareImage.size image + 1024 <= INT_MAX.

(** The number of blocks, as a natural number. *)
Let N : nat := Z.to_nat (numBlocksOf image).

Lemma len_pos : (0 < len)%nat.
Proof. unfold len. destruct payload; [congruence | cbn; lia]. Qed.

Lemma size_len : FirmwareImage.size image = Z.of_nat len.
Proof. reflexivity. Qed.

Lemma numBlocksOf_value :
  numBlocksOf image = (Z.of_nat len + 1023) / 1024.
Proof.
  pose proof len_pos. pose proof fits as Hf. rewrite size_len in Hf.
  unfold INT_MAX in Hf.
  unfold numBlocksOf, FLASH_BLOCK_SIZE. cbv zeta. rewrite size_len.
  rewrite (wrapInt_small (Z.of_nat len + 1024)) by (unfold INT_MAX; lia).
  rewrite wrapInt_small by (unfold INT_MAX; lia).
  rewrite Z.quot_div_nonneg by lia. f_equal. lia.
Qed.

(** [N] is the ceiling of [len / 1024]. *)
Lemma N_ceiling : ((N - 1) * 1024 < len <= N * 1024)%nat /\ (0 < N)%nat.
Proof.
  pose proof len_pos. unfold N. rewrite numBlocksOf_value.
  pose proof (Z.div_mod (Z.of_nat len + 1023) 1024 ltac:(lia)) as Hd.
  pose proof (Z.mod_pos_bound (Z.of_nat len + 1023) 1024 ltac:(lia)) as Hm.
  assert (0 < (Z.of_nat len + 1023) / 1024)
    by (apply Z.div_str_pos; lia).
  lia.
Qed.

Lemma numBlocksOf_N : numBlocksOf image = Z.of_nat N.
Proof.
  unfold N. rewrite Z2Nat.id; [reflexivity|].
  rewrite numBlocksOf_value. apply Z.div_pos; lia.
Qed.

(** The payload padded with 0xFF up to a whole number of blocks. *)
Let padded : QByteArray := payload ++ repeat 0xFF (N * 1024 - len).

Lemma length_padded : length padded = (N * 1024)%nat.
Proof.
  pose proof N_ceiling. unfold padded.
  rewrite length_app, repeat_length. fold len. lia.
Qed.

(** Block [n] is the [n]-th 1024-byte piece of the padded payload. *)
Lemma blockDataOf_chunk n :
  (n < N)%nat ->
  blockDataOf image (Z.of_nat n)
  = firstn 1024 (skipn (n * 1024) padded).
Proof.
  intros Hn. pose proof N_ceiling as [[Hlo Hhi] HN].
  pose proof fits as Hf. rewrite size_len in Hf. unfold INT_MAX in Hf.
  unfold blockDataOf, FLASH_BLOCK_SIZE. cbv zeta. rewrite size_len.
  rewrite (wrapInt_small (Z.of_nat n * 1024)) by (unfold INT_MAX; lia).
  rewrite wrapInt_small by (unfold INT_MAX; lia).
  unfold mid, size. fold payload.
  replace (Z.to_nat (Z.of_nat n * 1024)) with (n * 1024)%nat by lia.
  destruct (Nat.le_gt_cases (n * 1024 + 1024) len) as [Hfull|Hlast].
  - (* a full block *)
    rewrite Z.min_l by lia.
    replace (Z.to_nat (Z.of_nat n * 1024 + 1024 - Z.of_nat n * 1024))
      with 1024%nat by lia.
    assert (Hl : length (firstn 1024 (skipn (n * 1024) payload)) = 1024%nat)
      by (rewrite length_firstn, length_skipn; fold len; lia).
    rewrite Hl.
    replace (Z.of_nat 1024 <? 1024) with false by lia.
    unfold padded. symmetry. apply chunk_full. fold len. lia.
  - (* the last block, padded *)
    rewrite Z.min_r by lia.
    replace (Z.to_nat (Z.of_nat len - Z.of_nat n * 1024))
      with (len - n * 1024)%nat by lia.
    rewrite firstn_all2 by (rewrite length_skipn; fold len; lia).
    rewrite length_skipn. fold len.
    replace (Z.of_nat (len - n * 1024) <? 1024) with true by lia.
    replace (Z.to_nat (1024 - Z.of_nat (len - n * 1024)))
      with (N * 1024 - len)%nat by lia.
    unfold padded. symmetry. apply chunk_last.
    + fold len. lia.
    + rewrite repeat_length. fold len. lia.
Qed.

(** All the blocks of the image, in order. *)
Lemma blocks_of_image :
  let blocks := map (fun n => blockDataOf image (Z.of_nat n)) (seq 0 N) in
  length blocks = N /\
  Forall (fun block => length block = 1024%nat) blocks /\
  concat blocks = payload ++ repeat 0xFF (N * 1024 - len).
Proof.
  cbv zeta. split; [|split].
  - now rewrite length_map, length_seq.
  - apply Forall_forall. intros block Hin.
    apply in_map_iff in Hin as (n & <- & Hin). apply in_seq in Hin.
    rewrite blockDataOf_chunk by lia.
    apply length_chunk with N; [apply length_padded | lia].
  - change (payload ++ repeat 0xFF (N * 1024 - len)) with padded.
    transitivity
      (concat (map (fun n => firstn 1024 (skipn (n * 1024) padded))
                   (seq 0 N)));
      [|apply concat_chunks, length_padded].
    f_equal. apply map_ext_in. intros n Hin. apply in_seq in Hin.
    apply blockDataOf_chunk. lia.
Qed.

End BlockData.

Section WritesOfTheLoops.
Import SLIPCodec ESP32Protocol FlashingService TraceSpec.
Variable w : World.

Lemma writesOf_app t1 t2 : writesOf (t1 ++ t2) = writesOf t1 ++ writesOf t2.
Proof. apply flat_map_app. Qed.

Lemma writesOf_notWrite t : Forall notWrite t -> writesOf t = [].
Proof.
  induction 1 as [|a t Ha _ IH]; [reflexivity|].
  cbn [writesOf flat_map]. fold (writesOf t). rewrite IH.
  destruct a; try reflexivity. destruct Ha.
Qed.

Lemma notWrite_quiet a : quiet a = true -> notWrite a.
Proof. destruct a; try exact (fun _ => I). discriminate. Qed.

(** A computation that is sound for [notWrite] writes nothing. *)
Lemma writesExactly_none {A} (m : M A) :
  sound w notWrite m -> writesExactly [] m.
Proof.
  intros Hm s a s' H. destruct (Hm _ _ _ H) as [_ (t & Ht & Hq & _)].
  rewrite Ht, writesOf_app, (writesOf_notWrite t Hq). reflexivity.
Qed.

Lemma writesExactly_bind {A B} l1 l2 (m : M A) (k : A -> M B) :
  writesExactly l1 m -> (forall a, writesExactly l2 (k a)) ->
  writesExactly (l1 ++ l2) (bind m k).
Proof.
  intros Hm Hk s b s' H.
  apply bind_ok_inv in H as (a & s1 & H1 & H2).
  rewrite (Hk _ _ _ _ H2), (Hm _ _ _ H1), app_assoc. reflexivity.
Qed.

Lemma writesExactly_connWrite data : writesExactly [data] (connWrite w data).
Proof.
  intros s a s'. unfold connWrite, bind, requireConnected.
  destruct (fd_open s); [|discriminate].
  intros H. write_cases H; cbn [trace].
  all: rewrite writesOf_app; reflexivity.
Qed.

Lemma writesExactly_log a : notWrite a -> writesExactly [] (log a).
Proof.
  intros Ha s u s' H. inversion H; subst. cbn [trace].
  rewrite writesOf_app. f_equal.
  destruct a; try reflexivity. destruct Ha.
Qed.

Lemma writesExactly_throwIfCancelled site :
  writesExactly [] (throwIfCancelled w site).
Proof.
  apply writesExactly_none, sound_throwIfCancelled. intros; exact I.
Qed.

Lemma writesExactly_waitForResponse command t :
  writesExactly [] (waitForResponse w command t).
Proof.
  apply writesExactly_none, sound_waitForResponse;
    intros; auto using notWrite_quiet; exact I.
Qed.

Lemma writesExactly_check {A} (b : bool) e (a : A) :
  writesExactly [] (if b then throw e else ret a).
Proof.
  destruct b; intros s x s' H; inversion H; subst.
  now rewrite app_nil_r.
Qed.

Lemma writesExactly_flashBegin sz nb bs off :
  writesExactly [encode (buildFlashBeginCommand sz nb bs off false)]
                (flashBegin w sz nb bs off).
Proof.
  unfold flashBegin. cbv zeta.
  apply (writesExactly_bind [_] []); [apply writesExactly_connWrite|].
  intros _. apply (writesExactly_bind [] []);
    [apply writesExactly_waitForResponse|].
  intros response. apply writesExactly_check.
Qed.

Lemma writesExactly_flashData block n :
  writesExactly [encode (buildFlashDataCommand block (wrap32 n))]
                (flashData w block n).
Proof.
  unfold flashData. cbv zeta.
  apply (writesExactly_bind [_] []); [apply writesExactly_connWrite|].
  intros _. apply (writesExactly_bind [] []);
    [apply writesExactly_waitForResponse|].
  intros response. apply writesExactly_check.
Qed.

Lemma writesExactly_blockLoop image nb bf tot : forall remaining k,
  Z.of_nat (k + remaining) <= INT_MAX ->
  writesExactly (map (dataFrame image) (seq k remaining))
                (blockLoop w image nb bf tot remaining (Z.of_nat k)).
Proof.
  induction remaining as [|remaining IH]; intros k Hk;
    cbn [blockLoop seq map].
  - intros s a s' H. inversion H; subst. now rewrite app_nil_r.
  - apply (writesExactly_bind [] (_ :: _));
      [apply writesExactly_throwIfCancelled|]. intros _. cbv zeta.
    apply (writesExactly_bind [] (_ :: _));
      [now apply writesExactly_log|]. intros _.
    apply (writesExactly_bind [_] _).
    { unfold dataFrame.
      rewrite <- (wrap32_small (Z.of_nat k)) at 2
        by (unfold INT_MAX in *; lia).
      apply writesExactly_flashData. }
    intros _.
    apply (writesExactly_bind [] _); [now apply writesExactly_log|].
    intros _.
    rewrite wrapInt_small by (unfold INT_MAX in *; lia).
    replace (Z.of_nat k + 1) with (Z.of_nat (S k)) by lia.
    apply IH. lia.
Qed.

Lemma writesExactly_flashImage image bf tot :
  Z.of_nat (Z.to_nat (numBlocksOf image)) <= INT_MAX ->
  writesExactly
    (encode (buildFlashBeginCommand
               (wrap32 (FirmwareImage.size image))
               (wrap32 (numBlocksOf image))
               (wrap32 FLASH_BLOCK_SIZE)
               (FirmwareImage.offset image) false)
     :: map (dataFrame image) (seq 0 (Z.to_nat (numBlocksOf image))))
    (flashImage w image bf tot).
Proof.
  intros Hn. unfold flashImage.
  apply (writesExactly_bind [] (_ :: _));
    [apply writesExactly_throwIfCancelled|]. intros _. cbv zeta.
  apply (writesExactly_bind [] (_ :: _));
    [now apply writesExactly_log|]. intros _.
  apply (writesExactly_bind [_] _); [apply writesExactly_flashBegin|].
  intros _. apply (writesExactly_blockLoop image _ _ _ _ 0%nat). exact Hn.
Qed.

Lemma combine_map_self {A B} (g : A -> B) (l : list A) :
  combine l (map g l) = map (fun x => (x, g x)) l.
Proof. induction l as [|x l IH]; cbn; [reflexivity | now rewrite IH]. Qed.

(** C5. When the loop over one image with a non-empty payload of [s]
    bytes runs to its end, the frames written are [FLASH_BEGIN] followed
    by exactly [N] = ceiling(s / 1024) [FLASH_DATA] frames with sequence
    numbers 0 .. N-1 in order; every block is 1024 bytes long, and the
    blocks glued together are the payload followed by 0xFF bytes only.
    (The payload size is assumed to leave the [int] arithmetic of the
    loop in range.) *)
Theorem C5_blocks_of_an_image :
  forall (image : FirmwareImage.t) (bytesFlashed totalBytes : Z)
         (s s' : St),
    FirmwareImage.data image <> [] ->
    FirmwareImage.size image + 1024 <= INT_MAX ->
    flashImage w image bytesFlashed totalBytes s = (Ok tt, s') ->
    exists (N : nat) (blocks : list QByteArray),
      (Z.of_nat N - 1) * 1024 < FirmwareImage.size image
        <= Z.of_nat N * 1024 /\
      length blocks = N /\
      writesOf (trace s')
      = writesOf (trace s)
        ++ encode (buildFlashBeginCommand
                     (FirmwareImage.size image) (Z.of_nat N) 1024
                     (FirmwareImage.offset image) false)
        :: map (fun '(n, block) =>
                  encode (buildFlashDataCommand block (Z.of_nat n)))
               (combine (seq 0 N) blocks) /\
      Forall (fun block => length block = 1024%nat) blocks /\
      concat blocks
      = FirmwareImage.data image
        ++ repeat 0xFF (N * 1024 - length (FirmwareImage.data image)).
Proof.
  intros image bf tot s s' Hne Hfit Hrun.
  pose proof (N_ceiling image Hne Hfit) as [[Hlo Hhi] HN].
  pose proof (numBlocksOf_N image Hne Hfit) as HnbN.
  pose proof (blocks_of_image image Hne Hfit) as (Hlen & Hall & Hcat).
  set (N := Z.to_nat (numBlocksOf image)) in *.
  assert (Hsz : FirmwareImage.size image
                = Z.of_nat (length (FirmwareImage.data image)))
    by reflexivity.
  exists N, (map (fun n => blockDataOf image (Z.of_nat n)) (seq 0 N)).
  split; [rewrite Hsz; lia|]. split; [exact Hlen|].
  split; [|split; assumption].
  assert (HNmax : Z.of_nat N <= INT_MAX)
    by (unfold INT_MAX in *; rewrite Hsz in Hfit; lia).
  rewrite (writesExactly_flashImage image bf tot HNmax _ _ _ Hrun).
  fold N. rewrite HnbN.
  rewrite (wrap32_small (FirmwareImage.size image))
    by (unfold INT_MAX in *; rewrite Hsz in *; lia).
  rewrite (wrap32_small (Z.of_nat N)) by (unfold INT_MAX in *; lia).
  rewrite (wrap32_small FLASH_BLOCK_SIZE)
    by (unfold INT_MAX, FLASH_BLOCK_SIZE; lia).
  unfold FLASH_BLOCK_SIZE.
  rewrite combine_map_self, map_map. reflexivity.
Qed.

End WritesOfTheLoops.

Section BlocksWitness.
Import SLIPCodec ESP32Protocol FlashingService TraceSpec.

Lemma C5_blocks_of_an_image_witness :
  exists (N : nat) (blocks : list QByteArray),
    (Z.of_nat N - 1) * 1024 < 1500 <= Z.of_nat N * 1024 /\
    length blocks = N /\
    Forall (fun block => length block = 1024%nat) blocks /\
    concat blocks
    = FirmwareImage.data Scenarios.twoBlockImage ++ repeat 0xFF (N * 1024 - 1500).
Proof.
  destruct (C5_blocks_of_an_image
              Scenarios.twoBlocksAccepted Scenarios.twoBlockImage 0 1500
              Scenarios.connected
              (snd (flashImage Scenarios.twoBlocksAccepted
                               Scenarios.twoBlockImage 0 1500
                               Scenarios.connected)))
    as (N & blocks & Hn & Hlen & _ & Hall & Hcat).
  - discriminate.
  - vm_compute. discriminate.
  - vm_compute. reflexivity.
  - exists N, blocks. repeat split; try assumption; apply Hn.
Defined.

End BlocksWitness.

(** ** Progress values (C7) *)

Section ProgressArithmetic.
Import FlashingService TraceSpec.
Open Scope Q_scope.

Lemma Qdiv_le_compat (a b c : Q) : 0 < c -> a <= b -> a / c <= b / c.
Proof.
  intros Hc Hab. unfold Qdiv. apply Qmult_le_compat_r; [assumption|].
  apply Qlt_le_weak, Qinv_lt_0_compat, Hc.
Qed.

Lemma Sorted_app_bound (l1 l2 : list Q) (b : Q) :
  Sorted Qle l1 -> Sorted Qle l2 ->
  (forall x, In x l1 -> x <= b) -> (forall y, In y l2 -> b <= y) ->
  Sorted Qle (l1 ++ l2).
Proof.
  intros H1 H2 Hlo Hhi. induction H1 as [|x l1 Hs IH Hhd]; [assumption|].
  cbn [app]. constructor.
  - apply IH. intros y Hy. apply Hlo. now right.
  - destruct l1 as [|x' l1]; cbn [app].
    + destruct l2 as [|y l2]; constructor.
      apply Qle_trans with b; [apply Hlo | apply Hhi]; now left.
    + constructor. now inversion Hhd.
Qed.

Lemma Sorted_app_l (l1 l2 : list Q) : Sorted Qle (l1 ++ l2) -> Sorted Qle l1.
Proof.
  induction l1 as [|x l1 IH]; intros H; [constructor|].
  cbn [app] in H. inversion H as [|? ? Hs Hhd]; subst. constructor.
  - now apply IH.
  - destruct l1; constructor. now inversion Hhd.
Qed.

Lemma Sorted_map_seq (f : nat -> Q) : forall n k,
  (forall i, (k <= i)%nat -> (S i < k + n)%nat -> f i <= f (S i)) ->
  Sorted Qle (map f (seq k n)).
Proof.
  induction n as [|n IH]; intros k Hf; cbn [seq map]; constructor.
  - apply IH. intros i Hi Hj. apply Hf; lia.
  - destruct n; cbn [seq map]; constructor. apply Hf; lia.
Qed.

Section OneImage.
Variables bf sz nb tot : Z.
Hypothesis nb_pos : (0 < nb)%Z.
Hypothesis sz_nonneg : (0 <= sz)%Z.
Hypothesis tot_pos : (0 < tot)%Z.

Lemma inject_pos z : (0 < z)%Z -> 0 < inject_Z z.
Proof.
  intros H. change (inject_Z 0 < inject_Z z).
  now rewrite <- Zlt_Qlt.
Qed.

Lemma inject_nonneg z : (0 <= z)%Z -> 0 <= inject_Z z.
Proof.
  intros H. change (inject_Z 0 <= inject_Z z).
  now rewrite <- Zle_Qle.
Qed.

Lemma progressAt_mono k k' :
  (k <= k')%Z -> progressAt bf sz nb tot k <= progressAt bf sz nb tot k'.
Proof.
  intros Hk. unfold progressAt.
  apply Qdiv_le_compat; [now apply inject_pos|].
  apply Qplus_le_compat; [apply Qle_refl|].
  apply Qmult_le_compat_r; [|now apply inject_nonneg].
  apply Qdiv_le_compat; [now apply inject_pos|].
  rewrite <- Zle_Qle. lia.
Qed.

Lemma progressAt_lower k :
  (0 <= k + 1)%Z -> inject_Z bf / inject_Z tot <= progressAt bf sz nb tot k.
Proof.
  intros Hk. unfold progressAt.
  apply Qdiv_le_compat; [now apply inject_pos|].
  rewrite <- (Qplus_0_r (inject_Z bf)) at 1.
  apply Qplus_le_compat; [apply Qle_refl|].
  apply Qmult_le_0_compat; [|now apply inject_nonneg].
  apply Qle_shift_div_l; [now apply inject_pos|].
  rewrite Qmult_0_l. now apply inject_nonneg.
Qed.

Lemma progressAt_upper k :
  (k + 1 <= nb)%Z ->
  progressAt bf sz nb tot k <= inject_Z (bf + sz) / inject_Z tot.
Proof.
  intros Hk. unfold progressAt.
  apply Qdiv_le_compat; [now apply inject_pos|].
  rewrite (inject_Z_plus bf sz).
  apply Qplus_le_compat; [apply Qle_refl|].
  rewrite <- (Qmult_1_l (inject_Z sz)) at 2.
  apply Qmult_le_compat_r; [|now apply inject_nonneg].
  apply Qle_shift_div_r; [now apply inject_pos|].
  rewrite Qmult_1_l. now rewrite <- Zle_Qle.
Qed.

Lemma progressAt_last :
  (bf + sz = tot)%Z -> progressAt bf sz nb tot (nb - 1) == 1.
Proof.
  intros Htot. unfold progressAt.
  replace (nb - 1 + 1)%Z with nb by lia.
  assert (Hnb : ~ inject_Z nb == 0).
  { intros H. pose proof (inject_pos nb nb_pos) as Hp.
    rewrite H in Hp. now apply Qlt_irrefl in Hp. }
  assert (Htp : ~ inject_Z tot == 0).
  { intros H. pose proof (inject_pos tot tot_pos) as Hp.
    rewrite H in Hp. now apply Qlt_irrefl in Hp. }
  unfold Qdiv at 2. rewrite Qmult_inv_r by assumption.
  rewrite Qmult_1_l, <- inject_Z_plus, Htot.
  unfold Qdiv. now apply Qmult_inv_r.
Qed.

End OneImage.

End ProgressArithmetic.

Section ExpectedProgress.
Import FlashingService TraceSpec.

Lemma overallProgressOf_progressAt image nb bf tot k :
  (0 <= k)%Z -> (k + 1 <= INT_MAX)%Z ->
  overallProgressOf image nb bf tot k
  = progressAt bf (FirmwareImage.size image) nb tot k.
Proof.
  intros H0 H1. unfold overallProgressOf, progressAt.
  rewrite wrapInt_small by (unfold INT_MAX in *; lia). reflexivity.
Qed.

(** The values of one image are sorted and lie between the progress
    before the image and the progress after it. *)
Lemma imageProgress_facts image bf tot :
  FirmwareImage.data image <> [] ->
  (FirmwareImage.size image + 1024 <= INT_MAX)%Z ->
  (0 < tot)%Z ->
  let sz := FirmwareImage.size image in
  Sorted Qle (imageProgress image bf tot) /\
  (forall y, In y (imageProgress image bf tot) ->
     (inject_Z bf / inject_Z tot <= y
      /\ y <= inject_Z (bf + sz) / inject_Z tot)%Q) /\
  ((bf + sz = tot)%Z ->
   exists l v, imageProgress image bf tot = l ++ [v] /\ (v == 1)%Q).
Proof.
  intros Hne Hfit Htot sz.
  pose proof (N_ceiling image Hne Hfit) as [[Hlo Hhi] HN].
  pose proof (numBlocksOf_N image Hne Hfit) as HnbN.
  assert (Hsz : sz = Z.of_nat (length (FirmwareImage.data image)))
    by reflexivity.
  assert (Hszpos : (0 <= sz)%Z) by lia.
  assert (Hnbpos : (0 < numBlocksOf image)%Z) by lia.
  assert (Hsmall : (Z.of_nat (Z.to_nat (numBlocksOf image)) <= INT_MAX)%Z)
    by (unfold INT_MAX in *; fold sz in Hfit; lia).
  assert (Heq : imageProgress image bf tot
                = map (fun k => progressAt bf sz (numBlocksOf image) tot
                                           (Z.of_nat k))
                      (seq 0 (Z.to_nat (numBlocksOf image)))).
  { unfold imageProgress. apply map_ext_in. intros k Hk.
    apply in_seq in Hk. apply overallProgressOf_progressAt; lia. }
  rewrite Heq. split; [|split].
  - apply Sorted_map_seq. intros i _ _.
    apply progressAt_mono; try assumption. lia.
  - intros y Hy. apply in_map_iff in Hy as (k & <- & Hk).
    apply in_seq in Hk. split.
    + apply progressAt_lower; try assumption. lia.
    + apply progressAt_upper; try assumption. lia.
  - intros Hsum.
    destruct (Z.to_nat (numBlocksOf image)) as [|n] eqn:En; [lia|].
    rewrite seq_S, map_app. cbn [map Nat.add].
    eexists _, _. split; [reflexivity|].
    replace (Z.of_nat n) with (numBlocksOf image - 1)%Z by lia.
    now apply progressAt_last.
Qed.

Lemma expectedProgress_facts : forall images bf tot,
  Forall (fun image => FirmwareImage.data image <> []) images ->
  (0 <= bf)%Z -> (bf + sumSizes images = tot)%Z ->
  (tot + 1024 <= INT_MAX)%Z ->
  Sorted Qle (expectedProgress images bf tot) /\
  (forall y, In y (expectedProgress images bf tot) ->
     (inject_Z bf / inject_Z tot <= y)%Q) /\
  (images <> [] ->
   exists l v, expectedProgress images bf tot = l ++ [v] /\ (v == 1)%Q).
Proof.
  induction images as [|image rest IH]; intros bf tot Hall Hbf Hsum Hfit.
  - cbn. split; [constructor|]. split; [intros y []|congruence].
  - apply Forall_cons_iff in Hall as [Hne Hrest].
    cbn [sumSizes] in Hsum. cbn [expectedProgress].
    set (sz := FirmwareImage.size image) in *.
    assert (Hszpos : (0 < sz)%Z).
    { subst sz. unfold FirmwareImage.size, size.
      destruct (FirmwareImage.data image); [congruence | cbn; lia]. }
    assert (Hrestpos : (0 <= sumSizes rest)%Z).
    { clear. induction rest as [|i r IHr]; cbn; [lia|].
      unfold FirmwareImage.size, size. lia. }
    assert (Htot : (0 < tot)%Z) by lia.
    assert (Hfit1 : (sz + 1024 <= INT_MAX)%Z) by lia.
    rewrite wrapInt_small by (unfold INT_MAX in *; lia).
    destruct (imageProgress_facts image bf tot Hne Hfit1 Htot)
      as (Hs1 & Hb1 & Hl1). fold sz in Hb1, Hl1.
    destruct (IH (bf + sz)%Z tot Hrest ltac:(lia) ltac:(lia) Hfit)
      as (Hs2 & Hb2 & Hl2).
    split; [|split].
    + apply Sorted_app_bound with (inject_Z (bf + sz) / inject_Z tot)%Q;
        try assumption.
      intros x Hx. apply Hb1, Hx.
    + intros y Hy. apply in_app_or in Hy as [Hy|Hy].
      * apply Hb1, Hy.
      * apply Qle_trans with (inject_Z (bf + sz) / inject_Z tot)%Q;
          [|apply Hb2, Hy].
        apply Qdiv_le_compat; [now apply inject_pos|].
        rewrite <- Zle_Qle. lia.
    + intros _. destruct rest as [|image' rest'].
      * cbn [expectedProgress]. rewrite app_nil_r.
        apply Hl1. cbn [sumSizes] in Hsum. lia.
      * destruct Hl2 as (l & v & Hlv & Hv); [congruence|].
        exists (imageProgress image bf tot ++ l), v.
        rewrite Hlv, app_assoc. now split.
Qed.

End ExpectedProgress.

Section ProgressOfTheRun.
Import FlashingService TraceSpec.
Variable w : World.

Lemma progressValues_app t1 t2 :
  progressValues (t1 ++ t2) = progressValues t1 ++ progressValues t2.
Proof. apply flat_map_app. Qed.

Lemma progressValues_notFlashing t :
  Forall notFlashing t -> progressValues t = [].
Proof.
  induction 1 as [|a t Ha _ IH]; [reflexivity|].
  cbn [progressValues flat_map]. fold (progressValues t).
  rewrite IH, Ha. reflexivity.
Qed.

Lemma notFlashing_quiet a : quiet a = true -> notFlashing a.
Proof.
  unfold notFlashing. destruct a; try reflexivity. cbn.
  destruct (FlashingState.type state); try reflexivity; discriminate.
Qed.

Lemma notFlashing_write bytes ok : notFlashing (AWrite bytes ok).
Proof. reflexivity. Qed.

Lemma notFlashing_poll site b : notFlashing (APoll site b).
Proof. reflexivity. Qed.

Local Hint Resolve notFlashing_quiet notFlashing_write notFlashing_poll
  : core.

Lemma emitsProgress_none {A} (m : M A) :
  sound w notFlashing m -> emitsProgress [] m.
Proof.
  intros Hm s r s' H. destruct (Hm _ _ _ H) as [_ (t & Ht & Hq & _)].
  exists []. rewrite Ht, progressValues_app,
    (progressValues_notFlashing t Hq).
  split; [reflexivity|]. split; [now exists []|reflexivity].
Qed.

Lemma emitsProgress_bind {A B} l1 l2 (m : M A) (k : A -> M B) :
  emitsProgress l1 m -> (forall a, emitsProgress l2 (k a)) ->
  emitsProgress (l1 ++ l2) (bind m k).
Proof.
  intros Hm Hk s r s' H.
  apply bind_inv in H as [(a & s1 & H1 & H2)|(r0 & H1 & Hst)].
  - destruct (Hm _ _ _ H1) as (l1' & Hp1 & _ & Hall1).
    destruct (Hk _ _ _ _ H2) as (l2' & Hp2 & (rest & Hrest) & Hall2).
    rewrite (Hall1 a eq_refl) in Hp1.
    exists (l1 ++ l2'). rewrite Hp2, Hp1, app_assoc.
    split; [reflexivity|]. split.
    + exists rest. rewrite Hrest, app_assoc. reflexivity.
    + intros b Hb. f_equal. eapply Hall2, Hb.
  - destruct (Hm _ _ _ H1) as (l1' & Hp1 & (rest & Hrest) & _).
    exists l1'. split; [assumption|]. split.
    + exists (rest ++ l2). rewrite Hrest, app_assoc. reflexivity.
    + intros b ->. inversion Hst.
Qed.

Lemma emitsProgress_flashing p :
  emitsProgress [p] (emit (FlashingState.flashing p)).
Proof.
  intros s r s' H. inversion H; subst. cbn [trace].
  exists [p]. rewrite progressValues_app.
  split; [reflexivity|]. split; [now exists []|reflexivity].
Qed.

Ltac quiet_step :=
  apply emitsProgress_none;
  first [ apply sound_throwIfCancelled | apply sound_flashData
        | apply sound_flashBegin | apply sound_sleepMs
        | apply sound_emit | apply sound_connectAndSync
        | apply sound_changeBaudRate | apply sound_spiAttach
        | apply sound_ret ];
  intros; auto.

Lemma numBlocks_small image :
  Z.of_nat (Z.to_nat (numBlocksOf image)) + 1 <= INT_MAX.
Proof.
  unfold numBlocksOf, ESP32Protocol.FLASH_BLOCK_SIZE. cbv zeta.
  set (v := wrapInt (FirmwareImage.size image + 1024) - 1).
  assert (Hw : wrapInt v <= 2 ^ 31 - 1).
  { unfold wrapInt.
    pose proof (Z.mod_pos_bound (v + 2 ^ 31) (2 ^ 32) ltac:(lia)). lia. }
  pose proof (Z.quot_le_mono (wrapInt v) (2 ^ 31 - 1) 1024
                             ltac:(lia) Hw) as Hq.
  change ((2 ^ 31 - 1) ÷ 1024) with 2097151 in Hq.
  unfold INT_MAX. lia.
Qed.

Lemma emitsProgress_blockLoop image nb bf tot : forall remaining k,
  Z.of_nat (k + remaining) <= INT_MAX ->
  emitsProgress
    (map (fun j => overallProgressOf image nb bf tot (Z.of_nat j))
         (seq k remaining))
    (blockLoop w image nb bf tot remaining (Z.of_nat k)).
Proof.
  induction remaining as [|remaining IH]; intros k Hk;
    cbn [blockLoop seq map].
  - quiet_step.
  - apply (emitsProgress_bind [] (_ :: _)); [quiet_step|]. intros _.
    cbv zeta.
    apply (emitsProgress_bind [_] _); [apply emitsProgress_flashing|].
    intros _.
    apply (emitsProgress_bind [] _); [quiet_step|]. intros _.
    apply (emitsProgress_bind [] _); [quiet_step|]. intros _.
    rewrite wrapInt_small by (unfold INT_MAX in *; lia).
    replace (Z.of_nat k + 1) with (Z.of_nat (S k)) by lia.
    apply IH. lia.
Qed.

Lemma emitsProgress_flashImage image bf tot :
  emitsProgress (imageProgress image bf tot) (flashImage w image bf tot).
Proof.
  unfold flashImage, imageProgress.
  apply (emitsProgress_bind [] _); [quiet_step|]. intros _. cbv zeta.
  apply (emitsProgress_bind [] _); [quiet_step; reflexivity|]. intros _.
  apply (emitsProgress_bind [] _); [quiet_step|]. intros _.
  apply (emitsProgress_blockLoop image _ _ _ _ 0%nat).
  pose proof (numBlocks_small image). cbn [Nat.add]. lia.
Qed.

Lemma emitsProgress_imagesLoop tot : forall images bf,
  emitsProgress (expectedProgress images bf tot)
                (imagesLoop w images bf tot).
Proof.
  induction images as [|image rest IH]; intros bf;
    cbn [imagesLoop expectedProgress].
  - quiet_step.
  - apply emitsProgress_bind; [apply emitsProgress_flashImage|].
    intros _. apply IH.
Qed.

Lemma emitsProgress_beforeFlashEnd fw port baud :
  emitsProgress
    (expectedProgress (FirmwareFile.images fw) 0 (FirmwareFile.totalSize fw))
    (beforeFlashEnd w fw port baud).
Proof.
  unfold beforeFlashEnd.
  apply (emitsProgress_bind [] _); [quiet_step|]. intros _.
  apply (emitsProgress_bind [] _).
  { destruct (negb (isBaud115200 baud)); [|quiet_step].
    apply (emitsProgress_bind [] []); [quiet_step; reflexivity|].
    intros _. quiet_step. }
  intros _.
  apply (emitsProgress_bind [] _); [quiet_step|]. intros _.
  rewrite <- (app_nil_r (expectedProgress _ _ _)).
  apply emitsProgress_bind; [apply emitsProgress_imagesLoop|]. intros _.
  apply (emitsProgress_bind [] []); [quiet_step; reflexivity|]. intros _.
  apply (emitsProgress_bind [] []); [quiet_step|]. intros _.
  quiet_step; reflexivity.
Qed.

Lemma totalSize_sum images : forall acc,
  0 <= acc -> acc + sumSizes images <= INT_MAX ->
  fold_left (fun total image => wrapInt (total + FirmwareImage.size image))
            images acc
  = acc + sumSizes images.
Proof.
  induction images as [|image rest IH]; intros acc Hacc Hfit;
    cbn [fold_left sumSizes] in *; [lia|].
  assert (Hrest : 0 <= sumSizes rest).
  { clear. induction rest as [|i r IHr]; cbn; [lia|].
    unfold FirmwareImage.size, size. lia. }
  assert (Hsz : 0 <= FirmwareImage.size image)
    by (unfold FirmwareImage.size, size; lia).
  rewrite wrapInt_small by (unfold INT_MAX in *; lia).
  rewrite IH by lia. lia.
Qed.

(** The handler emits no [Flashing] event, and its last event is an
    [Error]. *)
Lemma handler_progress e s r s' :
  handler w e s = (r, s') ->
  progressValues (trace s') = progressValues (trace s) /\
  exists st, lastEmit (trace s') = Some st /\
             FlashingState.type st = FlashingState.Error.
Proof.
  intros H.
  apply handler_spec in H as (_ & _ & _ & pre & st & Ht & Hpre & Hty & _).
  rewrite Ht. split.
  - rewrite !progressValues_app.
    replace (progressValues pre) with (@nil Q)
      by (destruct Hpre as [->| ->]; reflexivity).
    cbn [progressValues flat_map progressOfAction app]. rewrite Hty.
    now rewrite app_nil_r.
  - exists st. split; [apply lastEmit_handler | exact Hty].
Qed.

(** A stage that reports no [Complete] does not leave it as the last
    report. *)
Lemma lastEmit_notComplete t :
  Forall notComplete t -> lastEmit t <> Some FlashingState.complete.
Proof.
  induction t as [|a t IH] using rev_ind; [discriminate|].
  intros Hall. apply Forall_app in Hall as [Ht Ha].
  inversion Ha as [|? ? Hn _]; subst.
  unfold lastEmit in *. rewrite emitsOf_app, map_app.
  destruct a; cbn [emitsOf flat_map map app]; rewrite ?app_nil_r; auto.
  rewrite last_last. intros Hc. inversion Hc; subst. now apply Hn.
Qed.

(** C7. For a bundle whose images are all non-empty (and small enough
    for the [int] arithmetic of the loop), the progress values of the
    [Flashing] events of a run, in the order of their emission, are
    non-decreasing -- within an image and from one image to the next --
    whatever the device and the user do; and when the run completes, the
    last of them equals 1. *)
Theorem C7_progress_non_decreasing :
  forall (firmware : FirmwareFile.t) (port : SerialPort.t)
         (baudRate : BaudRate),
    Forall (fun image => FirmwareImage.data image <> [])
           (FirmwareFile.images firmware) ->
    sumSizes (FirmwareFile.images firmware) + 1024 <= INT_MAX ->
    let final := runFlashing w firmware port baudRate in
    Sorted Qle (progressValues (trace final)) /\
    (lastEmit (trace final) = Some FlashingState.complete ->
     FirmwareFile.images firmware <> [] ->
     exists l v, progressValues (trace final) = l ++ [v] /\ (v == 1)%Q).
Proof.
  intros firmware port baudRate Hne Hfit final.
  assert (Htot : FirmwareFile.totalSize firmware
                 = sumSizes (FirmwareFile.images firmware)).
  { unfold FirmwareFile.totalSize, FirmwareFile.images in *.
    rewrite totalSize_sum; unfold INT_MAX in *; lia. }
  destruct (expectedProgress_facts
              (FirmwareFile.images firmware) 0
              (FirmwareFile.totalSize firmware) Hne ltac:(lia)
              ltac:(lia) ltac:(lia)) as (Hsorted & _ & Hlast).
  subst final. rewrite runFlashing_unfold.
  destruct (beforeFlashEnd w firmware port baudRate initial)
    as [[u|e|] s1] eqn:Epre;
    destruct (emitsProgress_beforeFlashEnd _ _ _ _ _ _ Epre)
      as (l' & Hp & (rest & Hrest) & Hall);
    cbn [trace initial progressValues flat_map app] in Hp.
  - (* the images were streamed in full *)
    rewrite (Hall u eq_refl) in Hp.
    destruct (fromFlashEnd w port s1) as [r2 s2] eqn:Epost.
    assert (Hquiet : sound w notFlashing (fromFlashEnd w port))
      by (apply sound_fromFlashEnd; intros; auto).
    destruct (Hquiet _ _ _ Epost) as [_ (t & Ht & Hq & _)].
    assert (Hp2 : progressValues (trace s2)
                  = expectedProgress (FirmwareFile.images firmware) 0
                                     (FirmwareFile.totalSize firmware)).
    { rewrite Ht, progressValues_app, Hp,
        (progressValues_notFlashing t Hq). apply app_nil_r. }
    destruct r2 as [u2|e2|].
    + rewrite Hp2. split; [assumption|]. intros _ Himg. now apply Hlast.
    + destruct (handler w e2 s2) as [r3 s3] eqn:Eh. cbn [snd].
      apply handler_progress in Eh as [Hp3 _]. rewrite Hp3, Hp2.
      split; [assumption|]. intros _ Himg. now apply Hlast.
    + rewrite Hp2. split; [assumption|]. intros _ Himg. now apply Hlast.
  - (* the run was cut short *)
    destruct (handler w e s1) as [r3 s3] eqn:Eh. cbn [snd].
    apply handler_progress in Eh as [Hp3 (st & Hst & Hty)].
    rewrite Hp3, Hp. split.
    + rewrite Hrest in Hsorted. now apply Sorted_app_l in Hsorted.
    + rewrite Hst. intros Hc. inversion Hc; subst. discriminate.
  - (* a write does not return *)
    rewrite Hp. split.
    + rewrite Hrest in Hsorted. now apply Sorted_app_l in Hsorted.
    + intros Hc. exfalso.
      destruct (steady_beforeFlashEnd w _ _ _ _ _ _ Epre)
        as (_ & t & Ht & Hn & _).
      cbn [trace initial app] in Ht. rewrite Ht in Hc.
      exact (lastEmit_notComplete _ Hn Hc).
Qed.

End ProgressOfTheRun.

Section ProgressWitness.
Import FlashingService TraceSpec.

Lemma C7_progress_non_decreasing_witness :
  let final :=
    runFlashing Scenarios.bundleAccepted Scenarios.bundle
                Scenarios.classicPort Baud115200 in
  Sorted Qle (progressValues (trace final)) /\
  exists l v, progressValues (trace final) = l ++ [v] /\ (v == 1)%Q.
Proof.
  cbv zeta.
  destruct (C7_progress_non_decreasing
              Scenarios.bundleAccepted Scenarios.bundle
              Scenarios.classicPort Baud115200)
    as [Hsorted Hlast].
  - repeat constructor; discriminate.
  - vm_compute. discriminate.
  - split; [exact Hsorted|]. apply Hlast.
    + vm_compute. reflexivity.
    + discriminate.
Defined.

End ProgressWitness.

Section OffsetWitness.
Import FirmwareFile.
Open Scope string_scope.

Lemma C6_single_file_offset_witness :
  exists image,
    images (fromFile "/builds/esp32-Merged.bin" [0xE9]) = [image] /\
    FirmwareImage.offset image = 0x0000%Z.
Proof.
  destruct C6_single_file_offset as [Hgen _].
  destruct (Hgen "/builds/esp32-Merged.bin" [0xE9])
    as (image & Himg & _ & _ & Hmarked & _).
  exists image. split; [exact Himg|]. apply Hmarked.
  exists "merged", "esp32-", ".bin". split; [now left | reflexivity].
Defined.

End OffsetWitness.

(* ================================================================== *)
(** * Part III.  Further properties of the code                        *)
(* ================================================================== *)

(** ** The framing codec *)

Section FramingMore.
Import SLIPCodec SLIPDecoder.

Lemma escapeByte_NoEnd b : NoEnd (escapeByte b).
Proof.
  unfold escapeByte, NoEnd.
  destruct (b =? FRAME_END) eqn:E1; [repeat constructor; discriminate|].
  destruct (b =? FRAME_ESCAPE) eqn:E2; [repeat constructor; discriminate|].
  constructor; [|constructor]. now apply Z.eqb_neq.
Qed.

Lemma escaped_NoEnd x : NoEnd (flat_map escapeByte x).
Proof.
  induction x as [|b x IH]; cbn [flat_map]; [constructor|].
  apply Forall_app. split; [apply escapeByte_NoEnd | exact IH].
Qed.

Lemma length_escapeByte b : (1 <= length (escapeByte b) <= 2)%nat.
Proof.
  unfold escapeByte.
  destruct (b =? FRAME_END); [cbn; lia|].
  destruct (b =? FRAME_ESCAPE); cbn; lia.
Qed.

Lemma length_escaped x :
  (length x <= length (flat_map escapeByte x) <= 2 * length x)%nat.
Proof.
  induction x as [|b x IH]; cbn [flat_map length]; [lia|].
  rewrite length_app. pose proof (length_escapeByte b). lia.
Qed.

(** X1. An encoded frame starts and ends with the delimiter and has no
    delimiter in between; it is at least 2 bytes and at most [2 * n + 2]
    bytes long for a payload of [n] bytes (the capacity [encode]
    reserves). *)
Theorem X1_encode_is_delimited :
  forall x : QByteArray,
    exists body,
      encode x = FRAME_END :: body ++ [FRAME_END] /\
      NoEnd body /\
      (length x + 2 <= length (encode x) <= 2 * length x + 2)%nat.
Proof.
  intros x. exists (flat_map escapeByte x). rewrite encode_shape.
  split; [reflexivity|]. split; [apply escaped_NoEnd|].
  cbn [length]. rewrite length_app. cbn [length].
  pose proof (length_escaped x). lia.
Qed.

(** The loop of [process] threads its accumulator. *)
Lemma processLoop_acc data : forall d packets,
  processLoop d data packets
  = (packets ++ fst (processLoop d data []), snd (processLoop d data [])).
Proof.
  induction data as [|b data IH]; intros d packets; cbn [processLoop].
  - now rewrite app_nil_r.
  - destruct (processByte d b) as [packet d'].
    destruct (negb (isEmpty packet)).
    + rewrite (IH d' (packets ++ [packet])), (IH d' ([] ++ [packet])).
      cbn [fst snd app]. now rewrite <- app_assoc.
    + apply IH.
Qed.

Lemma processLoop_app a : forall b d packets,
  processLoop d (a ++ b) packets
  = processLoop (snd (processLoop d a packets)) b
                (fst (processLoop d a packets)).
Proof.
  induction a as [|x a IH]; intros b d packets; cbn [app processLoop].
  - reflexivity.
  - destruct (processByte d x) as [packet d'].
    destruct (negb (isEmpty packet)); apply IH.
Qed.

Lemma process_app (d : SLIPDecoder.t) (a b : QByteArray) :
  process d (a ++ b)
  = (fst (process d a) ++ fst (process (snd (process d a)) b),
     snd (process (snd (process d a)) b)).
Proof.
  unfold process. rewrite processLoop_app, processLoop_acc. reflexivity.
Qed.

(** X2. The streaming decoder does not depend on how the byte stream is cut
    into reads: processing [a ++ b] at once gives the frames of [a]
    followed by the frames of [b] processed from the state [a] left, and
    the same final state. *)
Theorem X2_process_is_chunking_independent :
  forall (d : SLIPDecoder.t) (a b : QByteArray),
    process d (a ++ b)
    = (fst (process d a) ++ fst (process (snd (process d a)) b),
       snd (process (snd (process d a)) b)).
Proof.
  intros d a b. unfold process.
  rewrite (processLoop_app a b d []).
  rewrite (processLoop_acc b (snd (processLoop d a []))
                           (fst (processLoop d a []))).
  reflexivity.
Qed.

Lemma process_junk junk :
  NoEnd junk -> process reset junk = ([], reset).
Proof.
  unfold process. induction 1 as [|b junk Hb _ IH]; [reflexivity|].
  cbn [processLoop]. unfold processByte. apply Z.eqb_neq in Hb.
  rewrite Hb. cbn [m_packetStarted reset negb].
  destruct (b =? FRAME_ESCAPE); cbn [isEmpty negb]; exact IH.
Qed.

Lemma process_encode x : x <> [] -> process reset (encode x) = ([x], reset).
Proof.
  intros Hx. rewrite encode_shape. unfold process.
  cbn [processLoop]. unfold processByte at 1. cbn.
  rewrite processLoop_escaped. cbn [app processLoop].
  unfold processByte. cbn. rewrite (isEmpty_false x Hx). cbn.
  rewrite (isEmpty_false x Hx). reflexivity.
Qed.

Lemma process_frames frames :
  Forall (fun x => x <> []) frames ->
  process reset (concat (map encode frames)) = (frames, reset).
Proof.
  induction 1 as [|x frames Hx _ IH]; [reflexivity|].
  cbn [map concat]. rewrite process_app.
  rewrite (process_encode x Hx). cbn [fst snd]. rewrite IH. reflexivity.
Qed.

(** X3. A stream made of noise without delimiter followed by any number of
    encoded non-empty frames decodes to exactly these frames, in the order
    of arrival, and leaves the decoder in its reset state. *)
Theorem X3_stream_of_frames :
  forall (junk : QByteArray) (frames : list QByteArray),
    NoEnd junk -> Forall (fun x => x <> []) frames ->
    process reset (junk ++ concat (map encode frames)) = (frames, reset).
Proof.
  intros junk frames Hj Hf.
  rewrite process_app, (process_junk junk Hj). cbn [fst snd app].
  now rewrite (process_frames frames Hf).
Qed.

Lemma X3_stream_of_frames_witness :
  process reset ([0x00; 0x41] ++ concat (map encode [[0xC0; 0x01]; [0xDB]]))
  = ([[0xC0; 0x01]; [0xDB]], reset).
Proof.
  apply (X3_stream_of_frames [0x00; 0x41] [[0xC0; 0x01]; [0xDB]]).
  - repeat constructor; discriminate.
  - repeat constructor; discriminate.
Defined.

End FramingMore.

(** ** The command packets *)

Section PacketsMore.
Import ESP32Protocol ESP32Response.

Lemma land_255 v : Z.land v 0xFF = v mod 256.
Proof. change 0xFF with (Z.ones 8). now rewrite Z.land_ones by lia. Qed.

Lemma byte_of_land v k : isByte (Z.land (Z.shiftr v k) 0xFF).
Proof.
  rewrite land_255. unfold isByte. apply Z.mod_pos_bound. lia.
Qed.

Lemma isByte_land v : isByte (Z.land v 0xFF).
Proof. rewrite land_255. unfold isByte. apply Z.mod_pos_bound. lia. Qed.

(** The four bytes [appendLE32] writes, as numbers. *)
Lemma le32_bytes v :
  Z.land v 0xFF + 2 ^ 8 * Z.land (Z.shiftr v 8) 0xFF
  + 2 ^ 16 * Z.land (Z.shiftr v 16) 0xFF
  + 2 ^ 24 * Z.land (Z.shiftr v 24) 0xFF
  = v mod 2 ^ 32.
Proof.
  rewrite !land_255, !Z.shiftr_div_pow2 by lia.
  change (2 ^ 8) with 256. change (2 ^ 16) with 65536.
  change (2 ^ 24) with 16777216. change (2 ^ 32) with 4294967296.
  Z.div_mod_to_equations. lia.
Qed.

Lemma le16_bytes v :
  Z.land v 0xFF + 256 * Z.land (Z.shiftr v 8) 0xFF = v mod 2 ^ 16.
Proof.
  rewrite !land_255, !Z.shiftr_div_pow2 by lia.
  change (2 ^ 8) with 256. change (2 ^ 16) with 65536.
  Z.div_mod_to_equations. lia.
Qed.

Lemma readLE32_at (pre post : QByteArray) b0 b1 b2 b3 :
  isByte b0 -> isByte b1 -> isByte b2 -> isByte b3 ->
  readLE32 (pre ++ b0 :: b1 :: b2 :: b3 :: post) (length pre)
  = b0 + 2 ^ 8 * b1 + 2 ^ 16 * b2 + 2 ^ 24 * b3.
Proof.
  intros H0 H1 H2 H3. unfold readLE32, at_, wrap32.
  rewrite !app_nth2 by lia.
  replace (length pre - length pre)%nat with 0%nat by lia.
  replace (length pre + 1 - length pre)%nat with 1%nat by lia.
  replace (length pre + 2 - length pre)%nat with 2%nat by lia.
  replace (length pre + 3 - length pre)%nat with 3%nat by lia.
  cbn [nth]. unfold isByte in *.
  rewrite (lor_shiftl_add _ _ 8) by lia.
  rewrite (lor_shiftl_add _ _ 16) by lia.
  rewrite (lor_shiftl_add _ _ 24) by lia.
  rewrite Z.mod_small; lia.
Qed.

Lemma readLE16_at (pre post : QByteArray) b0 b1 :
  isByte b0 -> isByte b1 ->
  readLE16 (pre ++ b0 :: b1 :: post) (length pre) = b0 + 256 * b1.
Proof.
  intros H0 H1. unfold readLE16, at_, wrap16.
  rewrite !app_nth2 by lia.
  replace (length pre - length pre)%nat with 0%nat by lia.
  replace (length pre + 1 - length pre)%nat with 1%nat by lia.
  cbn [nth]. unfold isByte in *.
  rewrite (lor_shiftl_add _ _ 8) by lia.
  rewrite Z.mod_small; lia.
Qed.

Lemma readLE32_appendLE32_at (pre post : QByteArray) v :
  readLE32 (appendLE32 pre v ++ post) (length pre) = wrap32 v.
Proof.
  unfold appendLE32. rewrite <- app_assoc. cbn [app].
  rewrite readLE32_at by (apply isByte_land || apply byte_of_land).
  apply le32_bytes.
Qed.

Lemma readLE16_appendLE16_at (pre post : QByteArray) v :
  readLE16 (appendLE16 pre v ++ post) (length pre) = wrap16 v.
Proof.
  unfold appendLE16. rewrite <- app_assoc. cbn [app].
  rewrite readLE16_at by (apply isByte_land || apply byte_of_land).
  apply le16_bytes.
Qed.

Lemma isByte_appendLE32 (pre : QByteArray) v :
  Forall isByte pre -> Forall isByte (appendLE32 pre v).
Proof.
  intros H. unfold appendLE32. apply Forall_app. split; [assumption|].
  repeat constructor; apply isByte_land || apply byte_of_land.
Qed.

Lemma isByte_appendLE16 (pre : QByteArray) v :
  Forall isByte pre -> Forall isByte (appendLE16 pre v).
Proof.
  intros H. unfold appendLE16. apply Forall_app. split; [assumption|].
  repeat constructor; apply isByte_land || apply byte_of_land.
Qed.

Lemma length_appendLE32 (pre : QByteArray) v :
  length (appendLE32 pre v) = (length pre + 4)%nat.
Proof. unfold appendLE32. now rewrite length_app. Qed.

(** X4. The little-endian writers and readers are inverse to each other:
    reading at the place where a 32-bit (16-bit) word was appended gives the
    word back, reduced to 32 (16) bits; the bytes written are in range and
    whatever follows or precedes the word does not matter. *)
Theorem X4_little_endian_roundtrip :
  forall (pre post : QByteArray) (v : Z),
    readLE32 (appendLE32 pre v ++ post) (length pre) = v mod 2 ^ 32 /\
    readLE16 (appendLE16 pre v ++ post) (length pre) = v mod 2 ^ 16 /\
    (Forall isByte pre -> Forall isByte (appendLE32 pre v)) /\
    (Forall isByte pre -> Forall isByte (appendLE16 pre v)).
Proof.
  intros pre post v. repeat split.
  - apply readLE32_appendLE32_at.
  - apply readLE16_appendLE16_at.
  - apply isByte_appendLE32.
  - apply isByte_appendLE16.
Qed.

Lemma X4_little_endian_roundtrip_witness :
  readLE32 (appendLE32 [0x01; 0x02] 0x12345678 ++ [0xFF]) 2 = 0x12345678 /\
  Forall isByte (appendLE32 [0x01; 0x02] 0x12345678).
Proof.
  destruct (X4_little_endian_roundtrip [0x01; 0x02] [0xFF] 0x12345678)
    as (H32 & _ & Hb & _).
  split; [exact H32|]. apply Hb. repeat constructor; unfold isByte; lia.
Defined.

(** The header of a command packet. *)
Lemma buildPacket_unfold command payload checksum :
  buildPacket command payload checksum
  = appendLE32 (appendLE16 [0x00; commandCode command]
                           (wrap16 (size payload))) checksum
    ++ payload.
Proof. reflexivity. Qed.

Lemma buildPacket_size command payload checksum :
  readLE16 (buildPacket command payload checksum) 2
  = size payload mod 2 ^ 16.
Proof.
  rewrite buildPacket_unfold. unfold appendLE32. rewrite <- !app_assoc.
  rewrite (readLE16_appendLE16_at [0x00; commandCode command]).
  unfold wrap16. now rewrite Z.mod_mod by lia.
Qed.

Lemma buildPacket_checksum command payload checksum :
  readLE32 (buildPacket command payload checksum) 4 = checksum mod 2 ^ 32.
Proof.
  rewrite buildPacket_unfold.
  apply (readLE32_appendLE32_at
           (appendLE16 [0x00; commandCode command] (wrap16 (size payload)))).
Qed.

Lemma buildPacket_payload command payload checksum :
  skipn 8 (buildPacket command payload checksum) = payload.
Proof. reflexivity. Qed.

Lemma buildPacket_length command payload checksum :
  length (buildPacket command payload checksum) = (8 + length payload)%nat.
Proof. reflexivity. Qed.

(** X5. The layout of a command packet, read back with the readers of the
    response parser: 8 header bytes followed by the payload; byte 0 is the
    request direction 0 and byte 1 the opcode; the 16-bit field at 2 is
    the payload length and the 32-bit field at 4 the checksum (both
    reduced to their width).  Having direction 0, a command packet is
    never taken for a response. *)
Theorem X5_command_packet_layout :
  forall (command : ESP32Command) (payload : QByteArray) (checksum : Z),
    let packet := buildPacket command payload checksum in
    length packet = (8 + length payload)%nat /\
    at_ packet 0 = 0x00 /\
    at_ packet 1 = commandCode command /\
    readLE16 packet 2 = size payload mod 2 ^ 16 /\
    readLE32 packet 4 = checksum mod 2 ^ 32 /\
    skipn 8 packet = payload /\
    parse packet = None.
Proof.
  intros command payload checksum packet. subst packet.
  repeat split.
  - apply buildPacket_size.
  - apply buildPacket_checksum.
  - unfold parse.
    destruct (size (buildPacket command payload checksum) <? 8);
      reflexivity.
Qed.

End PacketsMore.

(** ** The checksum of a data block *)

Section ChecksumMore.
Import ESP32Protocol.

Lemma lxor_byte a b : isByte a -> isByte b -> isByte (Z.lxor a b).
Proof.
  unfold isByte. intros Ha Hb.
  assert (H : 0 <= Z.lxor a b) by (apply Z.lxor_nonneg; lia).
  split; [assumption|].
  destruct (Z.eq_dec (Z.lxor a b) 0) as [->|Hnz]; [lia|].
  apply (Z.log2_lt_cancel _ 256). change (Z.log2 256) with 8.
  pose proof (Z.log2_lxor a b ltac:(lia) ltac:(lia)) as Hl.
  assert (Z.log2 a < 8).
  { destruct (Z.eq_dec a 0) as [->|]; [cbn; lia|].
    apply Z.log2_lt_pow2; lia. }
  assert (Z.log2 b < 8).
  { destruct (Z.eq_dec b 0) as [->|]; [cbn; lia|].
    apply Z.log2_lt_pow2; lia. }
  lia.
Qed.

(** On bytes the 8-bit truncation of the loop does nothing: the checksum
    is the exclusive or of the seed and all the bytes. *)
Lemma checksumLoop_xor data : forall c,
  Forall isByte data -> isByte c ->
  checksumLoop data c = fold_left Z.lxor data c /\
  isByte (checksumLoop data c).
Proof.
  induction data as [|b data IH]; intros c Hd Hc; cbn [checksumLoop fold_left].
  - split; [reflexivity | assumption].
  - apply Forall_cons_iff in Hd as [Hb Hd].
    pose proof (lxor_byte c b Hc Hb) as Hx.
    unfold wrap8. rewrite Z.mod_small by (unfold isByte in Hx; lia).
    now apply IH.
Qed.

Lemma fold_lxor data : forall c,
  fold_left Z.lxor data c = Z.lxor c (fold_left Z.lxor data 0).
Proof.
  induction data as [|b data IH]; intros c; cbn [fold_left].
  - now rewrite Z.lxor_0_r.
  - rewrite (IH (Z.lxor c b)), (IH (Z.lxor 0 b)).
    rewrite Z.lxor_0_l, Z.lxor_assoc. reflexivity.
Qed.

Lemma lxor_cancel_l a b c : Z.lxor a b = Z.lxor a c -> b = c.
Proof.
  intros H. apply (f_equal (Z.lxor a)) in H.
  now rewrite <- !Z.lxor_assoc, Z.lxor_nilpotent, !Z.lxor_0_l in H.
Qed.

Lemma lxor_cancel_r a b c : Z.lxor b a = Z.lxor c a -> b = c.
Proof. rewrite !(Z.lxor_comm _ a). apply lxor_cancel_l. Qed.

(** X6. The checksum of a block of bytes is a byte: the exclusive or of the
    seed 0xEF and all the bytes of the block.  It changes whenever exactly
    one byte of the block is replaced by a different one. *)
Theorem X6_checksum_detects_one_changed_byte :
  forall (pre post : QByteArray) (a b : Z),
    Forall isByte pre -> Forall isByte post -> isByte a -> isByte b ->
    isByte (calculateChecksum (pre ++ a :: post)) /\
    calculateChecksum (pre ++ a :: post)
    = fold_left Z.lxor (pre ++ a :: post) CHECKSUM_SEED /\
    (a <> b ->
     calculateChecksum (pre ++ a :: post)
     <> calculateChecksum (pre ++ b :: post)).
Proof.
  intros pre post a b Hpre Hpost Ha Hb.
  assert (Hseed : isByte CHECKSUM_SEED) by (unfold isByte, CHECKSUM_SEED; lia).
  assert (Hda : Forall isByte (pre ++ a :: post))
    by (apply Forall_app; split; [|constructor]; assumption).
  assert (Hdb : Forall isByte (pre ++ b :: post))
    by (apply Forall_app; split; [|constructor]; assumption).
  unfold calculateChecksum.
  destruct (checksumLoop_xor _ _ Hda Hseed) as [Ea Hra].
  destruct (checksumLoop_xor _ _ Hdb Hseed) as [Eb _].
  split; [assumption|]. split; [assumption|].
  intros Hab E. apply Hab. rewrite Ea, Eb in E.
  rewrite !fold_left_app in E. cbn [fold_left] in E.
  rewrite (fold_lxor post (Z.lxor _ a)), (fold_lxor post (Z.lxor _ b)) in E.
  apply lxor_cancel_r in E. now apply lxor_cancel_l in E.
Qed.

Lemma X6_checksum_detects_one_changed_byte_witness :
  calculateChecksum ([0xE9; 0x01] ++ 0x02 :: [0x03])
  <> calculateChecksum ([0xE9; 0x01] ++ 0x12 :: [0x03]).
Proof.
  refine (proj2 (proj2 (X6_checksum_detects_one_changed_byte
                          [0xE9; 0x01] [0x03] 0x02 0x12 _ _ _ _)) _).
  - repeat constructor; unfold isByte; lia.
  - repeat constructor; unfold isByte; lia.
  - unfold isByte; lia.
  - unfold isByte; lia.
  - discriminate.
Defined.

End ChecksumMore.

(** ** The command builders *)

Section BuildersMore.
Import ESP32Protocol PacketSpec.

Lemma calculateChecksum_byte data : isByte (calculateChecksum data).
Proof.
  unfold calculateChecksum.
  assert (H : isByte CHECKSUM_SEED) by (unfold isByte, CHECKSUM_SEED; lia).
  revert H. generalize CHECKSUM_SEED.
  induction data as [|b data IH]; intros c Hc; cbn [checksumLoop].
  - assumption.
  - apply IH. unfold wrap8, isByte. apply Z.mod_pos_bound. lia.
Qed.

Lemma wellFormed_buildPacket command payload checksum :
  Forall isByte payload -> size payload < 2 ^ 16 ->
  wellFormedRequest command (buildPacket command payload checksum).
Proof.
  intros Hb Hs. unfold wellFormedRequest.
  split; [|split; [reflexivity | split; [reflexivity|]]].
  - rewrite buildPacket_unfold. apply Forall_app. split; [|assumption].
    apply isByte_appendLE32, isByte_appendLE16.
    repeat constructor; unfold isByte; destruct command; cbn; lia.
  - rewrite buildPacket_size. unfold size in *.
    rewrite buildPacket_length, Z.mod_small; lia.
Qed.

Lemma isByte_repeat b n : isByte b -> Forall isByte (repeat b n).
Proof. intros H. induction n; cbn; constructor; assumption. Qed.

Ltac payload_bytes :=
  repeat first
    [ apply isByte_appendLE32
    | apply Forall_app; split
    | apply isByte_repeat; unfold isByte; lia
    | apply Forall_nil
    | assumption ].

Ltac payload_size :=
  unfold size; rewrite ?length_app, ?length_appendLE32, ?repeat_length;
  cbn [length]; lia.

(** X7. Every command builder produces a well-formed request: bytes only,
    direction 0, its own opcode, and a size field equal to the number of
    payload bytes that follow the header.  For [FLASH_DATA] this needs the
    block to consist of bytes and to leave room for its 16-byte
    sub-header in the 16-bit size field. *)
Theorem X7_builders_are_well_formed :
  wellFormedRequest Sync buildSyncCommand /\
  (forall config, wellFormedRequest SpiAttach (buildSpiAttachCommand config)) /\
  (forall size_ numBlocks blockSize offset encrypted,
     wellFormedRequest FlashBegin
       (buildFlashBeginCommand size_ numBlocks blockSize offset encrypted)) /\
  (forall blockData sequenceNumber,
     Forall isByte blockData -> size blockData + 16 < 2 ^ 16 ->
     wellFormedRequest FlashData
       (buildFlashDataCommand blockData sequenceNumber)) /\
  (forall reboot, wellFormedRequest FlashEnd (buildFlashEndCommand reboot)) /\
  (forall newBaud oldBaud,
     wellFormedRequest ChangeBaudRate
       (buildChangeBaudCommand newBaud oldBaud)) /\
  (forall address, wellFormedRequest ReadReg (buildReadRegCommand address)) /\
  (forall address value mask delayUs,
     wellFormedRequest WriteReg
       (buildWriteRegCommand address value mask delayUs)).
Proof.
  repeat match goal with |- _ /\ _ => split end; intros;
    unfold buildSyncCommand, buildSpiAttachCommand, buildFlashBeginCommand,
      buildFlashDataCommand, buildFlashEndCommand, buildChangeBaudCommand,
      buildReadRegCommand, buildWriteRegCommand; cbv zeta;
    apply wellFormed_buildPacket.
  all: try solve [payload_bytes].
  all: try solve [payload_size].
  - repeat constructor; unfold isByte; lia.
  - unfold size in *. rewrite !length_app, !length_appendLE32, repeat_length.
    cbn [length]. lia.
Qed.

Lemma X7_builders_are_well_formed_witness :
  wellFormedRequest FlashData (buildFlashDataCommand [0xE9; 0x00; 0xC0] 7).
Proof.
  destruct X7_builders_are_well_formed as (_ & _ & _ & H & _).
  apply H.
  - repeat constructor; unfold isByte; lia.
  - vm_compute. reflexivity.
Defined.

Lemma appendLE32_nil (pre : QByteArray) v :
  appendLE32 pre v = pre ++ appendLE32 [] v.
Proof. reflexivity. Qed.

Lemma readLE32_word (pre post : QByteArray) v n :
  length pre = n ->
  readLE32 (pre ++ appendLE32 [] v ++ post) n = wrap32 v.
Proof.
  intros <-. rewrite app_assoc, <- appendLE32_nil.
  apply readLE32_appendLE32_at.
Qed.

(** X8. A [FLASH_DATA] packet read back field by field: the size field
    counts the 16-byte sub-header and the block, the checksum field holds
    the checksum of the block alone, the sub-header holds the length of
    the block, the sequence number and eight zero bytes, and the block
    follows unchanged. *)
Theorem X8_flash_data_fields :
  forall (blockData : QByteArray) (sequenceNumber : Z),
    size blockData + 16 < 2 ^ 16 ->
    0 <= sequenceNumber < 2 ^ 32 ->
    let packet := buildFlashDataCommand blockData sequenceNumber in
    at_ packet 1 = commandCode FlashData /\
    readLE16 packet 2 = 16 + size blockData /\
    readLE32 packet 4 = calculateChecksum blockData /\
    readLE32 packet 8 = size blockData /\
    readLE32 packet 12 = sequenceNumber /\
    mid packet 16 8 = repeat 0 8 /\
    skipn 24 packet = blockData.
Proof.
  intros blockData sequenceNumber Hs Hseq packet. subst packet.
  unfold buildFlashDataCommand. cbv zeta.
  pose proof (calculateChecksum_byte blockData) as Hc. unfold isByte in Hc.
  assert (Hsz : 0 <= size blockData) by (unfold size; lia).
  split; [reflexivity|]. split; [|split; [|split; [|split; [|split]]]].
  - rewrite buildPacket_size. unfold size in *.
    rewrite !length_app, !length_appendLE32, repeat_length. cbn [length].
    rewrite Z.mod_small; lia.
  - rewrite buildPacket_checksum. rewrite Z.mod_small; lia.
  - rewrite buildPacket_unfold.
    rewrite (appendLE32_nil (appendLE32 [] _) sequenceNumber).
    rewrite <- !app_assoc.
    rewrite readLE32_word by reflexivity.
    unfold wrap32. rewrite Z.mod_mod by lia. rewrite Z.mod_small; lia.
  - rewrite buildPacket_unfold.
    rewrite (appendLE32_nil (appendLE32 [] _) sequenceNumber).
    rewrite <- !app_assoc. rewrite (app_assoc _ (appendLE32 [] (wrap32 _))).
    rewrite readLE32_word by reflexivity.
    unfold wrap32. rewrite Z.mod_small; lia.
  - reflexivity.
  - reflexivity.
Qed.

Lemma X8_flash_data_fields_witness :
  readLE32 (buildFlashDataCommand [0xE9; 0x00; 0xC0] 7) 12 = 7 /\
  skipn 24 (buildFlashDataCommand [0xE9; 0x00; 0xC0] 7) = [0xE9; 0x00; 0xC0].
Proof.
  destruct (X8_flash_data_fields [0xE9; 0x00; 0xC0] 7) as
    (_ & _ & _ & _ & H12 & _ & Hd).
  - vm_compute. reflexivity.
  - lia.
  - split; assumption.
Defined.

End BuildersMore.

(** ** Loading a firmware package *)

Section LoadingMore.
Import FirmwarePackage.
Local Open Scope string_scope.
Local Open Scope Z_scope.

Lemma append_assoc (a b c : string) : (a ++ b) ++ c = a ++ (b ++ c).
Proof. induction a as [|x a IH]; cbn; [reflexivity | now rewrite IH]. Qed.

Lemma midFrom_append (pre post : string) :
  midFrom (pre ++ post) (String.length pre) = post.
Proof. induction pre as [|x pre IH]; cbn; [now destruct post | exact IH]. Qed.

(** What the scan of [lastIndexOf] returns: the last match seen before
    when the rest holds no [c], else the position of the last [c] of the
    rest. *)
Lemma lastIndexOfFrom_spec c s : forall i found,
  (QString.occurs c s = false /\ lastIndexOfFrom c s i found = found) \/
  (exists pre post,
     s = pre ++ String c post /\ QString.occurs c post = false /\
     lastIndexOfFrom c s i found = i + Z.of_nat (String.length pre)).
Proof.
  induction s as [|b s IH]; intros i found; cbn [lastIndexOfFrom QString.occurs].
  - left. split; reflexivity.
  - destruct (IH (i + 1) (if Ascii.eqb b c then i else found))
      as [[Hno Hr]|(pre & post & Hs & Hno & Hr)].
    + destruct (Ascii.eqb b c) eqn:E.
      * right. apply Ascii.eqb_eq in E. subst b.
        exists EmptyString, s. cbn. repeat split; [assumption | lia].
      * left. rewrite Ascii.eqb_sym, E. cbn. split; assumption.
    + right. exists (String b pre), post. subst s. cbn [append String.length].
      repeat split; [assumption | lia].
Qed.

(** X9. The file name of an image is what follows the last slash of its
    path, and the whole path when it has no slash: it never contains a
    slash, and the path is the name itself or a directory part, a slash
    and the name. *)
Theorem X9_image_file_name :
  forall image : FirmwareImage.t,
    QString.occurs "/" (imageFileName image) = false /\
    (FirmwareImage.filePath image = imageFileName image \/
     exists dir,
       FirmwareImage.filePath image = dir ++ "/" ++ imageFileName image).
Proof.
  intros image. unfold imageFileName. cbv zeta.
  unfold lastIndexOf.
  destruct (lastIndexOfFrom_spec "/" (FirmwareImage.filePath image) 0 (-1))
    as [[Hno Hr]|(pre & post & Hs & Hno & Hr)]; rewrite Hr.
  - cbn. split; [assumption | now left].
  - destruct (0 + Z.of_nat (String.length pre) >=? 0) eqn:E; [|lia].
    replace (Z.to_nat (0 + Z.of_nat (String.length pre) + 1))
      with (String.length (pre ++ "/")).
    2:{ clear. induction pre as [|x pre IH]; cbn [append String.length];
          [reflexivity | lia]. }
    rewrite Hs.
    change (String "/" post) with ("/" ++ post).
    rewrite <- append_assoc, midFrom_append.
    split; [assumption|]. right. exists pre. now rewrite append_assoc.
Qed.

Lemma isCompleteLoop_single image :
  isCompleteLoop [image] false false false = false.
Proof.
  cbn. destruct (FirmwareImage.offset image =? 0) eqn:E0;
    destruct (FirmwareImage.offset image =? 32768) eqn:E1;
    destruct (FirmwareImage.offset image =? 65536) eqn:E2;
    try reflexivity; lia.
Qed.

(** X10. Loading a regular file that can be read gives a package of one
    image that holds the bytes of the file under the path given; [data()]
    returns these bytes whatever offset was inferred, the package is
    neither empty nor complete, and it is valid exactly when the file has
    at least 8 bytes and starts with the magic byte 0xE9.  A regular file
    that cannot be read is refused as [InvalidFile]. *)
Theorem X10_load_single_file :
  forall (fs : FileSystem) (filePath : string),
    isDir fs filePath = false ->
    (forall bytes,
       readAll fs filePath = Some bytes ->
       exists firmware image,
         loadFromFile fs filePath = Package firmware /\
         FirmwareFile.images firmware = [image] /\
         FirmwareImage.filePath image = filePath /\
         FirmwareImage.data image = bytes /\
         data firmware = bytes /\
         isEmpty firmware = false /\
         isComplete firmware = false /\
         fileName firmware = imageFileName image /\
         (isValid firmware = true <->
          (8 <= length bytes)%nat /\ nth 0 bytes 0 = 0xE9)) /\
    (readAll fs filePath = None ->
     loadFromFile fs filePath
     = FirmwareLoadError InvalidFile ("Cannot open file: " ++ filePath)).
Proof.
  intros fs filePath Hdir. unfold loadFromFile. rewrite Hdir. split.
  - intros bytes Hread. rewrite Hread.
    eexists _, _. split; [reflexivity|].
    unfold FirmwareFile.fromFile. cbv zeta.
    split; [reflexivity|]. split; [reflexivity|]. split; [reflexivity|].
    cbn [FirmwareFile.images FirmwareFile.m_images].
    split; [|split; [reflexivity | split; [|split; [reflexivity|]]]].
    + unfold data. cbn [FirmwareFile.m_images appData FirmwareImage.offset
                        FirmwareImage.data].
      match goal with |- context [if ?b then _ else _] => destruct b end;
        reflexivity.
    + unfold isComplete. cbn [FirmwareFile.m_images].
      apply isCompleteLoop_single.
    + unfold isValid. cbn [FirmwareFile.m_images forallb].
      rewrite isEmpty_false by discriminate.
      rewrite andb_true_r. unfold FirmwareImage.isValid, size, at_.
      cbn [FirmwareImage.data].
      destruct (Z.of_nat (length bytes) <? 8) eqn:E.
      * split; [discriminate | lia].
      * rewrite Z.eqb_eq. split; [intros H; split; [lia | exact H] | tauto].
  - intros Hread. now rewrite Hread.
Qed.

Lemma X10_load_single_file_witness :
  exists firmware,
    loadFromFile Disk.disk "out/board_merged.bin" = Package firmware /\
    data firmware = [0xE9; 0x03; 0x02; 0x2F; 0; 0; 0; 0] /\
    isValid firmware = true.
Proof.
  destruct (X10_load_single_file Disk.disk "out/board_merged.bin") as [H _];
    [reflexivity|].
  destruct (H [0xE9; 0x03; 0x02; 0x2F; 0; 0; 0; 0]) as
    (firmware & image & Hl & _ & _ & _ & Hd & _ & _ & _ & Hv);
    [reflexivity|].
  exists firmware. split; [assumption|]. split; [assumption|].
  apply Hv. split; [simpl; lia | reflexivity].
Defined.

Ltac read_cases fs dirPath :=
  destruct (readAll fs (filePathIn fs dirPath "bootloader.bin"))
    as [b|] eqn:Eb;
  destruct (readAll fs (filePathIn fs dirPath "partitions.bin"))
    as [p|] eqn:Ep.

(** X11. Loading a build directory looks for [bootloader.bin],
    [partitions.bin] and [firmware.bin].  Without a readable
    [firmware.bin] it is refused: as [NoFilesFound] when none of the three
    can be read, as [MissingFirmware] otherwise.  With it, the package
    holds exactly the files that could be read, each at its fixed offset
    and in the order of their offsets, [data()] is the content of
    [firmware.bin], and the package is complete exactly when the other
    two files were read too. *)
Theorem X11_load_build_directory :
  forall (fs : FileSystem) (dirPath : string),
    let file name := readAll fs (filePathIn fs dirPath name) in
    (file "firmware.bin" = None ->
     exists type message,
       fromPlatformIOBuild fs dirPath = FirmwareLoadError type message /\
       (type = NoFilesFound <->
        file "bootloader.bin" = None /\ file "partitions.bin" = None) /\
       (type = MissingFirmware <->
        ~ (file "bootloader.bin" = None /\ file "partitions.bin" = None))) /\
    (forall app,
       file "firmware.bin" = Some app ->
       exists firmware,
         fromPlatformIOBuild fs dirPath = Package firmware /\
         data firmware = app /\
         isEmpty firmware = false /\
         StronglySorted
           (fun a b => FirmwareImage.offset a < FirmwareImage.offset b)
           (FirmwareFile.images firmware) /\
         (isComplete firmware = true <->
          file "bootloader.bin" <> None /\ file "partitions.bin" <> None) /\
         (forall name offset content,
            In (name, offset) fileOffsets ->
            file name = Some content ->
            In (FirmwareImage.mk (filePathIn fs dirPath name) content offset)
               (FirmwareFile.images firmware)) /\
         length (FirmwareFile.images firmware)
         = length (filter (fun entry =>
                             match file (fst entry) with
                             | Some _ => true
                             | None => false
                             end) fileOffsets)).
Proof.
  intros fs dirPath file. subst file. cbv beta. split.
  - intros Hf. unfold fromPlatformIOBuild, fileOffsets. cbv zeta.
    cbn [collectImages]. rewrite Hf.
    read_cases fs dirPath; cbn; eexists _, _;
      (split; [reflexivity|]);
      split; split; try discriminate; try tauto;
      try (intros [? ?]; discriminate);
      try (intros H; exfalso; apply H; split; reflexivity);
      intros _ [? ?]; discriminate.
  - intros app Hf. unfold fromPlatformIOBuild, fileOffsets. cbv zeta.
    cbn [collectImages]. rewrite Hf.
    read_cases fs dirPath; cbn; eexists;
      (split; [reflexivity|]); cbn;
      (split; [reflexivity|]);
      (split; [reflexivity|]);
      (split; [solve [repeat (once constructor)]|]).
    all: split;
      [split; [intros; split; discriminate || congruence
              | intros [? ?]; reflexivity || congruence]|].
    all: split; [|rewrite ?Eb, ?Ep, ?Hf; reflexivity].
    all: intros name offset content [H|[H|[H|[]]]] Hr;
      inversion H; subst; rewrite Hr in *;
      repeat match goal with
             | E : Some _ = Some _ |- _ => inversion E; subst; clear E
             | E : None = Some _ |- _ => discriminate E
             | E : Some _ = None |- _ => discriminate E
             end;
      auto 6 using in_eq, in_cons.
Qed.

Lemma X11_load_build_directory_witness :
  exists firmware,
    fromPlatformIOBuild Disk.disk "build" = Package firmware /\
    data firmware = [0xE9; 0x05; 0x02; 0x2F; 0; 0; 0; 0] /\
    isComplete firmware = false /\
    length (FirmwareFile.images firmware) = 2%nat.
Proof.
  destruct (X11_load_build_directory Disk.disk "build") as [_ H].
  destruct (H [0xE9; 0x05; 0x02; 0x2F; 0; 0; 0; 0]) as
    (firmware & Hl & Hd & _ & _ & Hc & _ & Hn); [reflexivity|].
  exists firmware. split; [assumption|]. split; [assumption|].
  split; [|exact Hn].
  destruct (isComplete firmware); [|reflexivity].
  destruct Hc as [Hc _]. destruct (Hc eq_refl) as [_ Hp].
  exfalso. apply Hp. reflexivity.
Defined.

End LoadingMore.

(** ** What the stages of a run may do *)

Create HintDb acts.

Section ActionsOfTheRun.
Import SLIPCodec ESP32Protocol FlashingService TraceSpec RunSpec.
Variable w : World.
Variable Q : Action -> Prop.

Lemma acts_ret {A} (a : A) : acts Q (ret a).
Proof.
  intros s r s' H. inversion H; subst. repeat split.
  exists []. now rewrite app_nil_r.
Qed.

Lemma acts_throw {A} e : acts Q (@throw A e).
Proof.
  intros s r s' H. inversion H; subst. repeat split.
  exists []. now rewrite app_nil_r.
Qed.

Lemma acts_bind {A B} (m : M A) (k : A -> M B) :
  acts Q m -> (forall a, acts Q (k a)) -> acts Q (bind m k).
Proof.
  intros Hm Hk s r s' H.
  apply bind_inv in H as [(a & s1 & H1 & H2)|(e & H1 & _)].
  - destruct (Hm _ _ _ H1) as (Hf1 & Hi1 & t1 & Ht1 & HQ1).
    destruct (Hk _ _ _ _ H2) as (Hf2 & Hi2 & t2 & Ht2 & HQ2).
    split; [congruence|]. split; [congruence|].
    exists (t1 ++ t2). rewrite Ht2, Ht1, app_assoc.
    split; [reflexivity | now apply Forall_app].
  - eapply Hm; eassumption.
Qed.

Lemma acts_tryCatch {A} (m : M A) (h : Exn -> M A) :
  acts Q m -> (forall e, acts Q (h e)) -> acts Q (tryCatch m h).
Proof.
  intros Hm Hh s r s' H.
  apply tryCatch_inv in H as [(a & H1 & _)|(e & s1 & H1 & H2)].
  - eapply Hm; eassumption.
  - destruct (Hm _ _ _ H1) as (Hf1 & Hi1 & t1 & Ht1 & HQ1).
    destruct (Hh _ _ _ _ H2) as (Hf2 & Hi2 & t2 & Ht2 & HQ2).
    split; [congruence|]. split; [congruence|].
    exists (t1 ++ t2). rewrite Ht2, Ht1, app_assoc.
    split; [reflexivity | now apply Forall_app].
Qed.

Lemma acts_log a : Q a -> acts Q (log a).
Proof.
  intros Hq s r s' H. inversion H; subst. cbn. repeat split.
  exists [a]. split; [reflexivity | now constructor].
Qed.

Lemma acts_same {A} (m : M A) :
  (forall s r s', m s = (r, s') ->
     fd_open s' = fd_open s /\ m_isFlashing s' = m_isFlashing s /\
     trace s' = trace s) ->
  acts Q m.
Proof.
  intros Hm s r s' H. destruct (Hm _ _ _ H) as (Hf & Hi & Ht).
  repeat split; try assumption. exists []. rewrite app_nil_r.
  split; [assumption | constructor].
Qed.

Lemma acts_setDecoder d : acts Q (setDecoder d).
Proof. apply acts_same. intros s r s' H. inversion H; subst. now cbn. Qed.

Lemma acts_requireConnected : acts Q requireConnected.
Proof.
  apply acts_same. intros s r s' H. unfold requireConnected in H.
  assert (s' = s) by (destruct (fd_open s); now inversion H).
  subst. repeat split.
Qed.

Lemma acts_nextWait t : acts Q (nextWait w t).
Proof. apply acts_same. intros s r s' H. inversion H; subst. now cbn. Qed.

Lemma acts_isCancelled site :
  (forall b, Q (APoll site b)) -> acts Q (isCancelled w site).
Proof.
  intros Hq s r s' H. unfold isCancelled in H. inversion H; subst; clear H.
  cbn. repeat split. eexists [_]. split; [reflexivity|].
  constructor; [apply Hq | constructor].
Qed.

Lemma acts_connWrite data :
  (forall ok, Q (AWrite data ok)) -> acts Q (connWrite w data).
Proof.
  intros Hq. apply acts_bind; [apply acts_requireConnected|].
  intros _ s r s' H.
  write_cases H; cbn;
    repeat split; eexists [_]; (split; [reflexivity|]);
    (constructor; [apply Hq | constructor]).
Qed.

Local Hint Resolve acts_ret acts_throw acts_setDecoder
  acts_requireConnected acts_nextWait : acts.

Ltac acts_step :=
  match goal with
  | |- acts _ (bind _ _) => apply acts_bind; [|intros]
  | |- acts _ (tryCatch _ _) => apply acts_tryCatch; [|intros]
  | |- acts _ (if ?b then _ else _) => destruct b
  | |- acts _ (match ?x with _ => _ end) => destruct x
  | |- acts _ (let _ := _ in _) => cbv zeta
  end.

Ltac acts_auto := repeat acts_step; auto with acts.

Lemma acts_connRead o : acts Q (connRead o).
Proof. unfold connRead. acts_auto. Qed.

Lemma acts_decoderProcess data : acts Q (decoderProcess data).
Proof.
  intros s r s' H. unfold decoderProcess in H.
  destruct (SLIPDecoder.process (m_slipDecoder s) data) as [packets d].
  revert H. generalize s r s'.
  change (acts Q (bind (setDecoder d) (fun _ => ret packets))).
  acts_auto.
Qed.

Local Hint Resolve acts_connRead acts_decoderProcess : acts.

(** *** Waiting for a response: reads of the flag only *)

Hypothesis Q_poll : forall site b, Q (APoll site b).

Local Hint Extern 1 (acts _ (isCancelled _ _)) =>
  apply acts_isCancelled; intros; apply Q_poll : acts.

Lemma acts_throwIfCancelled site : acts Q (throwIfCancelled w site).
Proof. unfold throwIfCancelled. acts_auto. Qed.

Local Hint Resolve acts_throwIfCancelled : acts.

Lemma acts_waitLoop command outcomes : acts Q (waitLoop w command outcomes).
Proof. induction outcomes as [|o later IH]; cbn [waitLoop]; acts_auto. Qed.

Local Hint Resolve acts_waitLoop : acts.

Lemma acts_waitForResponse command t : acts Q (waitForResponse w command t).
Proof. unfold waitForResponse. acts_auto. Qed.

Lemma acts_drainLoop n : acts Q (drainLoop w n).
Proof.
  induction n as [|n IH]; cbn [drainLoop]; acts_auto.
  apply acts_waitForResponse.
Qed.

Local Hint Resolve acts_waitForResponse acts_drainLoop : acts.

(** *** The port *)

Hypothesis Q_flush : Q AFlush.

Lemma acts_connFlush : acts Q connFlush.
Proof.
  intros s r s' H. unfold connFlush in H.
  assert (Hc : log AFlush s = (r, s') \/ ret tt s = (r, s'))
    by (destruct (fd_open s); auto).
  destruct Hc as [Hc|Hc];
    [exact (acts_log _ Q_flush _ _ _ Hc) | exact (acts_ret tt _ _ _ Hc)].
Qed.

Local Hint Resolve acts_connFlush : acts.

(** What follows the write in [performSync]. *)
Lemma acts_afterSync :
  acts Q (bind (waitForResponse w Sync 1000)
            (fun response =>
               if negb (ESP32Response.isSuccess response)
               then throw (RuntimeError "Sync failed")
               else bind (drainLoop w 7) (fun _ => connFlush))).
Proof. acts_auto. Qed.

Hypothesis Q_dtr : forall v, Q (ASetDTR v).
Hypothesis Q_rts : forall v, Q (ASetRTS v).
Hypothesis Q_sleep : forall ms, Q (ASleep ms).

Local Hint Extern 1 (acts _ (log (ASetDTR _))) =>
  apply acts_log; apply Q_dtr : acts.
Local Hint Extern 1 (acts _ (log (ASetRTS _))) =>
  apply acts_log; apply Q_rts : acts.
Local Hint Extern 1 (acts _ (sleepMs _)) =>
  apply acts_log; apply Q_sleep : acts.

Lemma acts_setDTR v : acts Q (setDTR v).
Proof. unfold setDTR. acts_auto. Qed.

Lemma acts_setRTS v : acts Q (setRTS v).
Proof. unfold setRTS. acts_auto. Qed.

Lemma acts_setDTRRTS d r : acts Q (setDTRRTS d r).
Proof. unfold setDTRRTS. acts_auto. Qed.

Local Hint Resolve acts_setDTR acts_setRTS acts_setDTRRTS : acts.

Lemma acts_enterBootloaderMode usb : acts Q (enterBootloaderMode usb).
Proof.
  unfold enterBootloaderMode, usbJtagSerialReset, classicReset. acts_auto.
Qed.

Lemma acts_hardReset : acts Q hardReset.
Proof. unfold hardReset. acts_auto. Qed.

Local Hint Resolve acts_enterBootloaderMode acts_hardReset : acts.

(** What follows the write in [flashEnd]. *)
Lemma acts_afterFlashEnd reboot usb :
  acts Q (bind
            (tryCatch
               (bind (waitForResponse w FlashEnd 2000)
                  (fun response =>
                     if negb (ESP32Response.isSuccess response) && negb reboot
                     then throw (RuntimeError "Flash end failed")
                     else ret tt))
               (fun e => if negb reboot then throw e else ret tt))
            (fun _ => if reboot && usb then hardReset else ret tt)).
Proof. acts_auto. Qed.

(** *** The commands *)

Variable allowed : ESP32Command -> bool.
Hypothesis Q_write :
  forall command payload checksum ok,
    allowed command = true ->
    Q (AWrite (encode (buildPacket command payload checksum)) ok).

Lemma acts_command command payload checksum :
  allowed command = true ->
  acts Q (connWrite w (encode (buildPacket command payload checksum))).
Proof. intros Ha. apply acts_connWrite. intros ok. now apply Q_write. Qed.

Local Hint Extern 1 (acts _ (connWrite _ (encode _))) =>
  unfold buildSyncCommand, buildSpiAttachCommand, buildFlashBeginCommand,
    buildFlashDataCommand, buildFlashEndCommand, buildChangeBaudCommand,
    buildReadRegCommand, buildWriteRegCommand;
  cbv zeta; apply acts_command; assumption : acts.

Lemma acts_performSync :
  allowed Sync = true -> acts Q (performSync w).
Proof. intros Ha. unfold performSync. acts_auto. Qed.

Local Hint Resolve acts_performSync : acts.

Lemma acts_syncLoop n :
  allowed Sync = true -> forall attempt, acts Q (syncLoop w n attempt).
Proof.
  intros Ha. induction n as [|n IH]; intros; cbn [syncLoop]; acts_auto.
Qed.

Lemma acts_syncWithRetry :
  allowed Sync = true -> acts Q (syncWithRetry w).
Proof. intros Ha. now apply acts_syncLoop. Qed.

Lemma acts_setBaudRate rate :
  Q (ASetBaudRate rate) -> acts Q (setBaudRate w rate).
Proof. intros Hq. unfold setBaudRate. acts_auto. now apply acts_log. Qed.

Lemma acts_changeBaudRate rate :
  Q (ASetBaudRate rate) ->
  allowed ChangeBaudRate = true -> allowed Sync = true ->
  acts Q (changeBaudRate w rate).
Proof.
  intros Hq Hc Hs. unfold changeBaudRate. acts_auto.
  now apply acts_setBaudRate.
Qed.

Lemma acts_spiAttach :
  allowed SpiAttach = true -> acts Q (spiAttach w).
Proof. intros Ha. unfold spiAttach. acts_auto. Qed.

Lemma acts_readReg a :
  allowed ReadReg = true -> acts Q (readReg w a).
Proof. intros Ha. unfold readReg. acts_auto. Qed.

Lemma acts_writeReg a v :
  allowed WriteReg = true -> acts Q (writeReg w a v).
Proof. intros Ha. unfold writeReg. acts_auto. Qed.

Local Hint Resolve acts_syncWithRetry acts_spiAttach acts_readReg
  acts_writeReg : acts.

Lemma acts_disableWatchdogs :
  allowed ReadReg = true -> allowed WriteReg = true ->
  acts Q (disableWatchdogs w).
Proof. intros Hr Hw. unfold disableWatchdogs. acts_auto. Qed.

Lemma acts_flashBegin a b c d :
  allowed FlashBegin = true -> acts Q (flashBegin w a b c d).
Proof. intros Ha. unfold flashBegin. acts_auto. Qed.

Lemma acts_flashData block n :
  allowed FlashData = true -> acts Q (flashData w block n).
Proof. intros Ha. unfold flashData. acts_auto. Qed.

Lemma acts_flashEnd reboot usb :
  allowed FlashEnd = true -> acts Q (flashEnd w reboot usb).
Proof. intros Ha. unfold flashEnd. acts_auto. Qed.

Local Hint Resolve acts_disableWatchdogs acts_flashBegin acts_flashData
  : acts.

(** *** The states reported while the run is under way *)

Hypothesis Q_emit :
  forall st, FlashingState.isActive st = true -> Q (AEmit st).

Local Hint Extern 1 (acts _ (emit _)) =>
  apply acts_log; apply Q_emit; reflexivity : acts.

Lemma acts_blockLoop image nb bf tot n :
  allowed FlashData = true ->
  forall blockNum, acts Q (blockLoop w image nb bf tot n blockNum).
Proof.
  intros Ha. induction n as [|n IH]; intros; cbn [blockLoop]; acts_auto.
Qed.

Local Hint Resolve acts_blockLoop : acts.

Lemma acts_flashImage image bf tot :
  allowed FlashBegin = true -> allowed FlashData = true ->
  acts Q (flashImage w image bf tot).
Proof. intros Hb Hd. unfold flashImage. acts_auto. Qed.

Local Hint Resolve acts_flashImage : acts.

Lemma acts_imagesLoop images :
  allowed FlashBegin = true -> allowed FlashData = true ->
  forall bf tot, acts Q (imagesLoop w images bf tot).
Proof.
  intros Hb Hd.
  induction images as [|image rest IH]; intros; cbn [imagesLoop]; acts_auto.
Qed.

Lemma acts_flashImages fw :
  allowed FlashBegin = true -> allowed FlashData = true ->
  acts Q (flashImages w fw).
Proof. intros Hb Hd. now apply acts_imagesLoop. Qed.

(** *** Opening and closing the port *)

Lemma appends_of_acts {A} (m : M A) : acts Q m -> appends Q m.
Proof. intros H s r s' Hm. now destruct (H _ _ _ Hm) as (_ & _ & Ht). Qed.

Lemma appends_bind {A B} (m : M A) (k : A -> M B) :
  appends Q m -> (forall a, appends Q (k a)) -> appends Q (bind m k).
Proof.
  intros Hm Hk s r s' H.
  apply bind_inv in H as [(a & s1 & H1 & H2)|(e & H1 & _)].
  - destruct (Hm _ _ _ H1) as (t1 & Ht1 & HQ1).
    destruct (Hk _ _ _ _ H2) as (t2 & Ht2 & HQ2).
    exists (t1 ++ t2). rewrite Ht2, Ht1, app_assoc.
    split; [reflexivity | now apply Forall_app].
  - eapply Hm; eassumption.
Qed.

Lemma appends_tryCatch {A} (m : M A) (h : Exn -> M A) :
  appends Q m -> (forall e, appends Q (h e)) -> appends Q (tryCatch m h).
Proof.
  intros Hm Hh s r s' H.
  apply tryCatch_inv in H as [(a & H1 & _)|(e & s1 & H1 & H2)].
  - eapply Hm; eassumption.
  - destruct (Hm _ _ _ H1) as (t1 & Ht1 & HQ1).
    destruct (Hh _ _ _ _ H2) as (t2 & Ht2 & HQ2).
    exists (t1 ++ t2). rewrite Ht2, Ht1, app_assoc.
    split; [reflexivity | now apply Forall_app].
Qed.

Hypothesis Q_open : forall ok, Q (AOpen ok).
Hypothesis Q_close : Q AClose.

Lemma appends_connOpen : appends Q (connOpen w).
Proof.
  intros s r s' H. unfold connOpen in H.
  destruct (openResult w (nOpens s)); inversion H; subst; cbn;
    eexists [_]; (split; [reflexivity|]);
    (constructor; [apply Q_open | constructor]).
Qed.

Lemma appends_connClose : appends Q connClose.
Proof.
  intros s r s' H. unfold connClose in H. destruct (fd_open s).
  - inversion H; subst. cbn. exists [AClose].
    split; [reflexivity | constructor; [apply Q_close | constructor]].
  - inversion H; subst. exists []. now rewrite app_nil_r.
Qed.

Lemma appends_cleanup : appends Q cleanup.
Proof.
  unfold cleanup. apply appends_bind; [apply appends_connClose|].
  intros _ s r s' H. inversion H; subst. cbn. exists [].
  now rewrite app_nil_r.
Qed.

Ltac appends_step :=
  match goal with
  | |- appends _ (bind _ _) => apply appends_bind; [|intros]
  | |- appends _ (tryCatch _ _) => apply appends_tryCatch; [|intros]
  | |- appends _ (if ?b then _ else _) => destruct b eqn:?
  | |- appends _ (let _ := _ in _) => cbv zeta
  end.

Ltac appends_auto :=
  repeat appends_step;
  try solve [ apply appends_connOpen | apply appends_connClose
            | apply appends_of_acts; auto with acts ].

Lemma appends_reopenLoop n : forall attempt,
  appends Q (reopenLoop w n attempt).
Proof.
  induction n as [|n IH]; intros; cbn [reopenLoop]; appends_auto.
  apply IH.
Qed.

Lemma appends_connectAndSync port :
  allowed Sync = true ->
  (SerialPort.isESP32C3 port = true ->
   allowed ReadReg = true /\ allowed WriteReg = true) ->
  appends Q (connectAndSync w port).
Proof.
  intros Hs Hreg. unfold connectAndSync. cbv zeta.
  destruct (SerialPort.isESP32C3 port) eqn:Eusb;
    [destruct (Hreg eq_refl) as [Hr Hw]|];
    appends_auto; apply appends_reopenLoop.
Qed.

Lemma appends_beforeFlashEnd fw port baud :
  allowed Sync = true ->
  allowed SpiAttach = true ->
  allowed FlashBegin = true -> allowed FlashData = true ->
  (SerialPort.isESP32C3 port = true ->
   allowed ReadReg = true /\ allowed WriteReg = true) ->
  (isBaud115200 baud = false ->
   allowed ChangeBaudRate = true /\ Q (ASetBaudRate baud)) ->
  appends Q (beforeFlashEnd w fw port baud).
Proof.
  intros Hs Ha Hb Hd Hreg Hbaud. unfold beforeFlashEnd.
  apply appends_bind; [now apply appends_connectAndSync|]. intros _.
  apply appends_bind.
  { destruct (isBaud115200 baud) eqn:E; cbn [negb].
    - apply appends_of_acts, acts_ret.
    - destruct (Hbaud eq_refl) as [Hc Hq].
      apply appends_of_acts. acts_auto. now apply acts_changeBaudRate. }
  intros _. apply appends_of_acts. acts_auto. now apply acts_flashImages.
Qed.

(** The first thing a run does is to report [Connecting]. *)
Lemma connectAndSync_first port s r s' :
  allowed Sync = true ->
  (SerialPort.isESP32C3 port = true ->
   allowed ReadReg = true /\ allowed WriteReg = true) ->
  connectAndSync w port s = (r, s') ->
  exists t,
    trace s' = trace s ++ AEmit FlashingState.connecting :: t /\ Forall Q t.
Proof.
  intros Hs Hreg H. unfold connectAndSync in H. cbv zeta in H.
  apply bind_inv in H as [(u & s1 & H1 & H2)|(r0 & H1 & Hst)];
    [|returned H1 Hst].
  inversion H1; subst s1; clear H1.
  match type of H2 with
  | ?k _ = _ => assert (Ha : appends Q k)
  end.
  { destruct (SerialPort.isESP32C3 port) eqn:Eusb;
      [destruct (Hreg eq_refl) as [Hr Hw]|];
      appends_auto; apply appends_reopenLoop. }
  destruct (Ha _ _ _ H2) as (t & Ht & HQ). cbn [trace] in Ht.
  exists t. rewrite Ht, <- app_assoc. split; [reflexivity | assumption].
Qed.

Lemma beforeFlashEnd_first fw port baud s r s' :
  allowed Sync = true ->
  allowed SpiAttach = true ->
  allowed FlashBegin = true -> allowed FlashData = true ->
  (SerialPort.isESP32C3 port = true ->
   allowed ReadReg = true /\ allowed WriteReg = true) ->
  (isBaud115200 baud = false ->
   allowed ChangeBaudRate = true /\ Q (ASetBaudRate baud)) ->
  beforeFlashEnd w fw port baud s = (r, s') ->
  exists t,
    trace s' = trace s ++ AEmit FlashingState.connecting :: t /\ Forall Q t.
Proof.
  intros Hs Ha Hb Hd Hreg Hbaud H. unfold beforeFlashEnd in H.
  apply bind_inv in H as [(u & s1 & H1 & H2)|(e & H1 & _)].
  - destruct (connectAndSync_first _ _ _ _ Hs Hreg H1) as (t1 & Ht1 & HQ1).
    match type of H2 with
    | ?k _ = _ => assert (Hk : appends Q k)
    end.
    { apply appends_bind.
      { destruct (isBaud115200 baud) eqn:E; cbn [negb].
        - apply appends_of_acts, acts_ret.
        - destruct (Hbaud eq_refl) as [Hc Hq].
          apply appends_of_acts. acts_auto. now apply acts_changeBaudRate. }
      intros _. apply appends_of_acts. acts_auto.
      now apply acts_flashImages. }
    destruct (Hk _ _ _ H2) as (t2 & Ht2 & HQ2).
    exists (t1 ++ t2). rewrite Ht2, Ht1, <- app_assoc.
    split; [reflexivity | now apply Forall_app].
  - eapply connectAndSync_first; eassumption.
Qed.

(** The last stage: [FLASH_END], then [Complete], the cleanup and the
    finished signal; it stops only inside [flashEnd]. *)
Lemma fromFlashEnd_shape port s r s' :
  allowed FlashEnd = true ->
  fromFlashEnd w port s = (r, s') ->
  exists t,
    Forall Q t /\
    ((r <> Ok tt /\ trace s' = trace s ++ t) \/
     (r = Ok tt /\ fd_open s' = false /\ m_isFlashing s' = false /\
      exists closing,
        (closing = [] \/ closing = [AClose]) /\
        trace s'
        = trace s ++ t ++ AEmit FlashingState.complete
                      :: closing ++ [AFinished true])).
Proof.
  intros Ha H. unfold fromFlashEnd in H.
  apply bind_inv in H as [(u & s1 & H1 & H2)|(r0 & H1 & Hst)].
  - destruct (acts_flashEnd _ _ Ha _ _ _ H1) as (_ & _ & t1 & Ht1 & HQ1).
    exists (t1 ++ [ASleep 1000]).
    split; [apply Forall_app; split; [assumption|];
            constructor; [apply Q_sleep | constructor]|].
    right. revert H2.
    unfold sleepMs, emit, cleanup, connClose, setIsFlashing, setFd,
      emitFinished, log, bind, ret.
    cbn [fd_open m_isFlashing trace].
    destruct (fd_open s1) eqn:Efd; intros H2; inversion H2; subst; clear H2;
      cbn [fd_open m_isFlashing trace];
      (split; [reflexivity|]); (split; [assumption || reflexivity|]);
      (split; [reflexivity|]).
    + exists [AClose]. split; [now right|].
      rewrite Ht1, <- !app_assoc. reflexivity.
    + exists []. split; [now left|].
      rewrite Ht1, <- !app_assoc. reflexivity.
  - destruct (acts_flashEnd _ _ Ha _ _ _ H1) as (_ & _ & t1 & Ht1 & HQ1).
    exists t1. split; [assumption|]. left.
    split; [intros ->; inversion Hst | assumption].
Qed.

(** The handler always returns: the port is closed, the service no longer
    flashing, and the trace ends with one read of the flag, one error
    state and the finished signal. *)
Lemma handler_outcome e s r s' :
  handler w e s = (r, s') ->
  fd_open s' = false /\ m_isFlashing s' = false /\
  exists pre b st,
    (pre = [] \/ pre = [AClose]) /\
    trace s' = trace s ++ pre ++ [APoll Handler b; AEmit st; AFinished false] /\
    reportedError st.
Proof.
  unfold handler, cleanup, connClose, setIsFlashing, setFd,
    isCancelledAfterCleanup,
    emit, emitFinished, log, bind, ret, reportedError.
  destruct (fd_open s) eqn:Efd; cbn [fd_open m_isFlashing nPolls trace];
    destruct (flagAfterCleanup w (nPolls s)) eqn:Ef; cbn [orb];
    repeat match goal with
           | |- context [if ?b then _ else _] => destruct b
           end;
    intros H; inversion H; subst; clear H;
    cbn [fd_open m_isFlashing trace];
    (split; [assumption || reflexivity|]); (split; [reflexivity|]);
    rewrite <- ?app_assoc; cbn [app];
    first [ eexists [AClose], _, _; split; [now right|];
            split; [reflexivity|]
          | eexists [], _, _; split; [now left|];
            split; [reflexivity|] ];
    solve [ now left | right; eexists; now left | right; eexists; now right ].
Qed.

(** The shape of every run: it reports [Connecting], goes through its
    stages, and then either is stuck in a write or ends, with [Complete]
    or with an error. *)
Lemma run_shape fw port baud :
  allowed Sync = true ->
  allowed SpiAttach = true ->
  allowed FlashBegin = true -> allowed FlashData = true ->
  allowed FlashEnd = true ->
  (SerialPort.isESP32C3 port = true ->
   allowed ReadReg = true /\ allowed WriteReg = true) ->
  (isBaud115200 baud = false ->
   allowed ChangeBaudRate = true /\ Q (ASetBaudRate baud)) ->
  exists t tail,
    trace (runFlashing w fw port baud)
    = AEmit FlashingState.connecting :: t ++ tail /\
    Forall Q t /\
    ((fst (runFlashingM w fw port baud initial) = Hang /\ tail = []) \/
     (fst (runFlashingM w fw port baud initial) = Ok tt /\
      fd_open (runFlashing w fw port baud) = false /\
      m_isFlashing (runFlashing w fw port baud) = false /\
      ((exists closing,
          (closing = [] \/ closing = [AClose]) /\
          tail = AEmit FlashingState.complete
                   :: closing ++ [AFinished true]) \/
       (exists pre b st,
          (pre = [] \/ pre = [AClose]) /\
          tail = pre ++ [APoll Handler b; AEmit st; AFinished false] /\
          reportedError st)))).
Proof.
  intros Hs Ha Hb Hd He Hreg Hbaud. unfold runFlashing.
  rewrite runFlashingM_unfold.
  destruct (beforeFlashEnd w fw port baud initial) as [[u|e|] s1] eqn:E1;
    destruct (beforeFlashEnd_first _ _ _ _ _ _ Hs Ha Hb Hd Hreg Hbaud E1)
      as (t1 & Ht1 & HQ1);
    cbn [trace initial app] in Ht1.
  - destruct (fromFlashEnd w port s1) as [[u2|e2|] s2] eqn:E2;
      destruct (fromFlashEnd_shape _ _ _ _ He E2)
        as (t2 & HQ2 & [(Hr & Ht2)|(Hr & Hfd & Hfl & closing & Hc & Ht2)]);
      try discriminate; try (destruct u2; now destruct Hr).
    + exists (t1 ++ t2), (AEmit FlashingState.complete
                           :: closing ++ [AFinished true]).
      cbn [fst snd]. rewrite Ht2, Ht1. cbn [app]. rewrite <- app_assoc.
      split; [reflexivity|]. split; [now apply Forall_app|].
      right. destruct u2.
      split; [reflexivity|]. split; [assumption|]. split; [assumption|].
      left. eauto.
    + destruct (handler w e2 s2) as [r3 s3] eqn:E3. cbn [fst snd].
      pose proof (handler_spec _ _ _ _ _ E3) as (Hr3 & _).
      destruct (handler_outcome _ _ _ _ E3)
        as (Hfd & Hfl & pre & b & st & Hpre & Ht3 & Hst).
      exists (t1 ++ t2), (pre ++ [APoll Handler b; AEmit st; AFinished false]).
      rewrite Ht3, Ht2, Ht1. cbn [app]. rewrite <- app_assoc.
      split; [reflexivity|]. split; [now apply Forall_app|].
      right. split; [assumption|].
      split; [assumption|]. split; [assumption|]. right.
      exists pre, b, st. auto.
    + exists (t1 ++ t2), []. cbn [fst snd].
      rewrite Ht2, Ht1. cbn [app]. rewrite app_nil_r.
      split; [reflexivity|]. split; [now apply Forall_app|].
      left. now split.
  - destruct (handler w e s1) as [r3 s3] eqn:E3. cbn [fst snd].
    pose proof (handler_spec _ _ _ _ _ E3) as (Hr3 & _).
    destruct (handler_outcome _ _ _ _ E3)
      as (Hfd & Hfl & pre & b & st & Hpre & Ht3 & Hst).
    exists t1, (pre ++ [APoll Handler b; AEmit st; AFinished false]).
    rewrite Ht3, Ht1. cbn [app].
    split; [reflexivity|]. split; [assumption|].
    right. split; [assumption|].
    split; [assumption|]. split; [assumption|]. right.
    exists pre, b, st. auto.
  - exists t1, []. cbn [fst snd]. rewrite Ht1, app_nil_r.
    split; [reflexivity|]. split; [assumption|]. left. now split.
Qed.

End ActionsOfTheRun.

(** ** Waiting for a response *)

Section WaitingMore.
Import SLIPCodec ESP32Protocol FlashingService TraceSpec RunSpec.
Variable w : World.

Lemma findResponse_some command packets r :
  findResponse command packets = Some r ->
  exists packet,
    In packet packets /\ ESP32Response.parse packet = Some r /\
    ESP32Response.command r = commandCode command.
Proof.
  induction packets as [|p packets IH]; cbn [findResponse]; [discriminate|].
  destruct (ESP32Response.parse p) as [r0|] eqn:Ep.
  - destruct (ESP32Response.command r0 =? commandCode command) eqn:Ec.
    + intros H. inversion H; subst. exists p.
      split; [now left|]. split; [assumption | lia].
    + intros H. destruct (IH H) as (q & Hin & Hq). exists q.
      split; [now right | assumption].
  - intros H. destruct (IH H) as (q & Hin & Hq). exists q.
    split; [now right | assumption].
Qed.

Lemma findResponse_app command l1 l2 :
  findResponse command (l1 ++ l2)
  = match findResponse command l1 with
    | Some r => Some r
    | None => findResponse command l2
    end.
Proof.
  induction l1 as [|p l1 IH]; cbn [app findResponse]; [reflexivity|].
  destruct (ESP32Response.parse p) as [r0|]; [|exact IH].
  destruct (ESP32Response.command r0 =? commandCode command);
    [reflexivity | exact IH].
Qed.

Lemma parse_some packet r :
  ESP32Response.parse packet = Some r ->
  (8 <= length packet)%nat /\
  ESP32Response.direction r = 0x01 /\
  0 <= ESP32Response.size_ r < 2 ^ 16 /\
  0 <= ESP32Response.value r < 2 ^ 32 /\
  (length (ESP32Response.data r) <= length packet - 8)%nat.
Proof.
  unfold ESP32Response.parse.
  destruct (size packet <? 8) eqn:Es; [discriminate|].
  destruct (at_ packet 0 =? 1) eqn:Ed; cbn [negb]; [|discriminate].
  intros H. inversion H; subst; clear H.
  cbn [ESP32Response.direction ESP32Response.size_ ESP32Response.value
       ESP32Response.data].
  unfold size in Es.
  split; [lia|]. split; [lia|].
  split; [unfold readLE16, wrap16; apply Z.mod_pos_bound; lia|].
  split; [unfold readLE32, wrap32; apply Z.mod_pos_bound; lia|].
  destruct (size packet >? 8); [|cbn; lia].
  unfold mid. rewrite length_firstn, length_skipn. lia.
Qed.

Lemma waitLoop_ok command outcomes : forall s r s',
  waitLoop w command outcomes s = (Ok r, s') ->
  exists packets, findResponse command packets = Some r.
Proof.
  induction outcomes as [|o later IH]; intros s r s' H; cbn [waitLoop] in H.
  - discriminate.
  - apply bind_ok_inv in H as (_ & s1 & _ & H).
    apply bind_ok_inv in H as (found & s2 & Hf & H).
    destruct found as [response|].
    + inversion H; subst; clear H.
      apply tryCatch_inv in Hf as [(a & Hf & Ha)|(e & s3 & _ & Hh)].
      * inversion Ha; subst; clear Ha.
        apply bind_ok_inv in Hf as (data & s3 & _ & Hf).
        apply bind_ok_inv in Hf as (packets & s4 & _ & Hf).
        inversion Hf; subst. now exists packets.
      * destruct e as [msg|type code]; [discriminate|].
        destruct (SerialError.isTimeout type); discriminate.
    + eapply IH; eassumption.
Qed.

Lemma waitForResponse_parsed command timeoutMs s response s' :
  waitForResponse w command timeoutMs s = (Ok response, s') ->
  ESP32Response.command response = commandCode command /\
  ESP32Response.direction response = 0x01 /\
  0 <= ESP32Response.value response < 2 ^ 32 /\
  exists packet,
    ESP32Response.parse packet = Some response /\
    (8 <= length packet)%nat.
Proof.
  intros H. unfold waitForResponse in H.
  apply bind_ok_inv in H as (outcomes & s1 & _ & H).
  apply bind_ok_inv in H as (_ & s2 & _ & H).
  apply waitLoop_ok in H as (packets & H).
  apply findResponse_some in H as (packet & _ & Hp & Hc).
  pose proof (parse_some _ _ Hp) as (Hlen & Hd & _ & Hv & _).
  repeat split; try assumption; try lia. now exists packet.
Qed.

(** X12. [waitForResponse] returns only what it was asked to wait for: a
    packet that parsed as a response (direction 1, at least 8 bytes) and
    carries the opcode of the awaited command; its value field is a
    32-bit number.  Frames that do not parse and responses to other
    commands are never returned. *)
Theorem X12_wait_returns_the_awaited_response :
  forall (command : ESP32Command) (timeoutMs : Z) (s s' : St)
         (response : ESP32Response.t),
    waitForResponse w command timeoutMs s = (Ok response, s') ->
    ESP32Response.command response = commandCode command /\
    ESP32Response.direction response = 0x01 /\
    0 <= ESP32Response.value response < 2 ^ 32 /\
    exists packet,
      ESP32Response.parse packet = Some response /\
      (8 <= length packet)%nat.
Proof.
  intros command timeoutMs s s' response. apply waitForResponse_parsed.
Qed.

(** One iteration of the wait loop on a read that returns data, when
    [cancel()] is never called and the port is open. *)
Lemma waitLoop_data command chunk later s :
  cancelAt w = None -> fd_open s = true ->
  exists s1,
    fd_open s1 = true /\
    m_slipDecoder s1
    = snd (SLIPDecoder.process (m_slipDecoder s) chunk) /\
    waitLoop w command (ReadData chunk :: later) s
    = match findResponse command
              (fst (SLIPDecoder.process (m_slipDecoder s) chunk)) with
      | Some r => (Ok r, s1)
      | None => waitLoop w command later s1
      end.
Proof.
  intros Hc Hfd. cbn [waitLoop].
  unfold throwIfCancelled, isCancelled, connRead, requireConnected,
    decoderProcess, setDecoder, flagAt.
  rewrite Hc.
  cbv beta iota zeta delta [bind tryCatch ret throw].
  cbn [fd_open m_slipDecoder]. rewrite Hfd.
  cbv beta iota zeta.
  cbn [fd_open m_isFlashing m_slipDecoder nPolls nOpens nWrites nWaits trace].
  destruct (SLIPDecoder.process (m_slipDecoder s) chunk) as [pk d].
  cbn [fst snd]. eexists. split; [|split]; cycle 2.
  - destruct (findResponse command pk); reflexivity.
  - reflexivity.
  - reflexivity.
Qed.

Lemma waitLoop_stream command chunks : forall s,
  cancelAt w = None -> fd_open s = true ->
  fst (waitLoop w command (map ReadData chunks) s)
  = match findResponse command
            (fst (SLIPDecoder.process (m_slipDecoder s) (concat chunks)))
    with
    | Some r => Ok r
    | None =>
        Throw (RuntimeError ("Timeout waiting for "
                             ++ decimal (commandCode command)
                             ++ " response")%string)
    end.
Proof.
  induction chunks as [|chunk chunks IH]; intros s Hc Hfd.
  - reflexivity.
  - cbn [map concat].
    destruct (waitLoop_data command chunk (map ReadData chunks) s Hc Hfd)
      as (s1 & Hfd1 & Hd1 & ->).
    rewrite process_app. cbn [fst]. rewrite findResponse_app.
    destruct (findResponse command
                (fst (SLIPDecoder.process (m_slipDecoder s) chunk)));
      [reflexivity|].
    rewrite (IH s1 Hc Hfd1), Hd1. reflexivity.
Qed.

(** X13. With the port open and no cancellation, when every read that
    fits before the deadline returns data, [waitForResponse] behaves as a
    function of the bytes received, however they are cut into reads: it
    returns the first frame of the stream that parses as a response to
    the awaited command, and fails with the timeout message when the
    stream holds none. *)
Theorem X13_wait_depends_on_the_stream_only :
  forall (command : ESP32Command) (timeoutMs : Z) (s : St)
         (chunks : list QByteArray),
    cancelAt w = None ->
    fd_open s = true ->
    reads w (nWaits s) timeoutMs = map ReadData chunks ->
    fst (waitForResponse w command timeoutMs s)
    = match findResponse command
              (fst (SLIPDecoder.process SLIPDecoder.reset (concat chunks)))
      with
      | Some r => Ok r
      | None =>
          Throw (RuntimeError ("Timeout waiting for "
                               ++ decimal (commandCode command)
                               ++ " response")%string)
      end.
Proof.
  intros command timeoutMs s chunks Hc Hfd Hr.
  unfold waitForResponse, nextWait, setDecoder, bind.
  rewrite Hr. now rewrite waitLoop_stream.
Qed.

End WaitingMore.

Section WaitingWitness.
Import SLIPCodec ESP32Protocol FlashingService TraceSpec RunSpec.

Lemma X12_wait_returns_the_awaited_response_witness :
  exists response s',
    waitForResponse Scenarios.twoBlocksAccepted FlashBegin 30000
                    Scenarios.connected
    = (Ok response, s') /\
    ESP32Response.command response = commandCode FlashBegin.
Proof.
  eexists _, _. split; [vm_compute; reflexivity|].
  refine (proj1 (X12_wait_returns_the_awaited_response
                   Scenarios.twoBlocksAccepted FlashBegin 30000
                   Scenarios.connected _ _ _)).
  vm_compute. reflexivity.
Defined.

Lemma X13_wait_depends_on_the_stream_only_witness :
  exists response,
    fst (waitForResponse Devices.piecewise FlashData 5000 Scenarios.connected)
    = Ok response /\
    ESP32Response.command response = commandCode FlashData /\
    ESP32Response.isSuccess response = true.
Proof.
  rewrite (X13_wait_depends_on_the_stream_only
             Devices.piecewise FlashData 5000 Scenarios.connected
             Devices.pieces eq_refl eq_refl eq_refl).
  eexists. split; [vm_compute; reflexivity|]. split; reflexivity.
Defined.

End WaitingWitness.

(** ** The control lines and the end of flashing *)

Section PortMore.
Import SLIPCodec ESP32Protocol FlashingService TraceSpec RunSpec.

Ltac run_on_open_port s Hfd :=
  destruct s as [fd fl dec np no nw nwt tr]; cbn [fd_open] in Hfd;
  subst fd;
  cbv beta iota zeta delta
    [enterBootloaderMode usbJtagSerialReset classicReset hardReset
     setDTR setRTS setDTRRTS sleepMs connFlush requireConnected log bind ret
     fd_open m_isFlashing m_slipDecoder nPolls nOpens nWrites nWaits trace];
  eexists _, _; split; [reflexivity|];
  cbn [trace fd_open]; rewrite <- !app_assoc; cbn [app];
  split; [reflexivity|]; split; [reflexivity|].

(** X14. The reset sequences touch nothing on a closed port and fail as
    [NotConnected]; on an open port they run to their end, and whatever
    the levels of DTR and RTS were before, both lines are de-asserted
    afterwards.  Entering the bootloader sleeps 350 ms in all over
    USB-JTAG-Serial and 200 ms over a UART bridge, the hard reset
    250 ms. *)
Theorem X14_reset_sequences :
  forall (s : St),
    (fd_open s = false ->
     (forall usb,
        enterBootloaderMode usb s
        = (Throw (SerialErr SerialError.NotConnected 0), s)) /\
     hardReset s = (Throw (SerialErr SerialError.NotConnected 0), s)) /\
    (fd_open s = true ->
     (forall usb,
        exists s' t,
          enterBootloaderMode usb s = (Ok tt, s') /\
          trace s' = trace s ++ t /\ fd_open s' = true /\
          (forall l, linesAfter t l = (false, false)) /\
          sleepTotal t = (if usb then 350 else 200)) /\
     (exists s' t,
        hardReset s = (Ok tt, s') /\
        trace s' = trace s ++ t /\ fd_open s' = true /\
        (forall l, linesAfter t l = (false, false)) /\
        sleepTotal t = 250)).
Proof.
  intros s. split; intros Hfd.
  - split; [intros usb|];
      unfold enterBootloaderMode, usbJtagSerialReset, classicReset,
        hardReset, setDTR, setRTS, setDTRRTS, bind, requireConnected;
      [destruct usb|]; rewrite Hfd; reflexivity.
  - split; [intros [|]|]; run_on_open_port s Hfd;
      (split; [intros [d r]; reflexivity | reflexivity]).
Qed.

Lemma X14_reset_sequences_witness :
  exists s' t,
    hardReset Scenarios.connected = (Ok tt, s') /\
    trace s' = trace Scenarios.connected ++ t /\
    linesAfter t (true, true) = (false, false).
Proof.
  destruct (X14_reset_sequences Scenarios.connected) as [_ H].
  destruct (H eq_refl) as [_ (s' & t & Hr & Ht & _ & Hl & _)].
  exists s', t. split; [assumption|]. split; [assumption | apply Hl].
Defined.

Lemma hardReset_open s :
  fd_open s = true -> fst (hardReset s) = Ok tt.
Proof.
  intros Hfd. destruct s as [fd fl dec np no nw nwt tr]. cbn in Hfd.
  subst fd. reflexivity.
Qed.

Lemma connWrite_open (w : World) data s :
  fd_open s = true -> writeResult w (nWrites s) = None ->
  exists s1,
    connWrite w data s = (Ok tt, s1) /\ fd_open s1 = true /\
    trace s1 = trace s ++ [AWrite data true].
Proof.
  intros Hfd Hw. unfold connWrite, bind, requireConnected.
  rewrite Hfd, Hw.
  destruct data; eexists; (split; [reflexivity|]);
    (split; [exact Hfd | reflexivity]).
Qed.

(** A frame is never empty: it has its two delimiters. *)
Lemma encode_nonempty (x : QByteArray) : encode x <> [].
Proof.
  unfold encode. intros H. apply app_eq_nil in H as [_ H]. discriminate.
Qed.

Lemma connWrite_ok (w : World) data s u s1 :
  data <> [] ->
  connWrite w data s = (Ok u, s1) ->
  fd_open s = true /\ writeResult w (nWrites s) = None.
Proof.
  intros Hne. unfold connWrite, bind, requireConnected.
  destruct (fd_open s); [|discriminate].
  destruct data as [|byte rest]; [now destruct Hne|].
  destruct (writeResult w (nWrites s)) as [errno|]; [|now split].
  destruct (retried errno); discriminate.
Qed.

(** A [write] that does not return normally: the port is closed and
    nothing happens, or the call is logged as failed. *)
Lemma connWrite_stopped (w : World) {B} data s r0 (r : Res B) s' :
  connWrite w data s = (r0, s') ->
  stopped r0 r ->
  (fd_open s = false /\ s' = s /\
   r = Throw (SerialErr SerialError.NotConnected 0)) \/
  (fd_open s = true /\ fd_open s' = true /\
   trace s' = trace s ++ [AWrite data false] /\
   exists errno,
     writeResult w (nWrites s) = Some errno /\
     r = if retried errno then Hang
         else Throw (SerialErr SerialError.WriteFailed errno)).
Proof.
  unfold connWrite, bind, requireConnected.
  destruct (fd_open s) eqn:Efd; intros H Hst.
  2: { left. inversion H; subst. inversion Hst; subst. now repeat split. }
  right. destruct data as [|byte rest]; [returned H Hst|].
  destruct (writeResult w (nWrites s)) as [errno|]; [|returned H Hst].
  split; [reflexivity|].
  destruct (retried errno) eqn:Er; inversion H; subst; inversion Hst; subst;
    cbn [fd_open trace]; (split; [exact Efd|]); (split; [reflexivity|]);
    exists errno; rewrite Er; now split.
Qed.

(** Waiting for a response writes nothing, and so returns or throws. *)
Lemma waitForResponse_returns (w : World) command t s r s' :
  waitForResponse w command t s = (r, s') -> r <> Hang.
Proof.
  apply (steady_returns w); [apply steady_waitForResponse|].
  apply acts_waitForResponse. reflexivity.
Qed.

(** X15. [flashEnd] with [reboot] set returns normally exactly when the
    port is open and the [FLASH_END] frame goes out in full: whatever
    happens while the answer is awaited (an error status, silence, a
    read error, a cancellation) is swallowed.  In any case it leaves the
    port as it found it. *)
Theorem X15_flash_end_with_reboot :
  forall (w : World) (isUSBJTAGSerial : bool) (s : St),
    (fst (flashEnd w true isUSBJTAGSerial s) = Ok tt <->
     fd_open s = true /\ writeResult w (nWrites s) = None) /\
    fd_open (snd (flashEnd w true isUSBJTAGSerial s)) = fd_open s.
Proof.
  intros w usb s.
  assert (Hacts : acts (fun _ => True) (flashEnd w true usb)).
  { apply (acts_flashEnd w _) with (allowed := fun _ => true);
      intros; exact I || reflexivity. }
  destruct (flashEnd w true usb s) as [r s'] eqn:E.
  destruct (Hacts _ _ _ E) as (Hfd & _). cbn [fst snd].
  split; [|exact Hfd]. unfold flashEnd in E. cbv zeta in E.
  apply bind_inv in E as [(u & s1 & Hw & E)|(r0 & Hw & Hst)].
  - pose proof (connWrite_ok _ _ _ _ _ (encode_nonempty _) Hw) as Hopen.
    assert (Hfd1 : fd_open s1 = true).
    { destruct Hopen as [Ho Hr].
      destruct (connWrite_open w (encode (buildFlashEndCommand true)) s Ho Hr)
        as (s1' & Hw' & Hf & _).
      rewrite Hw in Hw'. now inversion Hw'; subst. }
    apply bind_inv in E as [(u2 & s2 & Ht & E)|(r1 & Ht & Hst)].
    + assert (Hfd2 : fd_open s2 = true).
      { assert (Ha : acts (fun _ => True)
                       (tryCatch
                          (bind (waitForResponse w FlashEnd 2000)
                             (fun response =>
                                if negb (ESP32Response.isSuccess response)
                                   && negb true
                                then throw (RuntimeError "Flash end failed")
                                else ret tt))
                          (fun e => if negb true then throw e else ret tt))).
        { apply acts_tryCatch;
            [apply acts_bind;
               [apply acts_waitForResponse; intros; exact I|]
            |]; intros; cbn [negb andb];
            try rewrite andb_false_r; apply acts_ret. }
        destruct (Ha _ _ _ Ht) as (Hf & _). congruence. }
      cbn [andb] in E. destruct usb.
      * pose proof (hardReset_open s2 Hfd2) as Hh. rewrite E in Hh.
        cbn in Hh. subst r. tauto.
      * inversion E; subst. tauto.
    + exfalso.
      apply tryCatch_inv in Ht as [(r2 & Hb & Hu)|(e0 & s3 & _ & Hh)].
      * inversion Hu; subst; [inversion Hst|].
        apply bind_inv in Hb as [(a & s3 & _ & Hb)|(r3 & Hb & Hst3)].
        -- cbn [negb andb] in Hb. rewrite andb_false_r in Hb.
           discriminate.
        -- apply stopped_hang_inv in Hst3. subst r3.
           now apply waitForResponse_returns in Hb.
      * cbn in Hh. returned Hh Hst.
  - split; [intros ->; inversion Hst|]. intros [Ho Hr].
    destruct (connWrite_stopped _ _ _ _ _ _ Hw Hst)
      as [(Hc & _)|(_ & _ & _ & errno & He & _)]; congruence.
Qed.

End PortMore.

(** ** Synchronising with the loader *)

Section SyncMore.
Import SLIPCodec ESP32Protocol FlashingService TraceSpec RunSpec.
Variable w : World.

(** Neither a write nor a sleep. *)
Let idle (a : Action) : Prop := isWrite a = false /\ isSleep a = false.

Lemma filter_idle (f : Action -> bool) t :
  Forall (fun a => f a = false) t -> filter f t = [].
Proof.
  induction 1 as [|a t Ha _ IH]; cbn [filter]; [reflexivity|].
  now rewrite Ha.
Qed.

Lemma idle_filters t :
  Forall idle t -> filter isWrite t = [] /\ filter isSleep t = [].
Proof.
  intros H. split; apply filter_idle; eapply Forall_impl; try exact H;
    intros a [Hw Hs]; assumption.
Qed.

Ltac splits := repeat match goal with |- _ /\ _ => split end.

(** The trace of one attempt: at most one write, of the sync frame, and
    no sleep. *)
Lemma performSync_shape s r s' :
  performSync w s = (r, s') ->
  exists t,
    trace s' = trace s ++ t /\
    (length (filter isWrite t) <= 1)%nat /\
    filter isSleep t = [] /\
    Forall (fun a => isWrite a = true ->
                     exists ok, a = AWrite (encode buildSyncCommand) ok) t.
Proof.
  intros H. unfold performSync in H. cbv zeta in H.
  assert (Hrest : acts idle
            (bind (waitForResponse w Sync 1000)
               (fun response =>
                  if negb (ESP32Response.isSuccess response)
                  then throw (RuntimeError "Sync failed")
                  else bind (drainLoop w 7) (fun _ => connFlush))))
    by (apply acts_afterSync; intros; split; reflexivity).
  assert (Hidle : forall t, Forall idle t ->
            Forall (fun a => isWrite a = true ->
                     exists ok, a = AWrite (encode buildSyncCommand) ok) t).
  { intros t Ht. eapply Forall_impl; [|exact Ht].
    intros a [Hw _] Hw'. congruence. }
  apply bind_inv in H as [(u & s1 & Hw & H)|(r0 & Hw & Hst)].
  - destruct (connWrite_ok _ _ _ _ _ (encode_nonempty _) Hw) as [Ho Hr].
    destruct (connWrite_open w (encode buildSyncCommand) s Ho Hr)
      as (s1' & Hw' & _ & Ht1).
    rewrite Hw in Hw'. inversion Hw'; subst s1'; clear Hw'.
    destruct (Hrest _ _ _ H) as (_ & _ & t2 & Ht2 & HQ).
    destruct (idle_filters t2 HQ) as [Hfw Hfs].
    exists (AWrite (encode buildSyncCommand) true :: t2).
    rewrite Ht2, Ht1, <- app_assoc. cbn [app filter isWrite isSleep length].
    rewrite Hfw, Hfs. cbn [length].
    repeat split; [lia|]. constructor; [intros _; eauto | now apply Hidle].
  - destruct (connWrite_stopped _ _ _ _ _ _ Hw Hst)
      as [(_ & -> & _)|(_ & _ & Ht & _)].
    + exists []. rewrite app_nil_r.
      cbn. repeat split; [lia | constructor].
    + eexists [_]. split; [exact Ht|].
      cbn. repeat split; [lia|]. constructor; [intros _; eauto | constructor].
Qed.

Lemma syncLoop_shape n : forall attempt s r s',
  attempt + Z.of_nat n = 21 ->
  syncLoop w n attempt s = (r, s') ->
  exists t,
    trace s' = trace s ++ t /\
    (length (filter isWrite t) <= n)%nat /\
    Forall (fun a => isWrite a = true ->
                     exists ok, a = AWrite (encode buildSyncCommand) ok) t /\
    Forall (fun a => isSleep a = true -> a = ASleep SYNC_RETRY_DELAY_MS) t /\
    (length (filter isSleep t) < S n)%nat /\
    (n <> 0%nat -> attempt + Z.of_nat (length (filter isSleep t)) <= 20) /\
    (forall e, r = Throw e ->
       e = RuntimeError "Failed to sync with bootloader" /\
       attempt + Z.of_nat (length (filter isSleep t)) = 20).
Proof.
  induction n as [|n IH]; intros attempt s r s' Hn H; cbn [syncLoop] in H.
  - inversion H; subst. exists []. rewrite app_nil_r. cbn.
    splits; try constructor; try lia; try congruence;
      intros e He; discriminate.
  - assert (Hsl : forall t, filter isSleep t = [] ->
                  Forall (fun a => isSleep a = true ->
                                   a = ASleep SYNC_RETRY_DELAY_MS) t).
    { intros t Ht. apply Forall_forall. intros a Hin Hs.
      assert (Hf : In a (filter isSleep t)) by (apply filter_In; now split).
      rewrite Ht in Hf. destruct Hf. }
    apply bind_inv in H as [(done & s1 & Ht & H)|(r0 & Ht & Hst)].
    + apply tryCatch_inv in Ht as [(r1 & Hp & Hu)|(e0 & s0 & Hp & Hh)].
      * (* the attempt succeeded *)
        inversion Hu; subst r1; clear Hu.
        apply bind_ok_inv in Hp as (u & s2 & Hp & Hret).
        inversion Hret; subst; clear Hret.
        inversion H; subst; clear H.
        destruct (performSync_shape _ _ _ Hp) as (t & Htr & Hw & Hs & Hall).
        exists t. rewrite Hs. cbn [length].
        splits; try assumption; try lia; auto.
        intros e He; discriminate.
      * (* the attempt failed and another one follows *)
        apply bind_inv in Hp as [(u & s2 & Hp & Hret)|(e1 & Hp & _)];
          [inversion Hret|].
        destruct (performSync_shape _ _ _ Hp) as (t & Htr & Hw & Hs & Hall).
        destruct (attempt =? SYNC_RETRIES) eqn:Ea; [discriminate|].
        unfold SYNC_RETRIES in Ea.
        inversion Hh; subst done s1; clear Hh. cbn [trace] in *.
        destruct (IH (attempt + 1) _ _ _ ltac:(lia) H)
          as (t' & Htr' & Hw' & Hall' & Hsl' & Hlt' & Hle' & Hthrow').
        exists (t ++ ASleep SYNC_RETRY_DELAY_MS :: t').
        cbn [trace] in Htr'. rewrite Htr', Htr, <- !app_assoc.
        cbn [app]. rewrite !filter_app, !length_app.
        cbn [filter isWrite isSleep length]. rewrite Hs. cbn [length].
        assert (n <> 0%nat) by lia.
        splits.
        -- reflexivity.
        -- lia.
        -- apply Forall_app. split; [assumption|].
           constructor; [discriminate | assumption].
        -- apply Forall_app. split; [now apply Hsl|].
           constructor; [reflexivity | assumption].
        -- lia.
        -- intros _. specialize (Hle' ltac:(assumption)). lia.
        -- intros e He. destruct (Hthrow' _ He) as [He' Hc].
           split; [assumption | lia].
    + (* the last attempt did not return normally *)
      apply tryCatch_inv in Ht as [(r1 & Hp & Hu)|(e0 & s0 & Hp & Hh)].
      * (* it is stuck in its write *)
        inversion Hu; subst; [inversion Hst|].
        inversion Hst; subst.
        apply bind_inv in Hp as [(u & s2 & Hp & Hret)|(r1 & Hp & _)];
          [inversion Hret|].
        destruct (performSync_shape _ _ _ Hp) as (t & Htr & Hw & Hs & Hall).
        exists t. rewrite Hs. cbn [length].
        splits; try assumption; try lia; auto.
        intros e He; discriminate.
      * (* it failed *)
        apply bind_inv in Hp as [(u & s2 & Hp & Hret)|(e1 & Hp & _)];
          [inversion Hret|].
        destruct (performSync_shape _ _ _ Hp) as (t & Htr & Hw & Hs & Hall).
        destruct (attempt =? SYNC_RETRIES) eqn:Ea.
        -- unfold SYNC_RETRIES in Ea. inversion Hh; subst; clear Hh.
           inversion Hst; subst.
           exists t. rewrite Hs. cbn [length].
           splits; try assumption; try lia; auto.
           intros e He. inversion He; subst. split; [reflexivity | lia].
        -- apply bind_inv in Hh as [(u & s2 & _ & Hret)|(r2 & Hl & Hst2)];
             [inversion Hret; subst; inversion Hst | returned Hl Hst2].
Qed.

(** X16. [syncWithRetry] makes at most 20 attempts: it writes at most 20
    frames, all of them the sync frame, and sleeps at most 19 times, 50 ms
    each.  It fails only after the 19th sleep, and then always with the
    same error, "Failed to sync with bootloader", whatever made the
    attempts fail (a closed port, a failed write, a silent loader or a
    cancellation). *)
Theorem X16_sync_is_retried_twenty_times :
  forall (s : St) (r : Res unit) (s' : St),
    syncWithRetry w s = (r, s') ->
    exists t,
      trace s' = trace s ++ t /\
      (length (filter isWrite t) <= 20)%nat /\
      Forall (fun a => isWrite a = true ->
                       exists ok, a = AWrite (encode buildSyncCommand) ok) t /\
      Forall (fun a => isSleep a = true -> a = ASleep 50) t /\
      (length (filter isSleep t) <= 19)%nat /\
      (forall e, r = Throw e ->
         e = RuntimeError "Failed to sync with bootloader" /\
         length (filter isSleep t) = 19%nat).
Proof.
  intros s r s' H. unfold syncWithRetry in H.
  change (Z.to_nat SYNC_RETRIES) with 20%nat in H.
  destruct (syncLoop_shape 20 1 s r s' eq_refl H)
    as (t & Htr & Hw & Hall & Hsl & Hlt & Hle & Hthrow).
  exists t. splits; try assumption.
  - specialize (Hle ltac:(discriminate)). lia.
  - intros e He. destruct (Hthrow _ He) as [He' Hc].
    split; [assumption | lia].
Qed.

End SyncMore.

Section SyncWitness.
Import SLIPCodec ESP32Protocol FlashingService TraceSpec RunSpec.

Lemma X16_sync_is_retried_twenty_times_witness :
  exists t,
    trace (snd (syncWithRetry (Scenarios.scripted None []) Scenarios.connected))
    = trace Scenarios.connected ++ t /\
    (length (filter isWrite t) <= 20)%nat /\
    (length (filter isSleep t) <= 19)%nat.
Proof.
  destruct (syncWithRetry (Scenarios.scripted None []) Scenarios.connected)
    as [r s'] eqn:E.
  destruct (X16_sync_is_retried_twenty_times _ _ _ _ E)
    as (t & Ht & Hw & _ & _ & Hs & _).
  exists t. split; [exact Ht|]. split; assumption.
Defined.

End SyncWitness.

(** ** The watchdogs *)

Section WatchdogsMore.
Import SLIPCodec ESP32Protocol FlashingService TraceSpec RunSpec.
Import ESP32C3Registers.
Variable w : World.

Lemma writeReg_writes address value s u s' :
  writeReg w address value s = (Ok u, s') ->
  writesOf (trace s')
  = writesOf (trace s)
    ++ [encode (buildWriteRegCommand address value 0xFFFFFFFF 0)].
Proof.
  revert s u s'.
  change (writesExactly
            [encode (buildWriteRegCommand address value 0xFFFFFFFF 0)]
            (writeReg w address value)).
  unfold writeReg. cbv zeta.
  apply (writesExactly_bind [_] []); [apply writesExactly_connWrite|].
  intros _. apply (writesExactly_bind [] []);
    [apply writesExactly_waitForResponse|].
  intros response. apply writesExactly_check.
Qed.

Lemma readReg_writes address s v s' :
  readReg w address s = (Ok v, s') ->
  writesOf (trace s')
  = writesOf (trace s) ++ [encode (buildReadRegCommand address)] /\
  0 <= v < 2 ^ 32.
Proof.
  intros H. unfold readReg in H. cbv zeta in H.
  apply bind_ok_inv in H as (u & s1 & Hw & H).
  apply bind_ok_inv in H as (response & s2 & Hr & H).
  pose proof (writesExactly_connWrite w _ _ _ _ Hw) as E1.
  pose proof (writesExactly_waitForResponse w _ _ _ _ _ Hr) as E2.
  pose proof (waitForResponse_parsed w _ _ _ _ _ Hr) as (_ & _ & Hv & _).
  destruct (negb (ESP32Response.isSuccess response)); [discriminate|].
  inversion H; subst. rewrite E2, E1, app_nil_r. split; [reflexivity|].
  exact Hv.
Qed.

(** Clearing and setting bit 31 of a 32-bit word. *)
Lemma clear_enable_bit v :
  0 <= v < 2 ^ 32 ->
  let v' := Z.land v (wrap32 (Z.lnot WDT_EN_BIT)) in
  Z.testbit v' 31 = false /\
  forall i, 0 <= i -> i <> 31 -> Z.testbit v' i = Z.testbit v i.
Proof.
  intros Hv v'. subst v'.
  change (wrap32 (Z.lnot WDT_EN_BIT)) with (Z.ones 31).
  rewrite Z.land_ones by lia. split.
  - apply Z.mod_pow2_bits_high. lia.
  - intros i Hi Hne. destruct (Z.lt_ge_cases i 31) as [Hlt|Hge].
    + apply Z.mod_pow2_bits_low. lia.
    + rewrite Z.mod_pow2_bits_high by lia. symmetry.
      destruct (Z.eq_dec v 0) as [->|Hnz]; [apply Z.bits_0|].
      apply Z.bits_above_log2; [lia|].
      assert (Z.log2 v < 32) by (apply Z.log2_lt_pow2; lia). lia.
Qed.

Lemma set_feed_bit v :
  let v' := Z.lor v SWD_AUTO_FEED_EN_BIT in
  Z.testbit v' 31 = true /\
  forall i, 0 <= i -> i <> 31 -> Z.testbit v' i = Z.testbit v i.
Proof.
  intros v'. subst v'.
  change SWD_AUTO_FEED_EN_BIT with (2 ^ 31). split.
  - rewrite Z.lor_spec, Z.pow2_bits_true by lia. apply orb_true_r.
  - intros i Hi Hne. rewrite Z.lor_spec, Z.pow2_bits_false by lia.
    apply orb_false_r.
Qed.

(** A wait that returns a response returns the loader's answer. *)
Lemma waitLoop_answer command outcomes : forall s r s',
  waitLoop w command outcomes s = (Ok r, s') ->
  findResponse command
    (fst (SLIPDecoder.process (m_slipDecoder s) (received outcomes)))
  = Some r /\
  nWaits s' = nWaits s.
Proof.
  induction outcomes as [|o later IH]; intros s r s' H; cbn [waitLoop] in H;
    [discriminate|].
  apply bind_ok_inv in H as (u & s1 & Hc & H).
  apply bind_ok_inv in H as (found & s2 & Hf & H).
  assert (Hs1 : m_slipDecoder s1 = m_slipDecoder s /\ nWaits s1 = nWaits s).
  { unfold throwIfCancelled, isCancelled, bind in Hc.
    destruct (flagAt w (nPolls s)); inversion Hc; subst. now split. }
  destruct Hs1 as [Hd1 Hn1].
  apply tryCatch_inv in Hf as [(r0 & Hf & Hu)|(e & s3 & Hf & Hh)].
  - inversion Hu; subst; clear Hu.
    apply bind_ok_inv in Hf as (data & s3 & Hd & Hf).
    apply bind_ok_inv in Hf as (packets & s4 & Hp & Hf).
    unfold ret in Hf. injection Hf as Hfound Hs4. subst s4 found.
    unfold connRead, bind, requireConnected in Hd.
    destruct (fd_open s1); [|discriminate].
    destruct o as [bytes|errno]; [|discriminate].
    unfold ret in Hd. injection Hd as Hdata Hs3. subst s3 data.
    unfold decoderProcess in Hp.
    destruct (SLIPDecoder.process (m_slipDecoder s1) bytes)
      as [pk d] eqn:Ep.
    unfold bind, setDecoder, ret in Hp. injection Hp as Hpk Hs2.
    subst packets s2.
    cbn [received]. rewrite process_app, <- Hd1, Ep. cbn [fst snd].
    rewrite findResponse_app. revert H.
    destruct (findResponse command pk) as [response|] eqn:Ef; intros H.
    + unfold ret in H. injection H as Hr Hs'. subst r s'. cbn [nWaits].
      split; [reflexivity | exact Hn1].
    + destruct (IH _ _ _ H) as [Ha Hn]. cbn [m_slipDecoder nWaits] in Ha, Hn.
      split; [exact Ha | congruence].
  - exfalso.
    apply bind_inv in Hf as [(data & s4 & _ & Hf)|(r1 & Hd & Hst)].
    + apply bind_inv in Hf as [(packets & s5 & _ & Hf)|(r2 & Hp & Hst)];
        [discriminate|].
      unfold decoderProcess in Hp.
      destruct (SLIPDecoder.process (m_slipDecoder s4) data);
        returned Hp Hst.
    + unfold connRead, bind, requireConnected in Hd.
      destruct (fd_open s1);
        [destruct o as [bytes|errno]; [returned Hd Hst|]|];
        inversion Hd; subst; inversion Hst; subst; discriminate.
Qed.

Lemma waitForResponse_answer command timeoutMs s r s' :
  waitForResponse w command timeoutMs s = (Ok r, s') ->
  answer command (reads w (nWaits s) timeoutMs) = Some r /\
  nWaits s' = S (nWaits s).
Proof.
  intros H. unfold waitForResponse in H.
  apply bind_ok_inv in H as (outcomes & s1 & Hn & H).
  apply bind_ok_inv in H as (u & s2 & Hd & H).
  inversion Hn; subst; clear Hn. inversion Hd; subst; clear Hd.
  apply waitLoop_answer in H as [Ha Hw]. now split.
Qed.

Lemma connWrite_waits data s u s1 :
  connWrite w data s = (Ok u, s1) -> nWaits s1 = nWaits s.
Proof.
  unfold connWrite, bind, requireConnected.
  destruct (fd_open s); [|discriminate]. intros H. now write_cases H.
Qed.

Lemma writeReg_waits address value s u s' :
  writeReg w address value s = (Ok u, s') -> nWaits s' = S (nWaits s).
Proof.
  intros H. unfold writeReg in H. cbv zeta in H.
  apply bind_ok_inv in H as (u1 & s1 & Hw & H).
  apply bind_ok_inv in H as (response & s2 & Hr & H).
  apply connWrite_waits in Hw. apply waitForResponse_answer in Hr as [_ Hr].
  destruct (negb (ESP32Response.isSuccess response)); [discriminate|].
  inversion H; subst. congruence.
Qed.

(** [readReg] returns the value field of the loader's answer. *)
Lemma readReg_answer address s v s' :
  readReg w address s = (Ok v, s') ->
  nWaits s' = S (nWaits s) /\
  exists response,
    answer ReadReg (reads w (nWaits s) 1000) = Some response /\
    v = ESP32Response.value response.
Proof.
  intros H. unfold readReg in H. cbv zeta in H.
  apply bind_ok_inv in H as (u1 & s1 & Hw & H).
  apply bind_ok_inv in H as (response & s2 & Hr & H).
  apply connWrite_waits in Hw. apply waitForResponse_answer in Hr as [Ha Hr].
  destruct (negb (ESP32Response.isSuccess response)); [discriminate|].
  inversion H; subst. split; [congruence|].
  exists response. rewrite <- Hw. now split.
Qed.

(** X17. When [disableWatchdogs] returns normally it has written exactly
    eight frames: unlock the RTC watchdog, read its configuration, write
    it back with only the enable bit (31) cleared, lock it again; unlock
    the super watchdog, read its configuration, write it back with only
    the auto-feed bit (31) set, lock it again.  The two configurations
    are the value fields of the loader's answers to the two [READ_REG]
    commands, which are awaited in the second and in the sixth wait of
    the function, and the words written back are computed from them. *)
Theorem X17_watchdogs_are_disabled_bit_by_bit :
  forall (s s' : St),
    disableWatchdogs w s = (Ok tt, s') ->
    exists wdtAnswer swdAnswer,
      answer ReadReg (reads w (nWaits s + 1) 1000) = Some wdtAnswer /\
      answer ReadReg (reads w (nWaits s + 5) 1000) = Some swdAnswer /\
      let wdtConfig := ESP32Response.value wdtAnswer in
      let swdConfig := ESP32Response.value swdAnswer in
      let newWdtConfig := Z.land wdtConfig (wrap32 (Z.lnot WDT_EN_BIT)) in
      let newSwdConfig := Z.lor swdConfig SWD_AUTO_FEED_EN_BIT in
      writesOf (trace s')
      = writesOf (trace s)
        ++ map encode
             [buildWriteRegCommand RTC_WDT_WPROTECT RTC_WDT_WKEY 0xFFFFFFFF 0;
              buildReadRegCommand RTC_WDT_CONFIG0;
              buildWriteRegCommand RTC_WDT_CONFIG0 newWdtConfig 0xFFFFFFFF 0;
              buildWriteRegCommand RTC_WDT_WPROTECT 0 0xFFFFFFFF 0;
              buildWriteRegCommand SWD_WPROTECT SWD_WKEY 0xFFFFFFFF 0;
              buildReadRegCommand SWD_CONF;
              buildWriteRegCommand SWD_CONF newSwdConfig 0xFFFFFFFF 0;
              buildWriteRegCommand SWD_WPROTECT 0 0xFFFFFFFF 0] /\
      0 <= wdtConfig < 2 ^ 32 /\ 0 <= swdConfig < 2 ^ 32 /\
      Z.testbit newWdtConfig 31 = false /\
      Z.testbit newSwdConfig 31 = true /\
      (forall i, 0 <= i -> i <> 31 ->
         Z.testbit newWdtConfig i = Z.testbit wdtConfig i /\
         Z.testbit newSwdConfig i = Z.testbit swdConfig i).
Proof.
  intros s s' H. unfold disableWatchdogs in H.
  apply bind_ok_inv in H as (u1 & s1 & H1 & H).
  apply bind_ok_inv in H as (wdtConfig & s2 & H2 & H). cbv zeta in H.
  apply bind_ok_inv in H as (u3 & s3 & H3 & H).
  apply bind_ok_inv in H as (u4 & s4 & H4 & H).
  apply bind_ok_inv in H as (u5 & s5 & H5 & H).
  apply bind_ok_inv in H as (swdConfig & s6 & H6 & H). cbv zeta in H.
  apply bind_ok_inv in H as (u7 & s7 & H7 & H8).
  pose proof (writeReg_waits _ _ _ _ _ H1) as N1.
  pose proof (readReg_answer _ _ _ _ H2)
    as (N2 & wdtAnswer & A2 & V2).
  pose proof (writeReg_waits _ _ _ _ _ H3) as N3.
  pose proof (writeReg_waits _ _ _ _ _ H4) as N4.
  pose proof (writeReg_waits _ _ _ _ _ H5) as N5.
  pose proof (readReg_answer _ _ _ _ H6)
    as (N6 & swdAnswer & A6 & V6).
  apply writeReg_writes in H1, H3, H4, H5, H7, H8.
  apply readReg_writes in H2 as [H2 Hv2], H6 as [H6 Hv6].
  exists wdtAnswer, swdAnswer. cbv zeta.
  replace (nWaits s + 1)%nat with (nWaits s1) by lia.
  replace (nWaits s + 5)%nat with (nWaits s5) by lia.
  split; [exact A2|]. split; [exact A6|].
  rewrite <- V2, <- V6.
  destruct (clear_enable_bit wdtConfig Hv2) as [Hc31 Hc].
  destruct (set_feed_bit swdConfig) as [Hs31 Hs].
  split; [|repeat split; try lia; auto].
  rewrite H8, H7, H6, H5, H4, H3, H2, H1, <- !app_assoc. reflexivity.
Qed.

End WatchdogsMore.

Section WatchdogsWitness.
Import SLIPCodec ESP32Protocol FlashingService TraceSpec RunSpec.

Lemma X17_watchdogs_are_disabled_bit_by_bit_witness :
  exists s',
    disableWatchdogs Devices.watchdogs Scenarios.connected = (Ok tt, s') /\
    writesOf (trace s')
    = map encode
        [buildWriteRegCommand ESP32C3Registers.RTC_WDT_WPROTECT
           ESP32C3Registers.RTC_WDT_WKEY 0xFFFFFFFF 0;
         buildReadRegCommand ESP32C3Registers.RTC_WDT_CONFIG0;
         buildWriteRegCommand ESP32C3Registers.RTC_WDT_CONFIG0
           0x00000123 0xFFFFFFFF 0;
         buildWriteRegCommand ESP32C3Registers.RTC_WDT_WPROTECT
           0 0xFFFFFFFF 0;
         buildWriteRegCommand ESP32C3Registers.SWD_WPROTECT
           ESP32C3Registers.SWD_WKEY 0xFFFFFFFF 0;
         buildReadRegCommand ESP32C3Registers.SWD_CONF;
         buildWriteRegCommand ESP32C3Registers.SWD_CONF
           0x80000044 0xFFFFFFFF 0;
         buildWriteRegCommand ESP32C3Registers.SWD_WPROTECT
           0 0xFFFFFFFF 0].
Proof.
  destruct (disableWatchdogs Devices.watchdogs Scenarios.connected)
    as [r s'] eqn:E.
  assert (Hr : r = Ok tt).
  { apply (f_equal fst) in E. vm_compute in E. symmetry. exact E. }
  subst r. exists s'. split; [reflexivity|].
  destruct (X17_watchdogs_are_disabled_bit_by_bit _ _ _ E)
    as (wdtAnswer & swdAnswer & Ha & Hb & Hw & _).
  vm_compute in Ha. vm_compute in Hb.
  inversion Ha; subst wdtAnswer. inversion Hb; subst swdAnswer.
  rewrite Hw. reflexivity.
Defined.

End WatchdogsWitness.

(** ** Every run *)

Section EveryRun.
Import SLIPCodec ESP32Protocol FlashingService TraceSpec RunSpec.
Variable w : World.

Lemma emitsOf_underWay t :
  Forall underWay t ->
  Forall (fun st => FlashingState.isActive st = true) (emitsOf t) /\
  Forall (fun a => isFinished a = false) t.
Proof.
  induction 1 as [|a t Ha _ [IH1 IH2]]; [split; constructor|].
  split.
  - destruct a; cbn [emitsOf flat_map app]; try exact IH1.
    constructor; [exact Ha | exact IH1].
  - constructor; [|exact IH2]. destruct a; try reflexivity. destruct Ha.
Qed.

(** X18. A run either returns or is stuck for ever in a write that the
    port does not take; on a port that takes every write in the end it
    returns.  A run that returns has reported [Connecting] first, then
    active states only, and one terminal state last: [Complete], or one
    of the errors [Cancelled], [SyncFailed] and [ConnectionFailed].  Its
    finished signal is given once, as the very last action, and tells
    success exactly when the terminal state is [Complete]; the port is
    closed and the service no longer flashing.  A run that is stuck has
    reported [Connecting] and active states only, and no terminal state;
    it has given no finished signal, and the port stays open and the
    service flashing. *)
Theorem X18_run_lifecycle :
  forall (firmware : FirmwareFile.t) (port : SerialPort.t)
         (baudRate : BaudRate),
    let outcome := fst (runFlashingM w firmware port baudRate initial) in
    let s' := runFlashing w firmware port baudRate in
    (drains w -> outcome = Ok tt) /\
    (outcome = Ok tt ->
     fd_open s' = false /\ m_isFlashing s' = false /\
     exists mids final success t,
       emitsOf (trace s') = FlashingState.connecting :: mids ++ [final] /\
       Forall (fun st => FlashingState.isActive st = true) mids /\
       trace s' = t ++ [AFinished success] /\
       Forall (fun a => isFinished a = false) t /\
       (if success then final = FlashingState.complete
        else reportedError final)) /\
    (outcome <> Ok tt ->
     outcome = Hang /\ stalled w s' /\ m_isFlashing s' = true /\
     exists mids,
       emitsOf (trace s') = FlashingState.connecting :: mids /\
       Forall (fun st => FlashingState.isActive st = true) mids /\
       Forall (fun a => isFinished a = false) (trace s')).
Proof.
  intros firmware port baudRate outcome s'. subst outcome s'.
  split; [apply run_returns|].
  destruct (run_shape w underWay) with
    (allowed := fun _ : ESP32Command => true)
    (fw := firmware) (port := port) (baud := baudRate)
    as (t & tail & Ht & HQ & Hcases);
    try (intros; exact I); try reflexivity;
    try (intros st Hst; exact Hst);
    try (intros; split; [reflexivity | exact I]);
    try (intros; split; reflexivity).
  destruct (emitsOf_underWay t HQ) as [Hact Hfin].
  destruct Hcases as [(Hr & ->)|(Hr & Hfd & Hfl & Htail)].
  - (* the run is stuck *)
    split; [intros Hok; rewrite Hr in Hok; discriminate|]. intros _.
    destruct (run_outcome w firmware port baudRate)
      as [(Hr' & _)|(_ & Hst & Hfl)];
      [rewrite Hr in Hr'; discriminate|].
    split; [exact Hr|]. split; [exact Hst|]. split; [exact Hfl|].
    exists (emitsOf t). rewrite Ht, app_nil_r.
    split; [reflexivity|]. split; [exact Hact|].
    constructor; [reflexivity | exact Hfin].
  - (* the run returned *)
    split; [|intros Hne; now destruct Hne]. intros _.
    split; [assumption|]. split; [assumption|].
    rewrite Ht.
    destruct Htail as [(closing & Hc & ->)|(pre & b & st & Hpre & -> & Hst)].
    + exists (emitsOf t), FlashingState.complete, true,
        (AEmit FlashingState.connecting
           :: t ++ AEmit FlashingState.complete :: closing).
      split; [|split; [assumption | split; [|split; [|reflexivity]]]].
      * change (AEmit FlashingState.connecting :: t ++ ?x)
          with ([AEmit FlashingState.connecting] ++ t ++ x).
        rewrite !emitsOf_app.
        destruct Hc as [-> | ->]; reflexivity.
      * cbn [app]. rewrite <- app_assoc. reflexivity.
      * constructor; [reflexivity|]. apply Forall_app. split; [assumption|].
        constructor; [reflexivity|].
        destruct Hc as [-> | ->]; repeat constructor.
    + exists (emitsOf t), st, false,
        (AEmit FlashingState.connecting
           :: t ++ pre ++ [APoll Handler b; AEmit st]).
      split; [|split; [assumption | split; [|split; [|assumption]]]].
      * change (AEmit FlashingState.connecting :: t ++ ?x)
          with ([AEmit FlashingState.connecting] ++ t ++ x).
        rewrite !emitsOf_app.
        destruct Hpre as [-> | ->]; reflexivity.
      * cbn [app]. rewrite <- !app_assoc. reflexivity.
      * constructor; [reflexivity|]. apply Forall_app. split; [assumption|].
        destruct Hpre as [-> | ->]; repeat constructor.
Qed.

(** X19. Every frame a run hands to the port is a SLIP-encoded command
    packet.  The register commands [READ_REG] and [WRITE_REG] are sent
    only to a USB-JTAG-Serial port, [CHANGE_BAUDRATE] only when a rate
    other than 115200 was asked for, and the line speed is then changed
    to that rate and to no other. *)
Theorem X19_run_wire_discipline :
  forall (firmware : FirmwareFile.t) (port : SerialPort.t)
         (baudRate : BaudRate),
    Forall (wireDiscipline port baudRate)
           (trace (runFlashing w firmware port baudRate)).
Proof.
  intros firmware port baudRate.
  destruct (run_shape w (wireDiscipline port baudRate)) with
    (allowed := mayBeSent port baudRate)
    (fw := firmware) (port := port) (baud := baudRate)
    as (t & tail & Ht & HQ & Htail);
    try (intros; exact I); try reflexivity.
  - intros command payload checksum ok Hc. exists command.
    split; [assumption|]. now exists payload, checksum.
  - intros Husb. cbn. now rewrite Husb.
  - intros Hb. cbn. rewrite Hb. repeat split.
  - rewrite Ht. constructor; [exact I|]. apply Forall_app.
    split; [assumption|].
    destruct Htail
      as [(_ & ->)
         |(_ & _ & _ & [(closing & Hc & ->)
                       |(pre & b & st & Hpre & -> & _)])].
    + constructor.
    + constructor; [exact I|].
      destruct Hc as [-> | ->]; repeat constructor.
    + destruct Hpre as [-> | ->]; repeat constructor.
Qed.

End EveryRun.

Section LifecycleWitness.
Import SLIPCodec ESP32Protocol FlashingService TraceSpec RunSpec.

Lemma X18_run_lifecycle_witness :
  let done :=
    runFlashing Scenarios.bundleAccepted Scenarios.bundle
                Scenarios.classicPort Baud115200 in
  let stuck :=
    runFlashing Scenarios.cloggedOnFirstBlock Scenarios.smallFirmware
                Scenarios.classicPort Baud115200 in
  (fd_open done = false /\ m_isFlashing done = false /\
   exists t success, trace done = t ++ [AFinished success]) /\
  (stalled Scenarios.cloggedOnFirstBlock stuck /\
   m_isFlashing stuck = true /\
   Forall (fun a => isFinished a = false) (trace stuck)).
Proof.
  cbv zeta. split.
  - destruct (X18_run_lifecycle
                Scenarios.bundleAccepted Scenarios.bundle
                Scenarios.classicPort Baud115200) as (Hd & Hok & _).
    specialize (Hd (scripted_drains _ _)).
    destruct (Hok Hd)
      as (Hfd & Hfl & mids & final & success & t & _ & _ & Ht & _).
    split; [exact Hfd|]. split; [exact Hfl|]. now exists t, success.
  - destruct (X18_run_lifecycle
                Scenarios.cloggedOnFirstBlock Scenarios.smallFirmware
                Scenarios.classicPort Baud115200) as (_ & _ & Hstuck).
    destruct Hstuck as (_ & Hst & Hfl & mids & _ & _ & Hfin).
    + vm_compute. discriminate.
    + split; [exact Hst|]. split; [exact Hfl | exact Hfin].
Defined.

End LifecycleWitness.

Section EndOfFlashing.
Import SLIPCodec ESP32Protocol FlashingService TraceSpec RunSpec.
Variable w : World.

(** Neither a write. *)
Let silent (a : Action) : Prop := isWrite a = false.

Lemma silent_filter t : Forall silent t -> filter isWrite t = [].
Proof.
  induction 1 as [|a t Ha _ IH]; cbn [filter]; [reflexivity|].
  unfold silent in Ha. now rewrite Ha.
Qed.

Lemma silent_notFlashEnd t : Forall silent t -> NoFlashEnd t.
Proof.
  intros H. eapply Forall_impl; [|exact H].
  intros a Ha. destruct a; try reflexivity. discriminate.
Qed.

(** [flashEnd] writes its frame first, if it writes at all, and nothing
    else. *)
Lemma flashEnd_writes reboot usb s r s' :
  flashEnd w reboot usb s = (r, s') ->
  exists t,
    trace s' = trace s ++ t /\
    (filter isWrite t = [] \/
     exists ok,
       filter isWrite t = [AWrite (encode (buildFlashEndCommand reboot)) ok]).
Proof.
  intros H. unfold flashEnd in H. cbv zeta in H.
  assert (Hrest : forall s1 r1 s2,
            (bind
               (tryCatch
                  (bind (waitForResponse w FlashEnd 2000)
                     (fun response =>
                        if negb (ESP32Response.isSuccess response)
                           && negb reboot
                        then throw (RuntimeError "Flash end failed")
                        else ret tt))
                  (fun e => if negb reboot then throw e else ret tt))
               (fun _ => if reboot && usb then hardReset else ret tt)) s1
            = (r1, s2) ->
            exists t, trace s2 = trace s1 ++ t /\ filter isWrite t = []).
  { intros s1 r1 s2 Hr.
    destruct (acts_afterFlashEnd w silent) with
      (reboot := reboot) (usb := usb) (s := s1) (r := r1) (s' := s2)
      as (_ & _ & t & Ht & HQ); try (intros; reflexivity); [exact Hr|].
    exists t. split; [assumption | now apply silent_filter]. }
  apply bind_inv in H as [(u & s1 & Hw & H)|(r0 & Hw & Hst)].
  - destruct (connWrite_ok _ _ _ _ _ (encode_nonempty _) Hw) as [Ho Hr].
    destruct (connWrite_open w (encode (buildFlashEndCommand reboot)) s Ho Hr)
      as (s1' & Hw' & _ & Ht1).
    rewrite Hw in Hw'. inversion Hw'; subst s1'; clear Hw'.
    destruct (Hrest _ _ _ H) as (t2 & Ht2 & Hf2).
    exists (AWrite (encode (buildFlashEndCommand reboot)) true :: t2).
    rewrite Ht2, Ht1, <- app_assoc. split; [reflexivity|].
    right. exists true. cbn [filter isWrite]. now rewrite Hf2.
  - destruct (connWrite_stopped _ _ _ _ _ _ Hw Hst)
      as [(_ & -> & _)|(_ & _ & Ht & _)].
    + exists []. rewrite app_nil_r. split; [reflexivity | now left].
    + eexists [_]. split; [exact Ht|]. right. now exists false.
Qed.

Lemma fromFlashEnd_writes port s r s' :
  fromFlashEnd w port s = (r, s') ->
  exists t,
    trace s' = trace s ++ t /\
    (filter isWrite t = [] \/
     exists ok,
       filter isWrite t = [AWrite (encode (buildFlashEndCommand true)) ok]).
Proof.
  intros H. unfold fromFlashEnd in H.
  apply bind_inv in H as [(u & s1 & H1 & H2)|(r0 & H1 & Hst)].
  - destruct (flashEnd_writes _ _ _ _ _ H1) as (t1 & Ht1 & Hf1).
    assert (Ha : appends silent
              (bind (sleepMs 1000)
                 (fun _ => bind (emit FlashingState.complete)
                    (fun _ => bind cleanup (fun _ => emitFinished true))))).
    { apply appends_bind;
        [apply appends_of_acts, acts_log; reflexivity|]. intros _.
      apply appends_bind;
        [apply appends_of_acts, acts_log; reflexivity|]. intros _.
      apply appends_bind; [apply appends_cleanup; reflexivity|]. intros _.
      apply appends_of_acts, acts_log; reflexivity. }
    destruct (Ha _ _ _ H2) as (t2 & Ht2 & HQ2).
    exists (t1 ++ t2). rewrite Ht2, Ht1, <- app_assoc.
    split; [reflexivity|]. rewrite filter_app, (silent_filter t2 HQ2).
    now rewrite app_nil_r.
  - eapply flashEnd_writes; eassumption.
Qed.

Lemma handler_writes e s r s' :
  handler w e s = (r, s') ->
  exists t, trace s' = trace s ++ t /\ filter isWrite t = [].
Proof.
  intros H.
  destruct (handler_outcome _ _ _ _ _ H)
    as (_ & _ & pre & b & st & Hpre & Ht & _).
  eexists. split; [exact Ht|].
  destruct Hpre as [-> | ->]; reflexivity.
Qed.

(** X20. In every run the [FLASH_END] command is the last thing written,
    if it is written at all: the trace splits into a part without any
    [FLASH_END] and a part whose only write, if any, is the frame of
    [FLASH_END] with the reboot flag.  So the loader is told to reboot at
    most once, and nothing is sent to it afterwards. *)
Theorem X20_flash_end_is_the_last_write :
  forall (firmware : FirmwareFile.t) (port : SerialPort.t)
         (baudRate : BaudRate),
    exists before after,
      trace (runFlashing w firmware port baudRate) = before ++ after /\
      NoFlashEnd before /\
      (filter isWrite after = [] \/
       exists ok,
         filter isWrite after
         = [AWrite (encode (buildFlashEndCommand true)) ok]).
Proof.
  intros firmware port baudRate. rewrite runFlashing_unfold.
  destruct (beforeFlashEnd w firmware port baudRate initial)
    as [[u|e|] s1] eqn:E1.
  all: destruct (beforeFlashEnd_first w notFlashEnd) with
      (allowed := fun c => negb (commandCode c =? commandCode FlashEnd))
      (fw := firmware) (port := port) (baud := baudRate)
      (s := initial) (r := fst (beforeFlashEnd w firmware port baudRate initial))
      (s' := s1)
      as (t1 & Ht1 & HQ1);
    try (intros; reflexivity);
    try (intros; split; reflexivity);
    try (rewrite E1; reflexivity).
  1,3,5: intros command payload checksum ok Hc; unfold notFlashEnd;
    cbn [isFlashEndWrite]; rewrite opcode_encode_buildPacket;
    now apply negb_true_iff.
  all: cbn [trace initial app] in Ht1.
  all: assert (Hb : NoFlashEnd (trace s1))
    by (rewrite Ht1; constructor; [reflexivity | exact HQ1]).
  - destruct (fromFlashEnd w port s1) as [[u2|e2|] s2] eqn:E2.
    + destruct (fromFlashEnd_writes _ _ _ _ E2) as (t2 & Ht2 & Hf2).
      exists (trace s1), t2. auto.
    + destruct (fromFlashEnd_writes _ _ _ _ E2) as (t2 & Ht2 & Hf2).
      destruct (handler w e2 s2) as [r3 s3] eqn:E3. cbn [snd].
      destruct (handler_writes _ _ _ _ E3) as (t3 & Ht3 & Hf3).
      exists (trace s1), (t2 ++ t3). rewrite Ht3, Ht2, <- app_assoc.
      split; [reflexivity|]. split; [assumption|].
      rewrite filter_app, Hf3, app_nil_r. exact Hf2.
    + destruct (fromFlashEnd_writes _ _ _ _ E2) as (t2 & Ht2 & Hf2).
      exists (trace s1), t2. auto.
  - destruct (handler w e s1) as [r3 s3] eqn:E3. cbn [snd].
    destruct (handler_writes _ _ _ _ E3) as (t3 & Ht3 & Hf3).
    exists (trace s1), t3. auto.
  - exists (trace s1), []. rewrite app_nil_r. auto.
Qed.

End EndOfFlashing.

(** ** A run that reports success *)

Section SuccessfulRun.
Import SLIPCodec ESP32Protocol FlashingService TraceSpec RunSpec.
Variable w : World.

Let silent (a : Action) : Prop := isWrite a = false.

Let preparing (a : Action) : Prop :=
  match a with AWrite bytes _ => setupFrame bytes | _ => True end.

Let isSetup (command : ESP32Command) : bool :=
  match command with
  | Sync | ReadReg | WriteReg | ChangeBaudRate => true
  | _ => false
  end.

Lemma writesOf_silent t : Forall silent t -> writesOf t = [].
Proof.
  induction 1 as [|a t Ha _ IH]; [reflexivity|].
  unfold writesOf in *. cbn [flat_map]. rewrite IH.
  destruct a; try reflexivity. discriminate.
Qed.

Lemma writesOf_preparing t :
  Forall preparing t -> Forall setupFrame (writesOf t).
Proof.
  induction 1 as [|a t Ha _ IH]; [constructor|].
  unfold writesOf in *. cbn [flat_map].
  apply Forall_app. split; [|exact IH].
  destruct a as [| |bytes [|]| | | | | | | |]; constructor;
    try constructor. exact Ha.
Qed.

Lemma writesExactly_silent {A} (m : M A) :
  appends silent m -> writesExactly [] m.
Proof.
  intros Hm s a s' H. destruct (Hm _ _ _ H) as (t & Ht & HQ).
  rewrite Ht, writesOf_app, (writesOf_silent t HQ). reflexivity.
Qed.

Lemma wrapInt_range v : - 2 ^ 31 <= wrapInt v < 2 ^ 31.
Proof.
  unfold wrapInt.
  pose proof (Z.mod_pos_bound (v + 2 ^ 31) (2 ^ 32) ltac:(lia)). lia.
Qed.

Lemma numBlocksOf_bound image :
  Z.of_nat (Z.to_nat (numBlocksOf image)) <= INT_MAX.
Proof.
  unfold numBlocksOf, FLASH_BLOCK_SIZE, INT_MAX. cbv zeta.
  pose proof (wrapInt_range
                (wrapInt (FirmwareImage.size image + 1024) - 1)) as Hr.
  set (x := wrapInt (wrapInt (FirmwareImage.size image + 1024) - 1)) in *.
  clearbody x.
  destruct (Z.lt_ge_cases (Z.quot x 1024) 0) as [Hneg|Hpos].
  - destruct (Z.quot x 1024); cbn; lia.
  - rewrite Z2Nat.id by lia.
    Z.to_euclidean_division_equations. lia.
Qed.

Lemma writesExactly_spiAttach :
  writesExactly [encode (buildSpiAttachCommand 0)] (spiAttach w).
Proof.
  unfold spiAttach. cbv zeta.
  apply (writesExactly_bind [_] []); [apply writesExactly_connWrite|].
  intros _. apply (writesExactly_bind [] []);
    [apply writesExactly_waitForResponse|].
  intros response. apply writesExactly_check.
Qed.

Lemma writesExactly_imagesLoop images : forall bf tot,
  writesExactly (concat (map imageFrames images))
                (imagesLoop w images bf tot).
Proof.
  induction images as [|image rest IH]; intros bf tot;
    cbn [imagesLoop map concat].
  - intros s a s' H. inversion H; subst. now rewrite app_nil_r.
  - apply (writesExactly_bind (imageFrames image)
                                (concat (map imageFrames rest)));
      [|intros _; apply IH].
    unfold imageFrames. apply writesExactly_flashImage.
    apply numBlocksOf_bound.
Qed.

Lemma writesExactly_fromFlashEnd port :
  writesExactly [encode (buildFlashEndCommand true)] (fromFlashEnd w port).
Proof.
  unfold fromFlashEnd, flashEnd. cbv zeta.
  apply (writesExactly_bind [_] []).
  - apply (writesExactly_bind [_] []); [apply writesExactly_connWrite|].
    intros _. apply writesExactly_silent, appends_of_acts.
    apply acts_afterFlashEnd; intros; reflexivity.
  - intros _. apply writesExactly_silent.
    apply appends_bind;
      [apply appends_of_acts, acts_log; reflexivity|]. intros _.
    apply appends_bind;
      [apply appends_of_acts, acts_log; reflexivity|]. intros _.
    apply appends_bind; [apply appends_cleanup; reflexivity|]. intros _.
    apply appends_of_acts, acts_log; reflexivity.
Qed.

(** The stages of [beforeFlashEnd] when it returns normally. *)
Lemma beforeFlashEnd_writes fw port baud s u s' :
  beforeFlashEnd w fw port baud s = (Ok u, s') ->
  exists setup,
    Forall setupFrame setup /\
    writesOf (trace s')
    = writesOf (trace s) ++ setup
      ++ [encode (buildSpiAttachCommand 0)]
      ++ concat (map imageFrames (FirmwareFile.images fw)).
Proof.
  intros H. unfold beforeFlashEnd in H.
  apply bind_ok_inv in H as (u1 & sa & Ha & H).
  apply bind_ok_inv in H as (u2 & sb & Hb & H).
  apply bind_ok_inv in H as (u3 & sc & Hc & H).
  apply bind_ok_inv in H as (u4 & sd & Hd & H).
  assert (Hq : forall command payload checksum ok,
            isSetup command = true ->
            preparing (AWrite (encode (buildPacket command payload checksum))
                              ok)).
  { intros command payload checksum ok Hs. exists command. split.
    - destruct command; try discriminate; auto.
    - now exists payload, checksum. }
  destruct (appends_connectAndSync w preparing) with
    (allowed := isSetup) (port := port) (s := s) (r := Ok u1) (s' := sa)
    as (ta & Hta & HQa); try (intros; exact I); try reflexivity;
    try assumption; try (intros; split; reflexivity).
  assert (Hbaud : appends preparing
            (if negb (isBaud115200 baud)
             then bind (emit FlashingState.changingBaudRate)
                       (fun _ => changeBaudRate w baud)
             else ret tt)).
  { destruct (isBaud115200 baud); cbn [negb].
    - apply appends_of_acts, acts_ret.
    - apply appends_of_acts, acts_bind; [apply acts_log; exact I|].
      intros _.
      apply (acts_changeBaudRate w preparing) with (allowed := isSetup);
        try (intros; exact I); try reflexivity; assumption. }
  destruct (Hbaud _ _ _ Hb) as (tb & Htb & HQb).
  pose proof (writesExactly_spiAttach _ _ _ Hc) as Ec.
  pose proof (writesExactly_imagesLoop _ _ _ _ _ _ Hd) as Ed.
  assert (He : writesExactly []
            (bind (emit FlashingState.verifying)
               (fun _ => bind (sleepMs 100)
                           (fun _ => emit FlashingState.restarting)))).
  { apply writesExactly_silent.
    apply appends_bind;
      [apply appends_of_acts, acts_log; reflexivity|]. intros _.
    apply appends_bind;
      [apply appends_of_acts, acts_log; reflexivity|]. intros _.
    apply appends_of_acts, acts_log; reflexivity. }
  rewrite (He _ _ _ H), app_nil_r, Ed, Ec, Htb, Hta, !writesOf_app.
  exists (writesOf ta ++ writesOf tb). split.
  - apply Forall_app. split; now apply writesOf_preparing.
  - rewrite <- !app_assoc. reflexivity.
Qed.

Lemma not_underWay_finished t b : Forall underWay t -> ~ In (AFinished b) t.
Proof.
  intros H Hin. rewrite Forall_forall in H. exact (H _ Hin).
Qed.

(** X21. A run that gives the finished signal with success has written
    in full, after the frames of the preparation stage (sync, watchdog
    registers, line speed), exactly: [SPI_ATTACH]; then for every image
    of the package, in order, [FLASH_BEGIN] with its geometry followed
    by all its blocks in order; then [FLASH_END] with the reboot flag,
    and nothing else. *)
Theorem X21_success_means_everything_was_sent :
  forall (firmware : FirmwareFile.t) (port : SerialPort.t)
         (baudRate : BaudRate),
    In (AFinished true) (trace (runFlashing w firmware port baudRate)) ->
    exists setup,
      Forall setupFrame setup /\
      writesOf (trace (runFlashing w firmware port baudRate))
      = setup
        ++ [encode (buildSpiAttachCommand 0)]
        ++ concat (map imageFrames (FirmwareFile.images firmware))
        ++ [encode (buildFlashEndCommand true)].
Proof.
  intros firmware port baudRate. rewrite runFlashing_unfold.
  destruct (beforeFlashEnd w firmware port baudRate initial)
    as [[u|e|] s1] eqn:E1.
  all: destruct (beforeFlashEnd_first w underWay) with
      (allowed := fun _ : ESP32Command => true)
      (fw := firmware) (port := port) (baud := baudRate)
      (s := initial)
      (r := fst (beforeFlashEnd w firmware port baudRate initial))
      (s' := s1)
      as (t1 & Ht1 & HQ1);
    try (intros; exact I); try reflexivity;
    try (intros st Hst; exact Hst);
    try (intros; split; [reflexivity | exact I]);
    try (intros; split; reflexivity);
    try (rewrite E1; reflexivity).
  all: cbn [trace initial app] in Ht1.
  all: assert (Hb : Forall underWay (trace s1))
    by (rewrite Ht1; constructor; [reflexivity | exact HQ1]).
  - destruct (fromFlashEnd w port s1) as [[u2|e2|] s2] eqn:E2.
    + intros _.
      destruct (beforeFlashEnd_writes _ _ _ _ _ _ E1) as (setup & Hs & Hw).
      exists setup. split; [assumption|].
      rewrite (writesExactly_fromFlashEnd _ _ _ _ E2), Hw.
      cbn [trace initial writesOf flat_map app]. rewrite <- !app_assoc.
      reflexivity.
    + intros Hin. exfalso.
      destruct (fromFlashEnd_shape w underWay) with
        (allowed := fun _ : ESP32Command => true)
        (port := port) (s := s1) (r := @Throw unit e2) (s' := s2)
        as (t2 & HQ2 & [(_ & Ht2)|(Hr & _)]);
        try (intros; exact I); try reflexivity; try assumption;
        [|discriminate].
      destruct (handler w e2 s2) as [r3 s3] eqn:E3. cbn [snd] in Hin.
      destruct (handler_outcome _ _ _ _ _ E3)
        as (_ & _ & pre & b & st & Hpre & Ht3 & _).
      rewrite Ht3, Ht2 in Hin.
      apply in_app_or in Hin as [Hin|Hin];
        [apply in_app_or in Hin as [Hin|Hin]|].
      * exact (not_underWay_finished _ _ Hb Hin).
      * exact (not_underWay_finished _ _ HQ2 Hin).
      * destruct Hpre as [-> | ->]; cbn in Hin;
          repeat (destruct Hin as [Hin|Hin]; [discriminate|]);
          destruct Hin.
    + intros Hin. exfalso.
      destruct (fromFlashEnd_shape w underWay) with
        (allowed := fun _ : ESP32Command => true)
        (port := port) (s := s1) (r := @Hang unit) (s' := s2)
        as (t2 & HQ2 & [(_ & Ht2)|(Hr & _)]);
        try (intros; exact I); try reflexivity; try assumption;
        [|discriminate].
      rewrite Ht2 in Hin. apply in_app_or in Hin as [Hin|Hin].
      * exact (not_underWay_finished _ _ Hb Hin).
      * exact (not_underWay_finished _ _ HQ2 Hin).
  - intros Hin. exfalso.
    destruct (handler w e s1) as [r3 s3] eqn:E3. cbn [snd] in Hin.
    destruct (handler_outcome _ _ _ _ _ E3)
      as (_ & _ & pre & b & st & Hpre & Ht3 & _).
    rewrite Ht3 in Hin.
    apply in_app_or in Hin as [Hin|Hin].
    * exact (not_underWay_finished _ _ Hb Hin).
    * destruct Hpre as [-> | ->]; cbn in Hin;
        repeat (destruct Hin as [Hin|Hin]; [discriminate|]);
        destruct Hin.
  - intros Hin. exfalso. exact (not_underWay_finished _ _ Hb Hin).
Qed.

End SuccessfulRun.

Section SuccessWitness.
Import SLIPCodec ESP32Protocol FlashingService TraceSpec RunSpec.

Lemma X21_success_means_everything_was_sent_witness :
  exists setup,
    Forall setupFrame setup /\
    writesOf (trace (runFlashing Scenarios.bundleAccepted Scenarios.bundle
                                 Scenarios.classicPort Baud115200))
    = setup
      ++ [encode (buildSpiAttachCommand 0)]
      ++ concat (map imageFrames (FirmwareFile.images Scenarios.bundle))
      ++ [encode (buildFlashEndCommand true)].
Proof.
  apply (X21_success_means_everything_was_sent
           Scenarios.bundleAccepted Scenarios.bundle
           Scenarios.classicPort Baud115200).
  destruct (proj1 (existsb_exists
                     (fun a => match a with
                               | AFinished true => true
                               | _ => false
                               end)
                     (trace (runFlashing Scenarios.bundleAccepted
                               Scenarios.bundle Scenarios.classicPort
                               Baud115200)))
                  ltac:(vm_compute; reflexivity))
    as (a & Hin & Ha).
  destruct a as [| | | | | | | | |[|]|]; try discriminate Ha. exact Hin.
Defined.

End SuccessWitness.

(** ** The two decoders *)

Section TwoDecoders.
Import SLIPCodec SLIPDecoder FramingSpec.

Lemma isEmpty_snoc {A} (l : list A) x : isEmpty (l ++ [x]) = false.
Proof. destruct l; reflexivity. Qed.

Lemma decodeLoop_processLoop p : forall decoded inEscape started,
  doubledEscape p inEscape started (negb (isEmpty decoded)) = false ->
  decodeLoop p decoded inEscape started
  = match fst (processLoop (mk decoded inEscape started) p []) with
    | frame :: _ => frame
    | [] => m_buffer (snd (processLoop (mk decoded inEscape started) p []))
    end.
Proof.
  induction p as [|byte rest IH]; intros decoded inEscape started H.
  - cbn. destruct decoded; reflexivity.
  - cbn [decodeLoop processLoop doubledEscape] in *. unfold processByte.
    cbn [m_packetStarted m_buffer m_inEscape].
    destruct (byte =? FRAME_END) eqn:Eend.
    + destruct (started && negb (isEmpty decoded)) eqn:Efull.
      * apply andb_true_iff in Efull as [_ Hne]. rewrite Hne.
        rewrite processLoop_acc. reflexivity.
      * cbn [isEmpty negb]. apply (IH [] inEscape true). exact H.
    + destruct started; cbn [negb] in *.
      * destruct (byte =? FRAME_ESCAPE) eqn:Eesc.
        -- apply orb_false_iff in H as [-> H].
           cbn [isEmpty negb]. apply (IH decoded true true). exact H.
        -- destruct inEscape; cbn [isEmpty negb].
           ++ destruct (byte =? ESCAPED_END);
                [|destruct (byte =? ESCAPED_ESCAPE)];
                apply IH; rewrite isEmpty_snoc; exact H.
           ++ apply IH. rewrite isEmpty_snoc. exact H.
      * destruct (byte =? FRAME_ESCAPE); cbn [isEmpty negb];
          apply (IH decoded inEscape false); exact H.
Qed.

(** X22. The one-shot decoder and the streaming decoder agree on every
    input, well formed or not, in which no escape byte meets a pending
    escape before the first frame ends: [decode] returns the first frame
    the streaming decoder finds, and what the streaming decoder has
    buffered when it finds none.  On a doubled escape they differ: the
    one-shot decoder keeps the second 0xDB as data, the streaming decoder
    drops it. *)
Theorem X22_decoders_agree_without_doubled_escape :
  (forall p : QByteArray,
     doubledEscape p false false false = false ->
     decode p
     = match fst (process reset p) with
       | frame :: _ => frame
       | [] => m_buffer (snd (process reset p))
       end) /\
  decode [0xC0; 0xDB; 0xDB; 0x01; 0xC0] = [0xDB; 0x01] /\
  fst (process reset [0xC0; 0xDB; 0xDB; 0x01; 0xC0]) = [[0x01]].
Proof.
  split; [|split; reflexivity].
  intros p H. unfold decode, process.
  apply (decodeLoop_processLoop p [] false false). exact H.
Qed.

Lemma X22_decoders_agree_without_doubled_escape_witness :
  decode [0x41; 0xC0; 0xDB; 0x02; 0xDB; 0xDC; 0xC0; 0x07] = [0x02; 0xC0] /\
  fst (process reset [0x41; 0xC0; 0xDB; 0x02; 0xDB; 0xDC; 0xC0; 0x07])
  = [[0x02; 0xC0]].
Proof.
  pose proof (proj1 X22_decoders_agree_without_doubled_escape
                [0x41; 0xC0; 0xDB; 0x02; 0xDB; 0xDC; 0xC0; 0x07] eq_refl)
    as H.
  split; [rewrite H|]; reflexivity.
Defined.

End TwoDecoders.

(** ** An image without content *)

Section EmptyImage.
Import SLIPCodec ESP32Protocol FlashingService TraceSpec RunSpec.
Variable w : World.

(** No state but [Erasing] is reported. *)
Let erasingOnly (a : Action) : Prop :=
  match a with AEmit st => st = FlashingState.erasing | _ => True end.

Lemma numBlocksOf_empty image :
  FirmwareImage.data image = [] -> numBlocksOf image = 0.
Proof.
  intros H. unfold numBlocksOf, FirmwareImage.size. rewrite H. reflexivity.
Qed.

(** X23. An image without content is flashed by announcing it.  On such
    an image [flashImage] reports no state but [Erasing], hence no
    progress, and whenever it returns normally it has written one frame
    only: [FLASH_BEGIN] for 0 bytes in 0 blocks of 1024 bytes at the
    offset of the image. *)
Theorem X23_empty_image_is_only_announced :
  forall (image : FirmwareImage.t) (bytesFlashed totalBytes : Z)
         (s : St) (r : Res unit) (s' : St),
    FirmwareImage.data image = [] ->
    flashImage w image bytesFlashed totalBytes s = (r, s') ->
    (exists t,
       trace s' = trace s ++ t /\
       Forall (fun a => forall st,
                 a = AEmit st -> st = FlashingState.erasing) t) /\
    (r = Ok tt ->
     writesOf (trace s')
     = writesOf (trace s)
       ++ [encode (buildFlashBeginCommand
                     0 0 1024 (FirmwareImage.offset image) false)]).
Proof.
  intros image bf tot s r s' Hempty H. split.
  - assert (Ha : acts erasingOnly (flashImage w image bf tot)).
    { unfold flashImage. cbv zeta. rewrite (numBlocksOf_empty image Hempty).
      cbn [Z.to_nat blockLoop].
      apply acts_bind;
        [apply acts_throwIfCancelled; intros; exact I|]. intros _.
      apply acts_bind; [apply acts_log; reflexivity|]. intros _.
      apply acts_bind; [|intros _; apply acts_ret].
      apply (acts_flashBegin w erasingOnly) with (allowed := fun _ => true);
        intros; exact I || reflexivity. }
    destruct (Ha _ _ _ H) as (_ & _ & t & Ht & HQ).
    exists t. split; [assumption|].
    eapply Forall_impl; [|exact HQ].
    intros a Hq st ->. exact Hq.
  - intros ->.
    rewrite (writesExactly_flashImage w image bf tot
               (numBlocksOf_bound image) _ _ _ H).
    rewrite (numBlocksOf_empty image Hempty).
    unfold FirmwareImage.size. rewrite Hempty. reflexivity.
Qed.

End EmptyImage.

Section EmptyImageWitness.
Import SLIPCodec ESP32Protocol FlashingService TraceSpec RunSpec.

Lemma X23_empty_image_is_only_announced_witness :
  writesOf (trace (snd (flashImage Scenarios.twoBlocksAccepted
                          (FirmwareImage.mk "empty.bin" [] 0x8000)
                          0 0 Scenarios.connected)))
  = [encode (buildFlashBeginCommand 0 0 1024 0x8000 false)].
Proof.
  destruct (flashImage Scenarios.twoBlocksAccepted
              (FirmwareImage.mk "empty.bin" [] 0x8000)
              0 0 Scenarios.connected) as [r s'] eqn:E.
  assert (Hr : r = Ok tt).
  { apply (f_equal fst) in E. vm_compute in E. symmetry. exact E. }
  destruct (X23_empty_image_is_only_announced
              Scenarios.twoBlocksAccepted
              (FirmwareImage.mk "empty.bin" [] 0x8000)
              0 0 Scenarios.connected r s' eq_refl E) as [_ Hw].
  exact (Hw Hr).
Defined.

End EmptyImageWitness.

(** ** The use of the port *)

Create HintDb tidy.

Section PortDiscipline.
Import SLIPCodec ESP32Protocol FlashingService TraceSpec RunSpec PortSpec.
Variable w : World.

Lemma portAfter_snoc t a :
  portAfter (t ++ [a]) = portStep (portAfter t) a.
Proof. unfold portAfter. now rewrite fold_left_app. Qed.

Lemma tidy_ret {A} (a : A) : tidy (ret a).
Proof. intros s r s' Hs H. inversion H; subst. now split. Qed.

Lemma tidy_throw {A} e : tidy (@throw A e).
Proof. intros s r s' Hs H. inversion H; subst. now split. Qed.

Lemma tidy_bind {A B} (m : M A) (k : A -> M B) :
  tidy m -> (forall a, tidy (k a)) -> tidy (bind m k).
Proof.
  intros Hm Hk s r s' Hs H.
  apply bind_inv in H as [(a & s1 & H1 & H2)|(e & H1 & _)].
  - destruct (Hm _ _ _ Hs H1) as [Hs1 Hf1].
    destruct (Hk _ _ _ _ Hs1 H2) as [Hs2 Hf2]. split; congruence.
  - eapply Hm; eassumption.
Qed.

Lemma tidy_tryCatch {A} (m : M A) (h : Exn -> M A) :
  tidy m -> (forall e, tidy (h e)) -> tidy (tryCatch m h).
Proof.
  intros Hm Hh s r s' Hs H.
  apply tryCatch_inv in H as [(a & H1 & _)|(e & s1 & H1 & H2)].
  - eapply Hm; eassumption.
  - destruct (Hm _ _ _ Hs H1) as [Hs1 Hf1].
    destruct (Hh _ _ _ _ Hs1 H2) as [Hs2 Hf2]. split; congruence.
Qed.

(** The account after one more action that neither opens nor closes the
    port and, if it uses the port, finds it open. *)
Lemma accounted_snoc s s' a :
  accounted s ->
  trace s' = trace s ++ [a] -> fd_open s' = fd_open s ->
  (forall ok, a <> AOpen ok) -> a <> AClose ->
  (usesPort a = true -> fd_open s = true) ->
  accounted s'.
Proof.
  unfold accounted. intros Hs Ht Hf Ho Hc Hu.
  rewrite Ht, Hf, portAfter_snoc, Hs.
  destruct a; try reflexivity;
    try (rewrite (Hu eq_refl); reflexivity);
    [exfalso; eapply Ho; reflexivity | congruence].
Qed.

(** An action that has nothing to do with the port. *)
Lemma tidy_log a :
  usesPort a = false -> a <> AClose -> (forall ok, a <> AOpen ok) ->
  tidy (log a).
Proof.
  intros Hu Hc Ho s r s' Hs H. inversion H; subst; clear H.
  split; [|reflexivity].
  eapply accounted_snoc; try eassumption; try reflexivity.
  intros Hu'. congruence.
Qed.

Lemma tidy_same {A} (m : M A) :
  (forall s r s', m s = (r, s') ->
     fd_open s' = fd_open s /\ trace s' = trace s) ->
  tidy m.
Proof.
  intros Hm s r s' Hs H. destruct (Hm _ _ _ H) as [Hf Ht].
  unfold accounted in *. rewrite Ht, Hf. now split.
Qed.

Lemma tidy_setDecoder d : tidy (setDecoder d).
Proof. apply tidy_same. intros s r s' H. inversion H; subst. now cbn. Qed.

Lemma tidy_nextWait t : tidy (nextWait w t).
Proof. apply tidy_same. intros s r s' H. inversion H; subst. now cbn. Qed.

Lemma tidy_requireConnected : tidy requireConnected.
Proof.
  apply tidy_same. intros s r s' H. unfold requireConnected in H.
  assert (s' = s) by (destruct (fd_open s); now inversion H).
  subst. now split.
Qed.

Lemma tidy_isCancelled site : tidy (isCancelled w site).
Proof.
  intros s r s' Hs H. unfold isCancelled in H. inversion H; subst; clear H.
  unfold accounted in *. cbn [trace fd_open].
  rewrite portAfter_snoc, Hs. now split.
Qed.

Lemma tidy_isCancelledAfterCleanup : tidy (isCancelledAfterCleanup w).
Proof.
  intros s r s' Hs H. unfold isCancelledAfterCleanup in H.
  inversion H; subst; clear H.
  unfold accounted in *. cbn [trace fd_open].
  rewrite portAfter_snoc, Hs. now split.
Qed.

Local Hint Resolve tidy_isCancelledAfterCleanup : tidy.

(** A guarded action: [requireConnected] first. *)
Lemma tidy_guarded {A} (m : M A) :
  (forall s r s', accounted s -> fd_open s = true -> m s = (r, s') ->
     accounted s' /\ fd_open s' = fd_open s) ->
  tidy (bind requireConnected (fun _ => m)).
Proof.
  intros Hm s r s' Hs H. unfold bind, requireConnected in H.
  destruct (fd_open s) eqn:Efd.
  - rewrite <- Efd. eapply Hm; eassumption.
  - inversion H; subst. rewrite Efd. now split.
Qed.

Lemma tidy_connWrite data : tidy (connWrite w data).
Proof.
  unfold connWrite. apply tidy_guarded. intros s r s' Hs Hfd H.
  write_cases H; clear H;
    (split; [|reflexivity]);
    (eapply accounted_snoc; try eassumption; try reflexivity;
     [discriminate | discriminate | intros _; exact Hfd]).
Qed.

Lemma tidy_guarded_log a :
  usesPort a = true -> tidy (bind requireConnected (fun _ => log a)).
Proof.
  intros Hu. apply tidy_guarded. intros s r s' Hs Hfd H.
  inversion H; subst; clear H. split; [|reflexivity].
  eapply accounted_snoc; try eassumption; try reflexivity;
    try (destruct a; discriminate). intros _; exact Hfd.
Qed.

Lemma tidy_setDTR v : tidy (setDTR v).
Proof. now apply tidy_guarded_log. Qed.

Lemma tidy_setRTS v : tidy (setRTS v).
Proof. now apply tidy_guarded_log. Qed.

Lemma log_on_open_port a s :
  usesPort a = true -> accounted s -> fd_open s = true ->
  accounted (snd (log a s)) /\ fd_open (snd (log a s)) = true.
Proof.
  intros Hu Hs Hfd. cbn [log snd fd_open]. split; [|exact Hfd].
  eapply accounted_snoc; try exact Hs; try reflexivity;
    try (destruct a; discriminate). intros _; exact Hfd.
Qed.

Lemma tidy_setDTRRTS d r : tidy (setDTRRTS d r).
Proof.
  unfold setDTRRTS. apply tidy_guarded. intros s r0 s' Hs Hfd H.
  destruct (log_on_open_port (ASetDTR d) s eq_refl Hs Hfd) as [Hs1 Hf1].
  destruct (log_on_open_port (ASetRTS r) _ eq_refl Hs1 Hf1) as [Hs2 Hf2].
  unfold bind in H. cbn [log] in H. inversion H; subst; clear H.
  split; [exact Hs2 | now rewrite Hfd].
Qed.

Lemma tidy_connFlush : tidy connFlush.
Proof.
  intros s r s' Hs H. unfold connFlush in H.
  destruct (fd_open s) eqn:Efd.
  - inversion H; subst; clear H. cbn [fd_open]. split; [|assumption].
    eapply accounted_snoc; try eassumption; try reflexivity;
      try discriminate. cbn [fd_open]. now rewrite Efd.
  - inversion H; subst. now split.
Qed.

Lemma tidy_setBaudRate rate : tidy (setBaudRate w rate).
Proof.
  unfold setBaudRate. apply tidy_guarded. intros s r s' Hs Hfd H.
  destruct (setBaudOk w).
  - inversion H; subst; clear H. split; [|reflexivity].
    eapply accounted_snoc; try eassumption; try reflexivity;
      try discriminate. intros _; exact Hfd.
  - inversion H; subst. now split.
Qed.

Local Hint Resolve tidy_ret tidy_throw tidy_setDecoder tidy_nextWait
  tidy_requireConnected tidy_isCancelled tidy_connWrite tidy_setDTR
  tidy_setRTS tidy_setDTRRTS tidy_connFlush tidy_setBaudRate : tidy.
Local Hint Extern 1 (tidy (log _)) =>
  apply tidy_log; [reflexivity | discriminate | discriminate] : tidy.
Local Hint Extern 1 (tidy (emit _)) =>
  apply tidy_log; [reflexivity | discriminate | discriminate] : tidy.
Local Hint Extern 1 (tidy (sleepMs _)) =>
  apply tidy_log; [reflexivity | discriminate | discriminate] : tidy.
Local Hint Extern 1 (tidy (emitFinished _)) =>
  apply tidy_log; [reflexivity | discriminate | discriminate] : tidy.

Ltac tidy_step :=
  match goal with
  | |- tidy (bind _ _) => apply tidy_bind; [|intros]
  | |- tidy (tryCatch _ _) => apply tidy_tryCatch; [|intros]
  | |- tidy (if ?b then _ else _) => destruct b
  | |- tidy (match ?x with _ => _ end) => destruct x
  | |- tidy (let _ := _ in _) => cbv zeta
  end.

Ltac tidy_auto := repeat tidy_step; auto with tidy.

Lemma tidy_connRead o : tidy (connRead o).
Proof. unfold connRead. tidy_auto. Qed.

Lemma tidy_decoderProcess data : tidy (decoderProcess data).
Proof.
  apply tidy_same. intros s r s' H. unfold decoderProcess in H.
  destruct (SLIPDecoder.process (m_slipDecoder s) data) as [packets d].
  inversion H; subst. now cbn.
Qed.

Lemma tidy_throwIfCancelled site : tidy (throwIfCancelled w site).
Proof. unfold throwIfCancelled. tidy_auto. Qed.

Local Hint Resolve tidy_connRead tidy_decoderProcess tidy_throwIfCancelled
  : tidy.

Lemma tidy_waitLoop command outcomes : tidy (waitLoop w command outcomes).
Proof. induction outcomes as [|o later IH]; cbn [waitLoop]; tidy_auto. Qed.

Local Hint Resolve tidy_waitLoop : tidy.

Lemma tidy_waitForResponse command t : tidy (waitForResponse w command t).
Proof. unfold waitForResponse. tidy_auto. Qed.

Local Hint Resolve tidy_waitForResponse : tidy.

Lemma tidy_drainLoop n : tidy (drainLoop w n).
Proof. induction n as [|n IH]; cbn [drainLoop]; tidy_auto. Qed.

Lemma tidy_enterBootloaderMode usb : tidy (enterBootloaderMode usb).
Proof.
  unfold enterBootloaderMode, usbJtagSerialReset, classicReset. tidy_auto.
Qed.

Lemma tidy_hardReset : tidy hardReset.
Proof. unfold hardReset. tidy_auto. Qed.

Local Hint Resolve tidy_drainLoop tidy_enterBootloaderMode tidy_hardReset
  : tidy.

Lemma tidy_performSync : tidy (performSync w).
Proof. unfold performSync. tidy_auto. Qed.

Local Hint Resolve tidy_performSync : tidy.

Lemma tidy_syncLoop n : forall attempt, tidy (syncLoop w n attempt).
Proof. induction n as [|n IH]; intros; cbn [syncLoop]; tidy_auto. Qed.

Lemma tidy_syncWithRetry : tidy (syncWithRetry w).
Proof. apply tidy_syncLoop. Qed.

Lemma tidy_changeBaudRate rate : tidy (changeBaudRate w rate).
Proof. unfold changeBaudRate. tidy_auto. Qed.

Lemma tidy_spiAttach : tidy (spiAttach w).
Proof. unfold spiAttach. tidy_auto. Qed.

Lemma tidy_readReg a : tidy (readReg w a).
Proof. unfold readReg. tidy_auto. Qed.

Lemma tidy_writeReg a v : tidy (writeReg w a v).
Proof. unfold writeReg. tidy_auto. Qed.

Local Hint Resolve tidy_syncWithRetry tidy_changeBaudRate tidy_spiAttach
  tidy_readReg tidy_writeReg : tidy.

Lemma tidy_disableWatchdogs : tidy (disableWatchdogs w).
Proof. unfold disableWatchdogs. tidy_auto. Qed.

Lemma tidy_flashBegin a b c d : tidy (flashBegin w a b c d).
Proof. unfold flashBegin. tidy_auto. Qed.

Lemma tidy_flashData block n : tidy (flashData w block n).
Proof. unfold flashData. tidy_auto. Qed.

Lemma tidy_flashEnd reboot usb : tidy (flashEnd w reboot usb).
Proof. unfold flashEnd. tidy_auto. Qed.

Local Hint Resolve tidy_disableWatchdogs tidy_flashBegin tidy_flashData
  tidy_flashEnd : tidy.

Lemma tidy_blockLoop image nb bf tot n : forall blockNum,
  tidy (blockLoop w image nb bf tot n blockNum).
Proof. induction n as [|n IH]; intros; cbn [blockLoop]; tidy_auto. Qed.

Local Hint Resolve tidy_blockLoop : tidy.

Lemma tidy_flashImage image bf tot : tidy (flashImage w image bf tot).
Proof. unfold flashImage. tidy_auto. Qed.

Local Hint Resolve tidy_flashImage : tidy.

Lemma tidy_imagesLoop images : forall bf tot,
  tidy (imagesLoop w images bf tot).
Proof.
  induction images as [|image rest IH]; intros; cbn [imagesLoop]; tidy_auto.
Qed.

Lemma tidy_flashImages fw : tidy (flashImages w fw).
Proof. apply tidy_imagesLoop. Qed.

Local Hint Resolve tidy_flashImages : tidy.

(** *** Opening and closing *)

Lemma connOpen_closed s r s' :
  accounted s -> fd_open s = false -> connOpen w s = (r, s') ->
  accounted s' /\ (fd_open s' = false \/ exists u, r = Ok u).
Proof.
  unfold accounted, connOpen. intros Hs Hfd H.
  destruct (openResult w (nOpens s)); inversion H; subst; clear H;
    cbn [trace fd_open]; rewrite portAfter_snoc, Hs, Hfd; cbn;
    (split; [reflexivity|]); [now left | right; eauto].
Qed.

Lemma connClose_closes s r s' :
  accounted s -> connClose s = (r, s') ->
  accounted s' /\ fd_open s' = false.
Proof.
  unfold accounted, connClose. intros Hs H.
  destruct (fd_open s) eqn:Efd.
  - inversion H; subst; clear H. cbn [trace fd_open].
    rewrite portAfter_snoc, Hs. now split.
  - inversion H; subst. rewrite Efd. now split.
Qed.

Lemma cleanup_closes s r s' :
  accounted s -> cleanup s = (r, s') ->
  accounted s' /\ fd_open s' = false /\ r = Ok tt.
Proof.
  intros Hs H. unfold cleanup in H.
  apply bind_inv in H as [(u & s1 & H1 & H2)|(r0 & H1 & Hst)].
  - destruct (connClose_closes _ _ _ Hs H1) as [Hs1 Hf1].
    inversion H2; subst. unfold accounted in *. cbn [trace fd_open].
    repeat split; assumption.
  - exfalso. unfold connClose in H1.
    destruct (fd_open s); returned H1 Hst.
Qed.

Lemma reopenLoop_closed n : forall attempt s r s',
  accounted s -> fd_open s = false ->
  reopenLoop w n attempt s = (r, s') ->
  accounted s' /\ (r = Ok true \/ fd_open s' = false).
Proof.
  induction n as [|n IH]; intros attempt s r s' Hs Hfd H;
    cbn [reopenLoop] in H.
  - inversion H; subst. split; [assumption | now right].
  - apply bind_inv in H as [(opened & s1 & H1 & H2)|(r0 & H1 & Hst)].
    + apply tryCatch_inv in H1 as [(r1 & H1 & Hu)|(e & s0 & H1 & Hh)].
      * inversion Hu; subst r1; clear Hu.
        apply bind_ok_inv in H1 as (u & s2 & H1 & Hret).
        inversion Hret; subst; clear Hret. inversion H2; subst; clear H2.
        destruct (connOpen_closed _ _ _ Hs Hfd H1) as [Hs1 _].
        split; [assumption | now left].
      * apply bind_inv in H1 as [(u & s2 & _ & Hret)|(r1 & H1 & Hst1)];
          [inversion Hret|].
        destruct (connOpen_closed _ _ _ Hs Hfd H1) as [Hs0 [Hf0|(u & Hu)]];
          [|subst; inversion Hst1].
        assert (Hh1 : accounted s1 /\ fd_open s1 = false /\ opened = false).
        { apply bind_inv in Hh as [(u & s3 & Hsl & Hret)|(r2 & Hsl & Hst2)].
          - inversion Hret; subst; clear Hret.
            assert (Ht : tidy (if attempt <? 5 then sleepMs 500 else ret tt))
              by tidy_auto.
            destruct (Ht _ _ _ Hs0 Hsl) as [Hs3 Hf3].
            repeat split; [assumption | congruence].
          - exfalso. destruct (attempt <? 5); returned Hsl Hst2. }
        destruct Hh1 as (Hs1 & Hf1 & ->).
        eapply IH; eassumption.
    + exfalso.
      apply tryCatch_inv in H1 as [(r1 & H1 & Hu)|(e0 & s0 & _ & Hh)].
      * inversion Hu; subst; [inversion Hst|].
        apply bind_inv in H1 as [(u & s2 & _ & Hret)|(r2 & Ho & Hst2)];
          [inversion Hret|].
        unfold connOpen in Ho.
        destruct (openResult w (nOpens s)); inversion Ho; subst;
          inversion Hst2.
      * apply bind_inv in Hh as [(u & s3 & _ & Hret)|(r2 & Hsl & Hst2)];
          [inversion Hret; subst; inversion Hst|].
        destruct (attempt <? 5); returned Hsl Hst2.
Qed.

Lemma accounts_of_tidy {A} (m : M A) : tidy m -> accounts m.
Proof. intros Hm s r s' Hs H. now destruct (Hm _ _ _ Hs H). Qed.

Lemma accounts_bind_tidy {A B} (m : M A) (k : A -> M B) :
  tidy m -> (forall a, accounts (k a)) -> accounts (bind m k).
Proof.
  intros Hm Hk s r s' Hs H.
  apply bind_inv in H as [(a & s1 & H1 & H2)|(e & H1 & _)].
  - destruct (Hm _ _ _ Hs H1) as [Hs1 _]. eapply Hk; eassumption.
  - now destruct (Hm _ _ _ Hs H1).
Qed.

(** The stages of [connectAndSync] after the port has been opened. *)
Lemma afterOpen_accounts (usb : bool) :
  accounts
    (bind (enterBootloaderMode usb)
       (fun _ => bind (sleepMs 500)
          (fun _ => bind connFlush
             (fun _ => bind
                (tryCatch
                   (bind (emit FlashingState.syncing)
                      (fun _ => bind (syncWithRetry w)
                         (fun _ => bind
                            (tryCatch
                               (if usb then disableWatchdogs w else ret tt)
                               (fun _ => ret tt))
                            (fun _ => ret true))))
                   (fun _ => ret false))
                (fun syncSucceeded =>
                   if syncSucceeded then ret tt
                   else
                     bind connClose
                       (fun _ => bind (sleepMs 2000)
                          (fun _ => bind (reopenLoop w 5 1)
                             (fun opened =>
                                if negb opened
                                then throw (RuntimeError
                                       "Could not reopen port after reset")
                                else
                                  bind connFlush
                                    (fun _ => bind
                                       (emit FlashingState.syncing)
                                       (fun _ => bind (syncWithRetry w)
                                          (fun _ =>
                                             if usb
                                             then disableWatchdogs w
                                             else ret tt))))))))))).
Proof.
  apply accounts_bind_tidy; [auto with tidy|]. intros _.
  apply accounts_bind_tidy; [auto with tidy|]. intros _.
  apply accounts_bind_tidy; [auto with tidy|]. intros _.
  apply accounts_bind_tidy; [tidy_auto|]. intros [|].
  - apply accounts_of_tidy, tidy_ret.
  - intros s r s' Hs H.
    apply bind_inv in H as [(u & s1 & H1 & H2)|(e & H1 & _)];
      [|now destruct (connClose_closes _ _ _ Hs H1)].
    destruct (connClose_closes _ _ _ Hs H1) as [Hs1 Hf1].
    apply bind_inv in H2 as [(u2 & s2 & Hsl & H3)|(r2 & Hsl & Hst2)];
      [|returned Hsl Hst2].
    assert (Ht : tidy (sleepMs 2000)) by auto with tidy.
    destruct (Ht _ _ _ Hs1 Hsl) as [Hs2 Hf2].
    apply bind_inv in H3 as [(opened & s3 & Hre & H4)|(e & Hre & _)].
    + destruct (reopenLoop_closed _ _ _ _ _ Hs2 ltac:(congruence) Hre)
        as [Hs3 _].
      assert (Hk : tidy
                (if negb opened
                 then throw (RuntimeError "Could not reopen port after reset")
                 else
                   bind connFlush
                     (fun _ => bind (emit FlashingState.syncing)
                        (fun _ => bind (syncWithRetry w)
                           (fun _ => if usb then disableWatchdogs w
                                     else ret tt)))))
        by tidy_auto.
      now destruct (Hk _ _ _ Hs3 H4).
    + now destruct (reopenLoop_closed _ _ _ _ _ Hs2 ltac:(congruence) Hre).
Qed.

Lemma connectAndSync_accounts port s r s' :
  accounted s -> fd_open s = false ->
  connectAndSync w port s = (r, s') -> accounted s'.
Proof.
  intros Hs Hfd H. unfold connectAndSync in H. cbv zeta in H.
  apply bind_inv in H as [(u & s1 & H1 & H2)|(r0 & H1 & Hst)];
    [|returned H1 Hst].
  assert (Ht : tidy (emit FlashingState.connecting)) by auto with tidy.
  destruct (Ht _ _ _ Hs H1) as [Hs1 Hf1].
  apply bind_inv in H2 as [(u2 & s2 & Ho & H3)|(e & Ho & _)].
  - destruct (connOpen_closed _ _ _ Hs1 ltac:(congruence) Ho) as [Hs2 _].
    exact (afterOpen_accounts _ _ _ _ Hs2 H3).
  - now destruct (connOpen_closed _ _ _ Hs1 ltac:(congruence) Ho).
Qed.

Lemma beforeFlashEnd_accounts fw port baud s r s' :
  accounted s -> fd_open s = false ->
  beforeFlashEnd w fw port baud s = (r, s') -> accounted s'.
Proof.
  intros Hs Hfd H. unfold beforeFlashEnd in H.
  apply bind_inv in H as [(u & s1 & H1 & H2)|(e & H1 & _)].
  - pose proof (connectAndSync_accounts _ _ _ _ Hs Hfd H1) as Hs1.
    match type of H2 with
    | ?k _ = _ => assert (Hk : tidy k) by tidy_auto
    end.
    now destruct (Hk _ _ _ Hs1 H2).
  - exact (connectAndSync_accounts _ _ _ _ Hs Hfd H1).
Qed.

Lemma fromFlashEnd_accounts port s r s' :
  accounted s -> fromFlashEnd w port s = (r, s') -> accounted s'.
Proof.
  intros Hs H. unfold fromFlashEnd in H.
  apply bind_inv in H as [(u & s1 & H1 & H2)|(e & H1 & _)];
    [|now destruct (tidy_flashEnd _ _ _ _ _ Hs H1)].
  destruct (tidy_flashEnd _ _ _ _ _ Hs H1) as [Hs1 _].
  apply bind_inv in H2 as [(u2 & s2 & H2 & H3)|(r2 & H2 & Hst2)];
    [|returned H2 Hst2].
  assert (Ht2 : tidy (sleepMs 1000)) by auto with tidy.
  destruct (Ht2 _ _ _ Hs1 H2) as [Hs2 _].
  apply bind_inv in H3 as [(u3 & s3 & H3 & H4)|(r3 & H3 & Hst3)];
    [|returned H3 Hst3].
  assert (Ht3 : tidy (emit FlashingState.complete)) by auto with tidy.
  destruct (Ht3 _ _ _ Hs2 H3) as [Hs3 _].
  apply bind_inv in H4 as [(u4 & s4 & H4 & H5)|(e & H4 & _)].
  - destruct (cleanup_closes _ _ _ Hs3 H4) as (Hs4 & _ & _).
    assert (Ht5 : tidy (emitFinished true)) by auto with tidy.
    now destruct (Ht5 _ _ _ Hs4 H5).
  - now destruct (cleanup_closes _ _ _ Hs3 H4).
Qed.

Lemma handler_accounts e s r s' :
  accounted s -> handler w e s = (r, s') -> accounted s'.
Proof.
  intros Hs H. unfold handler in H.
  apply bind_inv in H as [(u & s1 & H1 & H2)|(e1 & H1 & _)];
    [|now destruct (cleanup_closes _ _ _ Hs H1)].
  destruct (cleanup_closes _ _ _ Hs H1) as (Hs1 & _ & _).
  match type of H2 with
  | ?k _ = _ => assert (Hk : tidy k) by tidy_auto
  end.
  now destruct (Hk _ _ _ Hs1 H2).
Qed.

(** X24. The port is used in order in every run.  Replaying the trace
    from a closed port, no action opens a port that is open, and none
    writes to, flushes, sets the lines or the speed of, or closes a port
    that is closed; and the replay ends with the port as the run leaves
    it.  A run that returns leaves the port closed: a port that was
    opened is closed again, and nothing is done on it after the close.
    A run that does not return is stuck in a write on the open port.  On
    a port that takes every write in the end, the run returns. *)
Theorem X24_port_is_used_in_order :
  forall (firmware : FirmwareFile.t) (port : SerialPort.t)
         (baudRate : BaudRate),
    let outcome := fst (runFlashingM w firmware port baudRate initial) in
    let s' := runFlashing w firmware port baudRate in
    portAfter (trace s') = Some (fd_open s') /\
    (outcome = Ok tt -> fd_open s' = false) /\
    (outcome <> Ok tt -> outcome = Hang /\ stalled w s') /\
    (drains w -> outcome = Ok tt).
Proof.
  intros firmware port baudRate outcome s'. subst outcome s'.
  assert (Hi : accounted initial) by reflexivity.
  assert (Ha : accounted (runFlashing w firmware port baudRate)).
  { rewrite runFlashing_unfold.
    destruct (beforeFlashEnd w firmware port baudRate initial)
      as [[u|e|] s1] eqn:E1;
      pose proof (beforeFlashEnd_accounts _ _ _ _ _ _ Hi eq_refl E1) as Hs1.
    - destruct (fromFlashEnd w port s1) as [[u2|e2|] s2] eqn:E2;
        pose proof (fromFlashEnd_accounts _ _ _ _ Hs1 E2) as Hs2.
      + exact Hs2.
      + destruct (handler w e2 s2) as [r3 s3] eqn:E3.
        exact (handler_accounts _ _ _ _ Hs2 E3).
      + exact Hs2.
    - destruct (handler w e s1) as [r3 s3] eqn:E3.
      exact (handler_accounts _ _ _ _ Hs1 E3).
    - exact Hs1. }
  split; [exact Ha|].
  destruct (run_outcome w firmware port baudRate)
    as [(Hr & Hfd & _)|(Hr & Hst & _)].
  - split; [intros _; exact Hfd|].
    split; [intros Hne; now destruct Hne | intros _; exact Hr].
  - split; [intros Hok; rewrite Hr in Hok; discriminate|].
    split; [intros _; now split | apply run_returns].
Qed.

End PortDiscipline.

Section PortWitness.
Import SLIPCodec ESP32Protocol FlashingService TraceSpec RunSpec PortSpec.

Lemma X24_port_is_used_in_order_witness :
  let done :=
    runFlashing Scenarios.bundleAccepted Scenarios.bundle
                Scenarios.classicPort Baud115200 in
  let stuck :=
    runFlashing Scenarios.cloggedOnFirstBlock Scenarios.smallFirmware
                Scenarios.classicPort Baud115200 in
  (portAfter (trace done) = Some false /\ fd_open done = false) /\
  (portAfter (trace stuck) = Some true /\
   stalled Scenarios.cloggedOnFirstBlock stuck).
Proof.
  cbv zeta. split.
  - destruct (X24_port_is_used_in_order
                Scenarios.bundleAccepted Scenarios.bundle
                Scenarios.classicPort Baud115200) as (Hp & Hok & _ & Hd).
    specialize (Hok (Hd (scripted_drains _ _))).
    rewrite Hok in Hp. now split.
  - destruct (X24_port_is_used_in_order
                Scenarios.cloggedOnFirstBlock Scenarios.smallFirmware
                Scenarios.classicPort Baud115200) as (Hp & _ & Hstuck & _).
    destruct Hstuck as [_ Hst].
    + vm_compute. discriminate.
    + split; [|exact Hst]. destruct Hst as [Hfd _].
      rewrite Hp, Hfd. reflexivity.
Defined.

End PortWitness.

(** ** Changing the line speed *)

Section BaudRateMore.
Import SLIPCodec ESP32Protocol FlashingService TraceSpec RunSpec.
Variable w : World.

(** Not a change of the line speed. *)
Let sameSpeed (a : Action) : Prop :=
  match a with ASetBaudRate _ => False | _ => True end.

Lemma wrap32_baudRateValue rate :
  wrap32 (baudRateValue rate) = baudRateValue rate.
Proof. destruct rate; reflexivity. Qed.

Lemma writesExactly_performSync :
  writesExactly [encode buildSyncCommand] (performSync w).
Proof.
  unfold performSync. cbv zeta.
  apply (writesExactly_bind [_] []); [apply writesExactly_connWrite|].
  intros _. apply writesExactly_silent, appends_of_acts.
  apply acts_afterSync; intros; reflexivity.
Qed.

(** X25. [changeBaudRate] tells the loader first: the line speed of the
    host is changed only after the [CHANGE_BAUDRATE] frame, announcing
    the new rate and the old rate 115200, has been written in full and
    50 ms have passed; it is changed once, to the rate asked for, and
    followed by another 50 ms and one sync attempt.  When the function
    returns normally it has written exactly that frame and one sync
    frame. *)
Theorem X25_speed_changes_after_the_command :
  forall (rate : BaudRate) (s : St) (r : Res unit) (s' : St),
    changeBaudRate w rate s = (r, s') ->
    let command :=
      encode (buildChangeBaudCommand (baudRateValue rate) 115200) in
    exists t,
      trace s' = trace s ++ t /\
      (t = [] \/ t = [AWrite command false] \/
       t = [AWrite command true; ASleep 50] \/
       exists rest,
         t = AWrite command true :: ASleep 50
               :: ASetBaudRate rate :: ASleep 50 :: rest /\
         Forall (fun a => forall rate', a <> ASetBaudRate rate') rest) /\
      (r = Ok tt ->
       writesOf (trace s')
       = writesOf (trace s) ++ [command; encode buildSyncCommand]).
Proof.
  intros rate s r s' H command. subst command.
  unfold changeBaudRate in H. cbv zeta in H.
  rewrite wrap32_baudRateValue in H.
  set (command := encode (buildChangeBaudCommand (baudRateValue rate) 115200))
    in *.
  assert (Hsync : forall s1 r1 s2,
            performSync w s1 = (r1, s2) ->
            exists t, trace s2 = trace s1 ++ t /\
              Forall (fun a => forall rate', a <> ASetBaudRate rate') t).
  { intros s1 r1 s2 Hp.
    destruct (acts_performSync w sameSpeed) with
      (allowed := fun _ : ESP32Command => true) (s := s1) (r := r1) (s' := s2)
      as (_ & _ & t & Ht & HQ); try (intros; exact I); try reflexivity;
      [exact Hp|].
    exists t. split; [assumption|].
    eapply Forall_impl; [|exact HQ]. intros a Ha rate' ->. exact Ha. }
  apply bind_inv in H as [(u & s1 & Hw & H)|(r0 & Hw & Hst)].
  - destruct (connWrite_ok _ _ _ _ _ (encode_nonempty _) Hw) as [Ho Hr].
    destruct (connWrite_open w command s Ho Hr) as (s1' & Hw' & Hfd1 & Ht1).
    rewrite Hw in Hw'. inversion Hw'; subst s1'; clear Hw'.
    apply bind_inv in H as [(u2 & s2 & Hsl & H)|(r2 & Hsl & Hst2)];
      [|returned Hsl Hst2].
    inversion Hsl; subst s2; clear Hsl.
    apply bind_inv in H as [(u3 & s3 & Hb & H)|(r3 & Hb & Hst3)].
    + unfold setBaudRate, bind, requireConnected in Hb.
      cbn [fd_open] in Hb. rewrite Hfd1 in Hb.
      destruct (setBaudOk w); [|discriminate].
      inversion Hb; subst s3; clear Hb.
      apply bind_inv in H as [(u4 & s4 & Hsl & H)|(r4 & Hsl & Hst4)];
        [|returned Hsl Hst4].
      inversion Hsl; subst s4; clear Hsl.
      destruct (Hsync _ _ _ H) as (t & Ht & HQ). cbn [trace] in Ht.
      exists (AWrite command true :: ASleep 50
                :: ASetBaudRate rate :: ASleep 50 :: t).
      split; [rewrite Ht, Ht1, <- !app_assoc; reflexivity|].
      split; [right; right; right; exists t; now split|].
      intros ->.
      rewrite (writesExactly_performSync _ _ _ H). cbn [trace].
      rewrite !writesOf_app, Ht1, writesOf_app.
      cbn [writesOf flat_map app]. rewrite !app_nil_r, <- app_assoc.
      reflexivity.
    + unfold setBaudRate, bind, requireConnected in Hb.
      cbn [fd_open] in Hb. rewrite Hfd1 in Hb.
      destruct (setBaudOk w); [returned Hb Hst3|].
      inversion Hb; subst; clear Hb. cbn [trace].
      exists [AWrite command true; ASleep 50].
      split; [rewrite Ht1, <- app_assoc; reflexivity|].
      split; [auto | intros ->; inversion Hst3].
  - destruct (connWrite_stopped _ _ _ _ _ _ Hw Hst)
      as [(_ & -> & _)|(_ & _ & Ht & _)].
    + exists []. rewrite app_nil_r.
      split; [reflexivity|]. split; [auto | intros ->; inversion Hst].
    + exists [AWrite command false].
      split; [exact Ht|]. split; [auto | intros ->; inversion Hst].
Qed.

End BaudRateMore.

Section BaudRateWitness.
Import SLIPCodec ESP32Protocol FlashingService TraceSpec RunSpec.

Lemma X25_speed_changes_after_the_command_witness :
  writesOf (trace (snd (changeBaudRate
                          (Scenarios.scripted None [Scenarios.answers Sync 0])
                          Baud921600 Scenarios.connected)))
  = [encode (buildChangeBaudCommand 921600 115200); encode buildSyncCommand].
Proof.
  destruct (changeBaudRate
              (Scenarios.scripted None [Scenarios.answers Sync 0])
              Baud921600 Scenarios.connected) as [r s'] eqn:E.
  assert (Hr : r = Ok tt).
  { apply (f_equal fst) in E. vm_compute in E. symmetry. exact E. }
  destruct (X25_speed_changes_after_the_command
              (Scenarios.scripted None [Scenarios.answers Sync 0])
              Baud921600 Scenarios.connected r s' E) as (t & _ & _ & Hw).
  exact (Hw Hr).
Defined.

End BaudRateWitness.
